(** * SlimTaskScheduler: a shallow embedding of [SlimTaskScheduler.inl]

    The scheduler object is a record carrying the fields of the C++ class;
    its member functions are computations in a small state-and-trace monad.
    Every computation returns, besides its result and the new state, the
    list of events it performed in program order: mutex operations,
    accesses to [m_TaskWorkers], task executions, allocator calls, thread
    creation and join requests, event-handler connections.  Claims about
    results are read off the state, claims about order and locking off the
    trace.  A member function run as one computation is the function run
    to completion: the mutexes it locks are taken to be free, and the
    threads it joins to end.  Whether they are is a matter of the other
    threads, so the worker loop [WorkerFn], [SetWorkerCount], [AddTask]
    and [WaitUntilAllTasksFinished] are also given as step machines over
    the same state, whose steps are interleaved under the mutexes the
    threads hold: a step that locks a mutex is taken only when no thread
    holds that mutex. *)

From stdpp Require Import base option list gmap strings pretty.

#[local] Set Warnings "-clear-no-such-hyp".

Local Open Scope string_scope.
Local Open Scope list_scope.
Local Open Scope nat_scope.

(** ** Result type ([Result::CreateSuccess], [CreateFailure], [CopyFailure]) *)

Inductive TResult (A : Type) : Type :=
| Success (v : A)
| Failure (msg : string).
Arguments Success {A} v.
Arguments Failure {A} msg.

Abbreviation EmptyResult := (TResult unit).

Definition HasFailed {A} (r : TResult A) : bool :=
  match r with Failure _ => true | Success _ => false end.

Definition GetFailMessage {A} (r : TResult A) : string :=
  match r with Failure msg => msg | Success _ => "" end.

Definition CreateSuccess : EmptyResult := Success ().
Definition CreateFailure (msg : string) : EmptyResult := Failure msg.
(** Only ever applied to a failed result (line 56). *)
Definition CopyFailure {A} (r : TResult A) : EmptyResult :=
  Failure (GetFailMessage r).

(** The failures of the scheduler, with the messages of the source. *)
Definition GrowthDisabled : EmptyResult :=
  CreateFailure "Trying to add more workers to a SlimTaskScheduler, but it has forbidden the growth.".
Definition ProvisioningUnavailable : EmptyResult :=
  CreateFailure "Trying to add more workers to a SlimTaskScheduler, but the ThreadManager has expired.".
Definition NoAvailableWorkers : EmptyResult :=
  CreateFailure "Couldn't add the task, no available workers.".

(** ** Objects the scheduler refers to *)

(** A thread handle; [PThread] is the nullable shared pointer to it. *)
Abbreviation Thread := nat (only parsing).
Abbreviation PThread := (option nat) (only parsing).

(** A task is an opaque callable, identified by a number; running it is the
    event [EvRun].  [SlimTaskPtr] is the address of a piece of task storage. *)
Abbreviation SlimTask := nat (only parsing).
Abbreviation SlimTaskPtr := positive (only parsing).

(** [cfg.ThreadFN] is the closure that calls [WorkerFn] on this scheduler
    with the captured index [i]; it is represented by [i]. *)
Record ThreadConfig := {
  Name : string;
  ThreadFN : nat
}.

(** [name.c_str()] as a C string: the characters before the first NUL. *)
Fixpoint c_str (name : string) : string :=
  match name with
  | EmptyString => EmptyString
  | String a rest => if Ascii.eqb a Ascii.zero then EmptyString else String a (c_str rest)
  end.

(** [Format("%s_%" PRIuPTR, m_Name.c_str(), i)], read as [printf] reads
    its format: [%s] writes the C string, [PRIuPTR] writes [i] in
    decimal. *)
Definition Format (name : string) (i : nat) : string :=
  (c_str name +:+ "_" +:+ pretty i)%string.

(** Interfaces, as far as the rebinding handlers look at them.  A weak
    reference that has expired is [None]. *)
Record GreaperLibrary := {
  GetApplication : option nat
}.

Record IInterface := {
  InterfaceId : nat;
  GetInterfaceUUID : nat;
  GetLibrary : option GreaperLibrary
}.

Abbreviation PInterface := (option IInterface) (only parsing).

(** The two notification streams a handler can be registered with. *)
Inductive EventSource :=
| ActivationEvent (iface : nat)
| OnInterfaceActivationEvent (app : nat).

Inductive Handler := OnManagerActivationHandler | OnNewManagerHandler.

(** The three mutexes of the class.  Modelled from the spec: the mutex
    classes are declared outside this file.  They are read as mutexes
    that a thread cannot lock again while it holds them; the worker-pool
    mutex can also be locked in shared mode, by several threads at a
    time, and then keeps exclusive locks out. *)
Inductive Mutex := TaskWorkersMutex | TaskQueueMutex | FreeTaskPoolMutex.

Inductive Access := Observe | Mutate.

(** ** Events *)

Inductive Event :=
| EvLock (m : Mutex)
| EvUnlock (m : Mutex)
| EvLockShared (m : Mutex)
| EvUnlockShared (m : Mutex)
| EvWorkers (a : Access)
| EvNotifyOne
| EvNotifyAll
| EvYield
| EvWait
| EvCreateThread (cfg : ThreadConfig) (r : TResult Thread)
| EvTryJoin (th : Thread) (joined : bool)
| EvRun (t : SlimTask)
| EvAlloc (p : SlimTaskPtr)
| EvDealloc (p : SlimTaskPtr)
| EvConnect (h : Handler) (src : EventSource)
| EvDisconnect (h : Handler).

Global Instance Mutex_eq_dec : EqDecision Mutex.
Proof. solve_decision. Defined.
Global Instance Handler_eq_dec : EqDecision Handler.
Proof. solve_decision. Defined.
Global Instance EventSource_eq_dec : EqDecision EventSource.
Proof. solve_decision. Defined.

(** The tasks run by a trace, in order. *)
Definition executed (tr : list Event) : list nat :=
  omap (λ e, match e with EvRun t => Some t | _ => None end) tr.

(** The storage given back to the allocator by a trace, in order. *)
Definition freed (tr : list Event) : list positive :=
  omap (λ e, match e with EvDealloc p => Some p | _ => None end) tr.

(** The thread-creation requests of a trace and the threads they returned. *)
Definition creation_results (tr : list Event) : list (TResult nat) :=
  omap (λ e, match e with EvCreateThread _ r => Some r | _ => None end) tr.

Definition created_threads (tr : list Event) : list nat :=
  omap (λ e, match e with EvCreateThread _ (Success th) => Some th | _ => None end) tr.

(** [std::vector::back] and [pop_back]. *)
Definition back {A} (l : list A) : option A := last l.
Definition pop_back {A} (l : list A) : list A := removelast l.

(** First present worker found by the range-for of lines 205-209. *)
Fixpoint any_worker (ws : list PThread) : bool :=
  match ws with
  | [] => false
  | Some _ :: _ => true
  | None :: ws' => any_worker ws'
  end.

Section Scheduler.

(** The thread-provisioning subsystem is external: its state is an
    abstract type and [CreateThread] an arbitrary function on it.
    [join_attempts th] is the number of times [th->TryJoin()] answers
    false before the thread is found finished, where [SetWorkerCount] is
    run as one computation; in the step machine the answer comes from
    the worker itself.  [ThreadManagerUUID] is
    [IThreadManager::InterfaceUUID]. *)
Context {ThreadManager : Type}.
Variable CreateThread : ThreadManager → ThreadConfig → TResult Thread * ThreadManager.
Variable join_attempts : Thread → nat.
Variable ThreadManagerUUID : nat.

(** ** The scheduler and the memory it points into *)

(** [m_ThreadManager] is a weak reference: the identity of a manager,
    expired when [managers] has no object under it.  A handler holds the
    registrations made through it.  [heap] maps the address of every
    allocated task storage to [None] (raw memory) or [Some t] (a
    constructed task). *)
Record State := {
  m_ThreadManager : nat;
  m_OnManagerActivation : list EventSource;
  m_OnNewManager : list EventSource;
  m_Name : string;
  m_TaskWorkers : list PThread;
  m_TaskQueue : list SlimTaskPtr;
  m_FreeTaskPool : list SlimTaskPtr;
  m_AllowGrowth : bool;
  heap : gmap SlimTaskPtr (option SlimTask);
  managers : gmap nat ThreadManager
}.

Definition set_ThreadManager (v : nat) (s : State) : State :=
  {| m_ThreadManager := v;
     m_OnManagerActivation := m_OnManagerActivation s;
     m_OnNewManager := m_OnNewManager s;
     m_Name := m_Name s;
     m_TaskWorkers := m_TaskWorkers s;
     m_TaskQueue := m_TaskQueue s;
     m_FreeTaskPool := m_FreeTaskPool s;
     m_AllowGrowth := m_AllowGrowth s;
     heap := heap s;
     managers := managers s |}.

Definition set_OnManagerActivation (v : list EventSource) (s : State) : State :=
  {| m_ThreadManager := m_ThreadManager s;
     m_OnManagerActivation := v;
     m_OnNewManager := m_OnNewManager s;
     m_Name := m_Name s;
     m_TaskWorkers := m_TaskWorkers s;
     m_TaskQueue := m_TaskQueue s;
     m_FreeTaskPool := m_FreeTaskPool s;
     m_AllowGrowth := m_AllowGrowth s;
     heap := heap s;
     managers := managers s |}.

Definition set_OnNewManager (v : list EventSource) (s : State) : State :=
  {| m_ThreadManager := m_ThreadManager s;
     m_OnManagerActivation := m_OnManagerActivation s;
     m_OnNewManager := v;
     m_Name := m_Name s;
     m_TaskWorkers := m_TaskWorkers s;
     m_TaskQueue := m_TaskQueue s;
     m_FreeTaskPool := m_FreeTaskPool s;
     m_AllowGrowth := m_AllowGrowth s;
     heap := heap s;
     managers := managers s |}.

Definition set_TaskWorkers (v : list (option nat)) (s : State) : State :=
  {| m_ThreadManager := m_ThreadManager s;
     m_OnManagerActivation := m_OnManagerActivation s;
     m_OnNewManager := m_OnNewManager s;
     m_Name := m_Name s;
     m_TaskWorkers := v;
     m_TaskQueue := m_TaskQueue s;
     m_FreeTaskPool := m_FreeTaskPool s;
     m_AllowGrowth := m_AllowGrowth s;
     heap := heap s;
     managers := managers s |}.

Definition set_TaskQueue (v : list positive) (s : State) : State :=
  {| m_ThreadManager := m_ThreadManager s;
     m_OnManagerActivation := m_OnManagerActivation s;
     m_OnNewManager := m_OnNewManager s;
     m_Name := m_Name s;
     m_TaskWorkers := m_TaskWorkers s;
     m_TaskQueue := v;
     m_FreeTaskPool := m_FreeTaskPool s;
     m_AllowGrowth := m_AllowGrowth s;
     heap := heap s;
     managers := managers s |}.

Definition set_FreeTaskPool (v : list positive) (s : State) : State :=
  {| m_ThreadManager := m_ThreadManager s;
     m_OnManagerActivation := m_OnManagerActivation s;
     m_OnNewManager := m_OnNewManager s;
     m_Name := m_Name s;
     m_TaskWorkers := m_TaskWorkers s;
     m_TaskQueue := m_TaskQueue s;
     m_FreeTaskPool := v;
     m_AllowGrowth := m_AllowGrowth s;
     heap := heap s;
     managers := managers s |}.

Definition set_AllowGrowth (v : bool) (s : State) : State :=
  {| m_ThreadManager := m_ThreadManager s;
     m_OnManagerActivation := m_OnManagerActivation s;
     m_OnNewManager := m_OnNewManager s;
     m_Name := m_Name s;
     m_TaskWorkers := m_TaskWorkers s;
     m_TaskQueue := m_TaskQueue s;
     m_FreeTaskPool := m_FreeTaskPool s;
     m_AllowGrowth := v;
     heap := heap s;
     managers := managers s |}.

Definition set_heap (v : gmap positive (option nat)) (s : State) : State :=
  {| m_ThreadManager := m_ThreadManager s;
     m_OnManagerActivation := m_OnManagerActivation s;
     m_OnNewManager := m_OnNewManager s;
     m_Name := m_Name s;
     m_TaskWorkers := m_TaskWorkers s;
     m_TaskQueue := m_TaskQueue s;
     m_FreeTaskPool := m_FreeTaskPool s;
     m_AllowGrowth := m_AllowGrowth s;
     heap := v;
     managers := managers s |}.

Definition set_managers (v : gmap nat ThreadManager) (s : State) : State :=
  {| m_ThreadManager := m_ThreadManager s;
     m_OnManagerActivation := m_OnManagerActivation s;
     m_OnNewManager := m_OnNewManager s;
     m_Name := m_Name s;
     m_TaskWorkers := m_TaskWorkers s;
     m_TaskQueue := m_TaskQueue s;
     m_FreeTaskPool := m_FreeTaskPool s;
     m_AllowGrowth := m_AllowGrowth s;
     heap := heap s;
     managers := v |}.

(** ** The monad: state, trace of events, fatal abort *)

(** [Abort] is the end of the process: a failed [VerifyNot], or behaviour
    the language leaves undefined (running or freeing storage that holds
    no task, dereferencing null). *)
Inductive Outcome (A : Type) : Type :=
| Done (tr : list Event) (s : State) (a : A)
| Abort (msg : string).
Arguments Done {A} tr s a.
Arguments Abort {A} msg.

Definition M (A : Type) : Type := State → Outcome A.

Definition ret {A} (a : A) : M A := λ s, Done [] s a.

Definition bind {A B} (m : M A) (f : A → M B) : M B := λ s,
  match m s with
  | Abort msg => Abort msg
  | Done tr s' a =>
      match f a s' with
      | Abort msg => Abort msg
      | Done tr' s'' b => Done (tr ++ tr') s'' b
      end
  end.

Definition emit (e : Event) : M unit := λ s, Done [e] s ().
Definition gets {A} (f : State → A) : M A := λ s, Done [] s (f s).
Definition modify (f : State → State) : M unit := λ s, Done [] (f s) ().
Definition abort {A} (msg : string) : M A := λ _, Abort msg.

Notation "'let*' x := m 'in' k" := (bind m (λ x, k))
  (at level 10, x name, m at level 100, k at level 200).
Notation "m >> k" := (bind m (λ _, k))
  (at level 100, k at level 200, right associativity).

Fixpoint for_each {A} (l : list A) (body : A → M unit) : M unit :=
  match l with
  | [] => ret ()
  | x :: l' => body x >> for_each l' body
  end.

Fixpoint repeat_m (n : nat) (body : M unit) : M unit :=
  match n with
  | 0 => ret ()
  | S n' => body >> repeat_m n' body
  end.

(** What a computation did, for statements about a single call. *)
Definition trace_of {A} (o : Outcome A) : list Event :=
  match o with Done tr _ _ => tr | Abort _ => [] end.
Definition state_of {A} (s0 : State) (o : Outcome A) : State :=
  match o with Done _ s _ => s | Abort _ => s0 end.
Definition result_of {A} (o : Outcome A) : option A :=
  match o with Done _ _ a => Some a | Abort _ => None end.

(** ** Primitive accesses *)

(** Every read and write of [m_TaskWorkers] leaves an [EvWorkers] event. *)
Definition workers_size : M nat :=
  emit (EvWorkers Observe) >> gets (λ s, length (m_TaskWorkers s)).
Definition workers_read : M (list PThread) :=
  emit (EvWorkers Observe) >> gets m_TaskWorkers.
Definition workers_write (f : list PThread → list PThread) : M unit :=
  emit (EvWorkers Mutate) >> modify (λ s, set_TaskWorkers (f (m_TaskWorkers s)) s).

(** [AllocT<SlimTask>()]: fresh raw storage. *)
Definition AllocT : M SlimTaskPtr :=
  let* h := gets heap in
  let p := fresh (dom h) in
  modify (set_heap (<[p := None]> h)) >>
  emit (EvAlloc p) >>
  ret p.

(** [Dealloc(task)]: gives the storage back; freeing what is not
    allocated is undefined. *)
Definition Dealloc (p : SlimTaskPtr) : M unit :=
  let* h := gets heap in
  match h !! p with
  | None => abort "Dealloc of storage that is not allocated"
  | Some _ => modify (set_heap (delete p h)) >> emit (EvDealloc p)
  end.

(** Modelled from the spec: [Destroy] is declared outside this file; the
    design document has [Stop] release the slots it has just executed
    back to the allocator, so [Destroy(task)] runs the destructor and
    deallocates. *)
Definition Destroy (p : SlimTaskPtr) : M unit := Dealloc p.

(** [new(taskPtr) SlimTask(std::move(task))] *)
Definition construct (p : SlimTaskPtr) (task : SlimTask) : M unit :=
  let* h := gets heap in
  match h !! p with
  | None => abort "placement new into storage that is not allocated"
  | Some _ => modify (set_heap (<[p := Some task]> h))
  end.

(** The call of the task behind [task]. *)
Definition invoke (p : SlimTaskPtr) : M unit :=
  let* h := gets heap in
  match h !! p with
  | Some (Some t) => emit (EvRun t)
  | _ => abort "call through storage that holds no task"
  end.

(** [task->~packaged_task()] *)
Definition destruct_task (p : SlimTaskPtr) : M unit :=
  let* h := gets heap in
  match h !! p with
  | Some (Some _) => modify (set_heap (<[p := None]> h))
  | _ => abort "destructor on storage that holds no task"
  end.

(** Modelled from the spec: the event classes are declared outside this
    file.  [handler.Disconnect()] ends what registration the handler has,
    and does nothing when it has none. *)
Definition Disconnect (h : Handler) : M unit :=
  emit (EvDisconnect h) >>
  match h with
  | OnManagerActivationHandler => modify (set_OnManagerActivation [])
  | OnNewManagerHandler => modify (set_OnNewManager [])
  end.

(** Modelled from the spec: [event.Connect(handler, callback)] adds a
    registration of the handler with the event. *)
Definition Connect (h : Handler) (src : EventSource) : M unit :=
  emit (EvConnect h src) >>
  match h with
  | OnManagerActivationHandler =>
      modify (λ s, set_OnManagerActivation (m_OnManagerActivation s ++ [src]) s)
  | OnNewManagerHandler =>
      modify (λ s, set_OnNewManager (m_OnNewManager s ++ [src]) s)
  end.

(** [thManager->CreateThread(cfg)] on the manager behind the locked weak
    reference. *)
Definition CreateThread_via (mgr : nat) (cfg : ThreadConfig) : M (TResult nat) :=
  let* ms := gets managers in
  match ms !! mgr with
  | None => abort "CreateThread through a null ThreadManager"
  | Some tm =>
      let (thRes, tm') := CreateThread tm cfg in
      modify (set_managers (<[mgr := tm']> ms)) >>
      emit (EvCreateThread cfg thRes) >>
      ret thRes
  end.

(** ** Member functions *)

Definition GetWorkerCount : M nat :=
  emit (EvLockShared TaskWorkersMutex) >>
  let* n := workers_size in
  emit (EvUnlockShared TaskWorkersMutex) >>
  ret n.

Definition GetName : M string := gets m_Name.

Definition IsGrowthEnabled : M bool :=
  emit (EvLockShared TaskWorkersMutex) >>
  let* g := gets m_AllowGrowth in
  emit (EvUnlockShared TaskWorkersMutex) >>
  ret g.

Definition EnableGrowth (enable : bool) : M unit :=
  emit (EvLock TaskWorkersMutex) >>
  modify (set_AllowGrowth enable) >>
  emit (EvUnlock TaskWorkersMutex).

(** Lines 48-58: [n] is the number of iterations left, [count - i]. *)
Fixpoint grow_loop (mgr : nat) (n i : nat) : M EmptyResult :=
  match n with
  | 0 => ret CreateSuccess
  | S n' =>
      let* name := gets m_Name in
      let cfg := {| Name := Format name i; ThreadFN := i |} in
      let* thRes := CreateThread_via mgr cfg in
      match thRes with
      | Failure _ => ret (CopyFailure thRes)
      | Success th =>
          workers_write (λ ws, ws ++ [Some th]) >>
          grow_loop mgr n' (S i)
      end
  end.

(** Lines 69-80: [th] is asked [join_attempts th] times in vain, the
    queue signal being broadcast after each refusal, and then joins. *)
Definition join_loop (th : PThread) : M unit :=
  match th with
  | None => ret ()
  | Some t =>
      repeat_m (join_attempts t)
        (emit (EvTryJoin t false) >> emit EvNotifyAll >> emit EvYield) >>
      emit (EvTryJoin t true)
  end.

(** The events of one join: refusals, each answered by a broadcast, and
    the successful attempt. *)
Definition join_trace (th : option nat) : list Event :=
  match th with
  | None => []
  | Some t =>
      concat (replicate (join_attempts t) [EvTryJoin t false; EvNotifyAll; EvYield])
      ++ [EvTryJoin t true]
  end.

(** Lines 63-83, as the statements that the calling thread runs, in
    program order: every lock is taken where the code asks for it and
    every join succeeds after the refusals of [join_attempts].  Whether
    the lock is got and the worker ever returns depends on the other
    threads and on what the thread holds itself; that is the matter of
    the step machine [SetWorkerCount_step] and of the scene below, where
    a second turn of the loop, which unlocks the worker-pool mutex that
    is not held (line 68) and locks the queue mutex that is (line 81),
    does not come to its end.  [fuel] bounds the iterations of the
    [while]; the caller passes the size of the pool, which is enough
    since every iteration erases one element. *)
Fixpoint shrink_loop (fuel : nat) (count : nat) : M unit :=
  let* size := workers_size in
  if bool_decide (count < size) then
    match fuel with
    | 0 => abort "shrink_loop: out of fuel"
    | S fuel' =>
        let* sz := workers_size in
        let* ws := workers_read in
        let th := mjoin (ws !! (sz - 1)) in
        workers_write (λ ws, <[sz - 1 := None]> ws) >>
        emit (EvUnlock TaskWorkersMutex) >>
        join_loop th >>
        emit (EvLock TaskQueueMutex) >>
        workers_write (λ ws, delete (sz - 1) ws) >>
        shrink_loop fuel' count
    end
  else ret ().

(** Lines 39-58, the block that adds workers.  [lck] adopts the pool
    mutex, taken at line 30, and releases it wherever the block is left. *)
Definition add_workers (count : nat) : M EmptyResult :=
  let* allow := gets m_AllowGrowth in
  if negb allow then
    emit (EvUnlock TaskWorkersMutex) >> ret GrowthDisabled
  else
    let* mgr := gets m_ThreadManager in
    let* ms := gets managers in
    if bool_decide (ms !! mgr = None) then
      emit (EvUnlock TaskWorkersMutex) >> ret ProvisioningUnavailable
    else
      let* i := workers_size in
      let* r := grow_loop mgr (count - i) i in
      emit (EvUnlock TaskWorkersMutex) >>
      ret r.

Definition SetWorkerCount (count : nat) : M EmptyResult :=
  emit (EvLock TaskWorkersMutex) >>
  let* size := workers_size in
  if bool_decide (size = count) then
    emit (EvUnlock TaskWorkersMutex) >>
    ret CreateSuccess
  else
    let* size := workers_size in
    if bool_decide (size < count) then add_workers count
    else
      let* fuel := gets (λ s, length (m_TaskWorkers s)) in
      shrink_loop fuel count >>
      ret CreateSuccess.

(** ** [SetWorkerCount] as a step machine *)

(** Where the calling thread stands in [SetWorkerCount]; [th] and [sz]
    are its local variables.  Between two points lie the statements that
    the thread runs without waiting for another thread. *)
Inductive ResizePC :=
| AtEntry
| AtWhile
| AtMark
| AtJoin (th : PThread) (sz : nat)
| AtRelock (sz : nat)
| AtErase (sz : nat)
| Returned (r : EmptyResult).

(** [joined] is the answer of [TryJoin], should the step ask. *)
Definition SetWorkerCount_step (count : nat) (joined : bool) (pc : ResizePC) : M ResizePC :=
  match pc with
  | AtEntry =>
      (* lines 30-59 *)
      emit (EvLock TaskWorkersMutex) >>
      let* size := workers_size in
      if bool_decide (size = count) then
        emit (EvUnlock TaskWorkersMutex) >>
        ret (Returned CreateSuccess)
      else
        let* size := workers_size in
        if bool_decide (size < count) then
          let* r := add_workers count in ret (Returned r)
        else ret AtWhile
  | AtWhile =>
      (* line 63, and line 85 once the loop is left *)
      let* size := workers_size in
      if bool_decide (count < size) then ret AtMark
      else ret (Returned CreateSuccess)
  | AtMark =>
      (* lines 65-68 *)
      let* sz := workers_size in
      let* ws := workers_read in
      let th := mjoin (ws !! (sz - 1)) in
      workers_write (λ ws, <[sz - 1 := None]> ws) >>
      emit (EvUnlock TaskWorkersMutex) >>
      ret (AtJoin th sz)
  | AtJoin None sz => ret (AtRelock sz)
  | AtJoin (Some t) sz =>
      (* lines 69-80, one turn *)
      if joined then
        emit (EvTryJoin t true) >> ret (AtRelock sz)
      else
        emit (EvTryJoin t false) >> emit EvNotifyAll >> emit EvYield >>
        ret (AtJoin (Some t) sz)
  | AtRelock sz =>
      (* line 81 *)
      emit (EvLock TaskQueueMutex) >> ret (AtErase sz)
  | AtErase sz =>
      (* line 82 *)
      workers_write (λ ws, delete (sz - 1) ws) >> ret AtWhile
  | Returned r => ret (Returned r)
  end.

(** The machine run on the answers that [TryJoin] gives, one for each
    step. *)
Fixpoint SetWorkerCount_run (count : nat) (answers : list bool) (pc : ResizePC)
    : M ResizePC :=
  match answers with
  | [] => ret pc
  | joined :: answers' =>
      let* pc' := SetWorkerCount_step count joined pc in
      SetWorkerCount_run count answers' pc'
  end.

(** What [SetWorkerCount] gives, as the machine reports it. *)
Definition returned_with (o : Outcome EmptyResult) : Outcome ResizePC :=
  match o with
  | Done tr s r => Done tr s (Returned r)
  | Abort msg => Abort msg
  end.

Definition AreThereAnyAvailableWorker : M bool :=
  let* ws := workers_read in
  match ws with
  | [] => ret false
  | _ => let* ws := workers_read in ret (any_worker ws)
  end.

(** Lines 88-118, as the statements that the calling thread runs, in
    program order, every lock being taken where the code asks for it.
    [AddTask_step] below takes the call apart at its locks, for a thread
    that has to wait for them. *)
Definition AddTask (task : SlimTask) : M EmptyResult :=
  emit (EvLockShared TaskWorkersMutex) >>
  let* avail := AreThereAnyAvailableWorker in
  if negb avail then
    emit (EvUnlockShared TaskWorkersMutex) >>
    ret NoAvailableWorkers
  else
    emit (EvLock FreeTaskPoolMutex) >>
    let* pool := gets m_FreeTaskPool in
    let* taskPtr :=
      match back pool with
      | None => AllocT
      | Some p => modify (set_FreeTaskPool (pop_back pool)) >> ret p
      end in
    emit (EvUnlock FreeTaskPoolMutex) >>
    construct taskPtr task >>
    emit (EvLock TaskQueueMutex) >>
    modify (λ s, set_TaskQueue (m_TaskQueue s ++ [taskPtr]) s) >>
    emit (EvUnlock TaskQueueMutex) >>
    emit EvNotifyOne >>
    emit (EvUnlockShared TaskWorkersMutex) >>
    ret CreateSuccess.

(** ** [AddTask] as a step machine *)

(** Where the submitting thread stands in [AddTask]: before each of its
    three locks, and after its return; [taskPtr] is its local variable.
    From [AddStorage] to its return the thread holds the worker-pool
    mutex in shared mode. *)
Inductive AddPC :=
| AddEntry
| AddStorage
| AddEnqueue (taskPtr : SlimTaskPtr)
| AddReturned (r : EmptyResult).

Definition AddTask_step (task : SlimTask) (pc : AddPC) : M AddPC :=
  match pc with
  | AddEntry =>
      (* lines 90-95 *)
      emit (EvLockShared TaskWorkersMutex) >>
      let* avail := AreThereAnyAvailableWorker in
      if negb avail then
        emit (EvUnlockShared TaskWorkersMutex) >>
        ret (AddReturned NoAvailableWorkers)
      else ret AddStorage
  | AddStorage =>
      (* lines 97-110 *)
      emit (EvLock FreeTaskPoolMutex) >>
      let* pool := gets m_FreeTaskPool in
      let* taskPtr :=
        match back pool with
        | None => AllocT
        | Some p => modify (set_FreeTaskPool (pop_back pool)) >> ret p
        end in
      emit (EvUnlock FreeTaskPoolMutex) >>
      construct taskPtr task >>
      ret (AddEnqueue taskPtr)
  | AddEnqueue taskPtr =>
      (* lines 112-117 *)
      emit (EvLock TaskQueueMutex) >>
      modify (λ s, set_TaskQueue (m_TaskQueue s ++ [taskPtr]) s) >>
      emit (EvUnlock TaskQueueMutex) >>
      emit EvNotifyOne >>
      emit (EvUnlockShared TaskWorkersMutex) >>
      ret (AddReturned CreateSuccess)
  | AddReturned r => ret (AddReturned r)
  end.

(** The machine, each step taken as soon as the one before is done. *)
Definition AddTask_steps (task : SlimTask) : M AddPC :=
  let* pc1 := AddTask_step task AddEntry in
  let* pc2 := AddTask_step task pc1 in
  AddTask_step task pc2.

Definition OnNewManager (newInterface : PInterface) : M unit :=
  emit (EvLockShared TaskWorkersMutex) >>
  match newInterface with
  | None => emit (EvUnlockShared TaskWorkersMutex)
  | Some iface =>
      if bool_decide (GetInterfaceUUID iface ≠ ThreadManagerUUID) then
        emit (EvUnlockShared TaskWorkersMutex)
      else
        modify (set_ThreadManager (InterfaceId iface)) >>
        Disconnect OnManagerActivationHandler >>
        Connect OnManagerActivationHandler (ActivationEvent (InterfaceId iface)) >>
        Disconnect OnNewManagerHandler >>
        emit (EvUnlockShared TaskWorkersMutex)
  end.

Definition OnManagerActivation (active : bool) (oldInterface newInterface : option IInterface)
  : M unit :=
  emit (EvLockShared TaskWorkersMutex) >>
  if active then emit (EvUnlockShared TaskWorkersMutex)
  else
    match newInterface with
    | Some newThreadMgr =>
        Disconnect OnManagerActivationHandler >>
        Connect OnManagerActivationHandler (ActivationEvent (InterfaceId newThreadMgr)) >>
        modify (set_ThreadManager (InterfaceId newThreadMgr)) >>
        emit (EvUnlockShared TaskWorkersMutex)
    | None =>
        Disconnect OnManagerActivationHandler >>
        match oldInterface with
        | None => abort "GetLibrary through a null interface"
        | Some old =>
            match GetLibrary old with
            | None => abort "Trying to connect to InterfaceActivationEvent but GreaperLibrary was expired."
            | Some lib =>
                match GetApplication lib with
                | None => abort "Trying to connect to InterfaceActivationEvent but Application was expired."
                | Some app =>
                    Disconnect OnNewManagerHandler >>
                    Connect OnNewManagerHandler (OnInterfaceActivationEvent app) >>
                    emit (EvUnlockShared TaskWorkersMutex)
                end
            end
        end
    end.

(** Lines 186-198, in program order; lines 190-197 are reached when
    [SetWorkerCount(0)] returns. *)
Definition Stop : M unit :=
  SetWorkerCount 0 >>
  let* queue := gets m_TaskQueue in
  for_each queue (λ task, invoke task >> Destroy task) >>
  modify (set_TaskQueue []) >>
  let* pool := gets m_FreeTaskPool in
  for_each pool Dealloc.

(** The constructor, run on the memory and managers of the process. *)
Definition construction (threadMgr : nat) (name : string) (workerCount : nat)
    (allowGrowth : bool) (h : gmap positive (option nat))
    (ms : gmap nat ThreadManager) : Outcome unit :=
  let init :=
    {| m_ThreadManager := threadMgr;
       m_OnManagerActivation := [];
       m_OnNewManager := [];
       m_Name := name;
       m_TaskWorkers := [];
       m_TaskQueue := [];
       m_FreeTaskPool := [];
       m_AllowGrowth := true;
       heap := h;
       managers := ms |} in
  (if bool_decide (ms !! threadMgr = None) then
     abort "Trying to initialize a SlimTaskScheduler, but an expired ThreadManager was given."
   else
     Connect OnManagerActivationHandler (ActivationEvent threadMgr) >>
     SetWorkerCount workerCount >>
     modify (set_AllowGrowth allowGrowth)) init.

Definition CanWorkerContinueWorking (workerID : nat) : M bool :=
  emit (EvLockShared TaskWorkersMutex) >>
  let* size := workers_size in
  let* r :=
    if bool_decide (workerID < size) then
      let* ws := workers_read in
      ret (bool_decide (mjoin (ws !! workerID) ≠ None))
    else ret false in
  emit (EvUnlockShared TaskWorkersMutex) >>
  ret r.

(** ** The worker loop as a step machine *)

(** Where a worker stands in [WorkerFn].  [canWork] and [task] are its
    local variables.  The queue mutex is held at [AtWaitCondition] and
    [AtStopCheck] and at no other point.  The lock of the queue mutex
    (line 240, and the one that ends the wait of line 246) and the call
    of [CanWorkerContinueWorking] that follows are one step;
    [WorkerFn_lock_step] below takes them apart. *)
Inductive WorkerPC :=
| AtLoopHead
| AtWaitCondition (canWork : bool)
| InWait
| AtStopCheck (canWork : bool)
| AtTaskWork (task : option SlimTaskPtr)
| Finished.

Definition WorkerFn_step (id : nat) (pc : WorkerPC) : M WorkerPC :=
  match pc with
  | AtLoopHead =>
      (* lines 240-241 *)
      emit (EvLock TaskQueueMutex) >>
      let* canWork := CanWorkerContinueWorking id in
      ret (AtWaitCondition canWork)
  | AtWaitCondition canWork =>
      (* line 244; line 246 releases the mutex and blocks *)
      let* queue := gets m_TaskQueue in
      if bool_decide (queue = []) && canWork then
        emit (EvUnlock TaskQueueMutex) >> emit EvWait >> ret InWait
      else ret (AtStopCheck canWork)
  | InWait =>
      (* a wake-up, whatever its cause: the mutex is taken again, line 247 *)
      emit (EvLock TaskQueueMutex) >>
      let* canWork := CanWorkerContinueWorking id in
      ret (AtWaitCondition canWork)
  | AtStopCheck canWork =>
      (* lines 251-260 *)
      if negb canWork then
        emit (EvUnlock TaskQueueMutex) >> ret Finished
      else
        let* queue := gets m_TaskQueue in
        match queue with
        | [] => emit (EvUnlock TaskQueueMutex) >> ret (AtTaskWork None)
        | task :: rest =>
            modify (set_TaskQueue rest) >>
            emit (EvUnlock TaskQueueMutex) >>
            ret (AtTaskWork (Some task))
        end
  | AtTaskWork None => ret AtLoopHead
  | AtTaskWork (Some task) =>
      (* lines 263-276 *)
      invoke task >>
      destruct_task task >>
      emit (EvLock FreeTaskPoolMutex) >>
      modify (λ s, set_FreeTaskPool (m_FreeTaskPool s ++ [task]) s) >>
      emit (EvUnlock FreeTaskPoolMutex) >>
      ret AtLoopHead
  | Finished => ret Finished
  end.

(** A worker among other threads: its own steps, and changes made to the
    scheduler by others in between. *)
Inductive Action :=
| WorkerStep
| Interfere (f : State → State).

Fixpoint WorkerFn_run (id : nat) (acts : list Action) (pc : WorkerPC) : M WorkerPC :=
  match acts with
  | [] => ret pc
  | WorkerStep :: acts' =>
      let* pc' := WorkerFn_step id pc in WorkerFn_run id acts' pc'
  | Interfere f :: acts' =>
      modify f >> WorkerFn_run id acts' pc
  end.

(** ** [WaitUntilAllTasksFinished] as a step machine *)

(** The two locks of the entry (lines 123 and 126) are one step;
    [WaitUntilAllTasksFinished_lock_step] below takes them apart. *)
Inductive WaitPC := WaitEntry | WaitCondition | WaitBlocked | WaitReturned.

Definition WaitUntilAllTasksFinished_step (pc : WaitPC) : M WaitPC :=
  match pc with
  | WaitEntry =>
      emit (EvLock TaskWorkersMutex) >>
      emit (EvLock TaskQueueMutex) >>
      ret WaitCondition
  | WaitCondition =>
      let* queue := gets m_TaskQueue in
      if bool_decide (queue = []) then
        emit (EvUnlock TaskQueueMutex) >>
        emit (EvUnlock TaskWorkersMutex) >>
        ret WaitReturned
      else
        emit (EvUnlock TaskQueueMutex) >> emit EvWait >> ret WaitBlocked
  | WaitBlocked => emit (EvLock TaskQueueMutex) >> ret WaitCondition
  | WaitReturned => ret WaitReturned
  end.

(** ** Delivery of notifications *)

(** Modelled from the spec: the event classes are declared outside this
    file.  A notification of a stream reaches a handler only while the
    handler is registered with that stream. *)
Inductive Notification :=
| ActivationNotice (iface : nat) (active : bool) (oldInterface newInterface : option IInterface)
| NewInterfaceNotice (app : nat) (newInterface : option IInterface).

Definition deliver (n : Notification) : M unit :=
  match n with
  | ActivationNotice iface active oldInterface newInterface =>
      let* regs := gets m_OnManagerActivation in
      if bool_decide (ActivationEvent iface ∈ regs)
      then OnManagerActivation active oldInterface newInterface
      else ret ()
  | NewInterfaceNotice app newInterface =>
      let* regs := gets m_OnNewManager in
      if bool_decide (OnInterfaceActivationEvent app ∈ regs)
      then OnNewManager newInterface
      else ret ()
  end.

(** ** A submitting thread and the workers, interleaved *)

(** One thread submits [pending] in order with [AddTask]; worker [i]
    stands at [pcs !! i]; no resize happens.  [log] collects the events
    of all threads in the order of the interleaving. *)
Record System := {
  sched : State;
  pcs : list WorkerPC;
  pending : list nat;
  accepted : list nat;
  log : list Event
}.

Inductive Actor := Submitter | Worker (id : nat).

(** A step of an actor that has nothing to do leaves the system as it
    is; an aborting step has no successor. *)
Definition system_step (a : Actor) (σ : System) : option System :=
  match a with
  | Submitter =>
      match pending σ with
      | [] => Some σ
      | task :: rest =>
          match AddTask task (sched σ) with
          | Abort _ => None
          | Done tr s' r =>
              Some {| sched := s'; pcs := pcs σ; pending := rest;
                      accepted := if HasFailed r then accepted σ else accepted σ ++ [task];
                      log := log σ ++ tr |}
          end
      end
  | Worker id =>
      match pcs σ !! id with
      | None => Some σ
      | Some pc =>
          match WorkerFn_step id pc (sched σ) with
          | Abort _ => None
          | Done tr s' pc' =>
              Some {| sched := s'; pcs := <[id := pc']> (pcs σ); pending := pending σ;
                      accepted := accepted σ; log := log σ ++ tr |}
          end
      end
  end.

Fixpoint system_run (schedule : list Actor) (σ : System) : option System :=
  match schedule with
  | [] => Some σ
  | a :: schedule' =>
      match system_step a σ with
      | None => None
      | Some σ' => system_run schedule' σ'
      end
  end.

Definition system_start (s : State) (tasks : list nat) : System :=
  {| sched := s; pcs := replicate (length (m_TaskWorkers s)) AtLoopHead;
     pending := tasks; accepted := []; log := [] |}.

End Scheduler.

Arguments Done {ThreadManager A} tr s a.
Arguments Abort {ThreadManager A} msg.

(** ** Well-formed task storage *)

(** The task constructed at [p], if any. *)
Definition task_at {TM} (s : @State TM) (p : positive) : option nat :=
  mjoin (heap s !! p).

(** The tasks waiting in the queue, head first. *)
Definition queued_tasks {TM} (s : @State TM) : list nat :=
  omap (task_at s) (m_TaskQueue s).

(** Queue and free pool own distinct storage; queued storage holds a task,
    pooled storage is raw. *)
Definition wf {TM} (s : @State TM) : Prop :=
  NoDup (m_TaskQueue s ++ m_FreeTaskPool s) ∧
  Forall (λ p, is_Some (task_at s p)) (m_TaskQueue s) ∧
  Forall (λ p, heap s !! p = Some None) (m_FreeTaskPool s).

(** The storage a worker is working on, and the task in it. *)
Definition held_slot (pc : WorkerPC) : list positive :=
  match pc with AtTaskWork (Some p) => [p] | _ => [] end.

Definition held_slots (pcs : list WorkerPC) : list positive :=
  concat (map held_slot pcs).

(** [s'] is [s] but for the worker pool and the state of the managers. *)
Definition resized {TM} (s s' : @State TM) : Prop :=
  s' = set_managers (managers s') (set_TaskWorkers (m_TaskWorkers s') s).

(** The state after a submission of [task] that used storage [p] and left
    [pool] free. *)
Definition submitted {TM} (task : nat) (p : positive) (pool : list positive)
    (s : @State TM) : @State TM :=
  set_TaskQueue (m_TaskQueue s ++ [p])
    (set_heap (<[p := Some task]> (heap s)) (set_FreeTaskPool pool s)).

(** Where a submission finds its storage: fresh from the allocator when the
    pool is empty, else at the back of the pool. *)
Definition storage_for {TM} (s : @State TM) (p : positive) (pool : list positive) : Prop :=
  (m_FreeTaskPool s = [] ∧ pool = [] ∧ heap s !! p = None) ∨
  (m_FreeTaskPool s = pool ++ [p]).

(** [s] with another provisioning binding: weak reference, registrations
    of the two handlers, and managers alive. *)
Definition with_binding {TM} (mgr : nat) (act new : list EventSource)
    (ms : gmap nat TM) (s : @State TM) : @State TM :=
  set_managers ms
    (set_ThreadManager mgr (set_OnManagerActivation act (set_OnNewManager new s))).

(** What [CanWorkerContinueWorking] answers and the events it leaves. *)
Definition is_present (ws : list (option nat)) (workerID : nat) : bool :=
  bool_decide (workerID < length ws) && bool_decide (mjoin (ws !! workerID) ≠ None).

Definition check_trace (ws : list (option nat)) (workerID : nat) : list Event :=
  EvLockShared TaskWorkersMutex :: EvWorkers Observe ::
  (if bool_decide (workerID < length ws) then [EvWorkers Observe] else []) ++
  [EvUnlockShared TaskWorkersMutex].

(** The tasks the workers are working on. *)
Definition held_tasks {TM} (s : @State TM) (pcs : list WorkerPC) : list nat :=
  omap (task_at s) (held_slots pcs).

(** Well-formed storage of a running system: queue, pool and workers own
    distinct storage; what is queued or being worked on holds a task. *)
Definition system_wf {TM} (σ : @System TM) : Prop :=
  NoDup (m_TaskQueue (sched σ) ++ m_FreeTaskPool (sched σ) ++ held_slots (pcs σ)) ∧
  Forall (λ p, is_Some (task_at (sched σ) p))
    (m_TaskQueue (sched σ) ++ held_slots (pcs σ)) ∧
  Forall (λ p, heap (sched σ) !! p = Some None) (m_FreeTaskPool (sched σ)).

(** No task is left to submit, to dequeue or to finish. *)
Definition quiescent {TM} (σ : @System TM) : Prop :=
  pending σ = [] ∧ m_TaskQueue (sched σ) = [] ∧ held_slots (pcs σ) = [].

(** How far a lone worker is from the next task it takes from the queue. *)
Definition distance (pc : WorkerPC) : nat :=
  match pc with
  | AtTaskWork _ => 4
  | AtLoopHead | InWait => 3
  | AtWaitCondition _ => 2
  | AtStopCheck _ => 1
  | Finished => 0
  end.

(** The worker's id is no longer in the pool: out of range, or its slot
    null. *)
Definition absent (ws : list (option nat)) (workerID : nat) : Prop :=
  length ws ≤ workerID ∨ ws !! workerID = Some None.

(** What the other threads did to the scheduler during a run. *)
Definition interference {TM} (acts : list (@Action TM)) (s : @State TM) : @State TM :=
  foldl (λ s a, match a with Interfere f => f s | WorkerStep => s end) s acts.

(** The points of the loop a worker can be at once a validation has found
    it absent. *)
Definition stopping (pc : WorkerPC) : Prop :=
  pc = AtWaitCondition false ∨ pc = AtStopCheck false ∨ pc = Finished.

(** The steps of [WorkerFn_step], one constructor for each. *)
Inductive worker_moves {TM} (id : nat) (s : @State TM)
  : WorkerPC → list Event → @State TM → WorkerPC → Prop :=
| moves_check pc :
    pc = AtLoopHead ∨ pc = InWait →
    worker_moves id s pc (EvLock TaskQueueMutex :: check_trace (m_TaskWorkers s) id) s
      (AtWaitCondition (is_present (m_TaskWorkers s) id))
| moves_wait :
    m_TaskQueue s = [] →
    worker_moves id s (AtWaitCondition true) [EvUnlock TaskQueueMutex; EvWait] s InWait
| moves_on canWork :
    m_TaskQueue s ≠ [] ∨ canWork = false →
    worker_moves id s (AtWaitCondition canWork) [] s (AtStopCheck canWork)
| moves_stop :
    worker_moves id s (AtStopCheck false) [EvUnlock TaskQueueMutex] s Finished
| moves_nothing :
    m_TaskQueue s = [] →
    worker_moves id s (AtStopCheck true) [EvUnlock TaskQueueMutex] s (AtTaskWork None)
| moves_retrieve task rest :
    m_TaskQueue s = task :: rest →
    worker_moves id s (AtStopCheck true) [EvUnlock TaskQueueMutex]
      (set_TaskQueue rest s) (AtTaskWork (Some task))
| moves_work task t :
    heap s !! task = Some (Some t) →
    worker_moves id s (AtTaskWork (Some task))
      [EvRun t; EvLock FreeTaskPoolMutex; EvUnlock FreeTaskPoolMutex]
      (set_FreeTaskPool (m_FreeTaskPool s ++ [task])
         (set_heap (<[task := None]> (heap s)) s))
      AtLoopHead
| moves_again :
    worker_moves id s (AtTaskWork None) [] s AtLoopHead
| moves_finished :
    worker_moves id s Finished [] s Finished.

(** Where the tasks of a system are: run already, being worked on, queued,
    accepted so far, still to be submitted. *)
Definition ledger {TM} (σ : @System TM)
  : list nat * list nat * list nat * list nat * list nat :=
  (executed (log σ), held_tasks (sched σ) (pcs σ), queued_tasks (sched σ),
   accepted σ, pending σ).

(** How a step moves tasks between these places. *)
Inductive moves
  : list nat * list nat * list nat * list nat * list nat →
    list nat * list nat * list nat * list nat * list nat → Prop :=
| move_none l : moves l l
| move_accept E H Q A t P : moves (E, H, Q, A, t :: P) (E, H, Q ++ [t], A ++ [t], P)
| move_reject E H Q A t P : moves (E, H, Q, A, t :: P) (E, H, Q, A, P)
| move_dequeue E H1 H2 t Q A P : moves (E, H1 ++ H2, t :: Q, A, P) (E, H1 ++ t :: H2, Q, A, P)
| move_run E H1 t H2 Q A P : moves (E, H1 ++ t :: H2, Q, A, P) (E ++ [t], H1 ++ H2, Q, A, P).

(** Conservation of tasks: what was run, is being worked on or waits in the
    queue is what was queued at the start, [base], and what has been
    accepted since; up to order, and in order. *)
Definition conserved {TM} (base : list nat) (σ : @System TM) : Prop :=
  executed (log σ) ++ held_tasks (sched σ) (pcs σ) ++ queued_tasks (sched σ)
  ≡ₚ base ++ accepted σ.

Definition in_order {TM} (base : list nat) (σ : @System TM) : Prop :=
  executed (log σ) ++ held_tasks (sched σ) (pcs σ) ++ queued_tasks (sched σ)
  = base ++ accepted σ.

(** ** Lock discipline of a trace *)

Fixpoint release (m : Mutex) (held : list Mutex) : list Mutex :=
  match held with
  | [] => []
  | m' :: held' => if decide (m = m') then held' else m' :: release m held'
  end.

(** The mutexes the thread holds after [e], having held [held] before. *)
Definition lock_event (held : list Mutex) (e : Event) : list Mutex :=
  match e with
  | EvLock m | EvLockShared m => m :: held
  | EvUnlock m | EvUnlockShared m => release m held
  | _ => held
  end.

Definition held_after (held : list Mutex) (tr : list Event) : list Mutex :=
  foldl lock_event held tr.

(** Every access to [m_TaskWorkers] happens with [m_TaskWorkersMutex] held. *)
Fixpoint pool_guarded (held : list Mutex) (tr : list Event) : bool :=
  match tr with
  | [] => true
  | e :: tr' =>
      match e with
      | EvWorkers _ => bool_decide (TaskWorkersMutex ∈ held)
      | _ => true
      end && pool_guarded (lock_event held e) tr'
  end.

(** [m_TaskWorkersMutex] is never acquired while [m_TaskQueueMutex] is
    held: where both are held, the worker-pool mutex came first. *)
Fixpoint workers_mutex_first (held : list Mutex) (tr : list Event) : bool :=
  match tr with
  | [] => true
  | e :: tr' =>
      match e with
      | EvLock TaskWorkersMutex | EvLockShared TaskWorkersMutex =>
          bool_decide (TaskQueueMutex ∉ held)
      | _ => true
      end && workers_mutex_first (lock_event held e) tr'
  end.

(** At some point of the trace both mutexes are held. *)
Fixpoint holds_both (held : list Mutex) (tr : list Event) : bool :=
  bool_decide (TaskWorkersMutex ∈ held ∧ TaskQueueMutex ∈ held) ||
  match tr with
  | [] => false
  | e :: tr' => holds_both (lock_event held e) tr'
  end.

(** No mutex is locked by a thread that holds it, none unlocked by a
    thread that does not. *)
Fixpoint lock_use_ok (held : list Mutex) (tr : list Event) : bool :=
  match tr with
  | [] => true
  | e :: tr' =>
      match e with
      | EvLock m | EvLockShared m => bool_decide (m ∉ held)
      | EvUnlock m | EvUnlockShared m => bool_decide (m ∈ held)
      | _ => true
      end && lock_use_ok (lock_event held e) tr'
  end.

Definition is_lock_op (e : Event) : bool :=
  match e with
  | EvLock _ | EvUnlock _ | EvLockShared _ | EvUnlockShared _ => true
  | _ => false
  end.

Definition is_pool_access (e : Event) : bool :=
  match e with EvWorkers _ => true | _ => false end.

(** The mutexes a worker holds at a point of [WorkerFn]. *)
Definition worker_holds (pc : WorkerPC) : list Mutex :=
  match pc with
  | AtWaitCondition _ | AtStopCheck _ => [TaskQueueMutex]
  | _ => []
  end.

Definition wait_holds (pc : WaitPC) : list Mutex :=
  match pc with
  | WaitCondition => [TaskQueueMutex; TaskWorkersMutex]
  | WaitBlocked => [TaskWorkersMutex]
  | _ => []
  end.

(** ** The resizing thread and the workers, interleaved *)

Inductive ThreadId := Resizer | WorkerThread (id : nat).

Global Instance ThreadId_eq_dec : EqDecision ThreadId.
Proof. solve_decision. Defined.
Global Instance WorkerPC_eq_dec : EqDecision WorkerPC.
Proof. solve_decision. Defined.

(** The mutexes a step locks. *)
Definition acquired (tr : list Event) : list Mutex :=
  omap (λ e, match e with EvLock m | EvLockShared m => Some m | _ => None end) tr.

Section Threads.

Context {ThreadManager : Type}.
Variable CreateThread : ThreadManager → ThreadConfig → TResult Thread * ThreadManager.

(** One thread is inside [SetWorkerCount]; worker [i], whose thread is
    the one kept in slot [i] of the pool, stands at [worker_pcs !! i].
    [resizer_holds] are the mutexes the resizing thread holds; those of a
    worker follow from where it stands.  [events] collects the events of
    all threads in the order of the interleaving. *)
Record Scene := {
  shared : @State ThreadManager;
  resizer : ResizePC;
  resizer_holds : list Mutex;
  worker_pcs : list WorkerPC;
  events : list Event
}.

Definition holds (σ : Scene) (t : ThreadId) : list Mutex :=
  match t with
  | Resizer => resizer_holds σ
  | WorkerThread i => default [] (worker_holds <$> worker_pcs σ !! i)
  end.

Definition threads (σ : Scene) : list ThreadId :=
  Resizer :: (WorkerThread <$> seq 0 (length (worker_pcs σ))).

(** A thread can take a step when no thread holds a mutex that the step
    locks: a mutex held by another thread has to be waited for, and one
    that the thread holds itself is never got, the mutexes not being
    recursive.  Between steps the worker-pool mutex is held in exclusive
    mode only, so that a shared lock has to wait for it as an exclusive
    one has. *)
Definition may_take (σ : Scene) (tr : list Event) : bool :=
  forallb (λ m, forallb (λ u, bool_decide (m ∉ holds σ u)) (threads σ)) (acquired tr).

(** [TryJoin] answers true once the function of the thread has returned;
    the thread asked is that of the slot being removed. *)
Definition has_returned (σ : Scene) : bool :=
  match resizer σ with
  | AtJoin _ sz => bool_decide (worker_pcs σ !! (sz - 1) = Some Finished)
  | _ => false
  end.

(** A thread that cannot take its step stays where it is; an aborting
    step has no successor. *)
Definition scene_step (count : nat) (t : ThreadId) (σ : Scene) : option Scene :=
  match t with
  | Resizer =>
      match SetWorkerCount_step CreateThread count (has_returned σ) (resizer σ) (shared σ) with
      | Abort _ => None
      | Done tr s' pc' =>
          if may_take σ tr then
            Some {| shared := s'; resizer := pc';
                    resizer_holds := held_after (resizer_holds σ) tr;
                    worker_pcs := worker_pcs σ; events := events σ ++ tr |}
          else Some σ
      end
  | WorkerThread id =>
      match worker_pcs σ !! id with
      | None => Some σ
      | Some pc =>
          match WorkerFn_step id pc (shared σ) with
          | Abort _ => None
          | Done tr s' pc' =>
              if may_take σ tr then
                Some {| shared := s'; resizer := resizer σ;
                        resizer_holds := resizer_holds σ;
                        worker_pcs := <[id := pc']> (worker_pcs σ);
                        events := events σ ++ tr |}
              else Some σ
          end
      end
  end.

Fixpoint scene_run (count : nat) (schedule : list ThreadId) (σ : Scene) : option Scene :=
  match schedule with
  | [] => Some σ
  | t :: schedule' =>
      match scene_step count t σ with
      | None => None
      | Some σ' => scene_run count schedule' σ'
      end
  end.

(** A thread calls [SetWorkerCount] while the workers stand at [ps]. *)
Definition scene_start (s : State) (ps : list WorkerPC) : Scene :=
  {| shared := s; resizer := AtEntry; resizer_holds := [];
     worker_pcs := ps; events := [] |}.

End Threads.

(** A pool of [k + 2] workers and a thread that asks for [count], at most
    [k], so that worker [k] is the second to be removed.  Before the
    resizing thread has run line 81 for the first time: it does not hold
    the queue mutex, worker [k] is in the pool and has not been told to
    stop. *)
Definition before_relock {TM} (k : nat) (σ : @Scene TM) : Prop :=
  ∃ a pc,
    (TaskQueueMutex ∉ resizer_holds σ) ∧
    worker_pcs σ !! k = Some pc ∧
    ¬ stopping pc ∧
    length (m_TaskWorkers (shared σ)) = S (S k) ∧
    m_TaskWorkers (shared σ) !! k = Some (Some a) ∧
    (resizer σ = AtEntry ∨ resizer σ = AtWhile ∨ resizer σ = AtMark ∨
     (∃ th, resizer σ = AtJoin th (S (S k))) ∨ resizer σ = AtRelock (S (S k))).

(** After: the resizing thread holds the queue mutex, no worker does, and
    worker [k] has not returned. *)
Definition after_relock {TM} (k : nat) (σ : @Scene TM) : Prop :=
  ∃ a pc,
    TaskQueueMutex ∈ resizer_holds σ ∧
    (∀ i pci, worker_pcs σ !! i = Some pci → TaskQueueMutex ∉ worker_holds pci) ∧
    worker_pcs σ !! k = Some pc ∧
    pc ≠ Finished ∧
    ((resizer σ = AtErase (S (S k)) ∧ length (m_TaskWorkers (shared σ)) = S (S k) ∧
      m_TaskWorkers (shared σ) !! k = Some (Some a)) ∨
     ((resizer σ = AtWhile ∨ resizer σ = AtMark) ∧
      length (m_TaskWorkers (shared σ)) = S k ∧
      m_TaskWorkers (shared σ) !! k = Some (Some a)) ∨
     (resizer σ = AtJoin (Some a) (S k) ∧ length (m_TaskWorkers (shared σ)) = S k)).

(** ** Subscriptions along a trace *)

(** The registrations of the two handlers: those of
    [m_OnManagerActivation] first, those of [m_OnNewManager] second. *)
Definition subscriptions {TM} (s : @State TM) : list EventSource * list EventSource :=
  (m_OnManagerActivation s, m_OnNewManager s).

Definition registrations (h : Handler) (subs : list EventSource * list EventSource)
  : list EventSource :=
  match h with
  | OnManagerActivationHandler => subs.1
  | OnNewManagerHandler => subs.2
  end.

Definition subscription_event (subs : list EventSource * list EventSource) (e : Event)
  : list EventSource * list EventSource :=
  match e with
  | EvConnect OnManagerActivationHandler src => (subs.1 ++ [src], subs.2)
  | EvConnect OnNewManagerHandler src => (subs.1, subs.2 ++ [src])
  | EvDisconnect OnManagerActivationHandler => ([], subs.2)
  | EvDisconnect OnNewManagerHandler => (subs.1, [])
  | _ => subs
  end.

Definition subscriptions_after (subs : list EventSource * list EventSource)
    (tr : list Event) : list EventSource * list EventSource :=
  foldl subscription_event subs tr.

(** At most one registration in all. *)
Definition at_most_one (subs : list EventSource * list EventSource) : bool :=
  bool_decide (length subs.1 + length subs.2 ≤ 1).

(** [at_most_one] before the trace and after each of its events. *)
Fixpoint always_at_most_one (subs : list EventSource * list EventSource)
    (tr : list Event) : bool :=
  at_most_one subs &&
  match tr with
  | [] => true
  | e :: tr' => always_at_most_one (subscription_event subs e) tr'
  end.

(** Every [Connect] directly follows a [Disconnect] of the same handler. *)
Fixpoint connect_follows_disconnect (prev : option Event) (tr : list Event) : bool :=
  match tr with
  | [] => true
  | e :: tr' =>
      match e with
      | EvConnect h _ =>
          match prev with
          | Some (EvDisconnect h') => bool_decide (h = h')
          | _ => false
          end
      | _ => true
      end && connect_follows_disconnect (Some e) tr'
  end.

(** Every [Connect] finds its handler without a registration. *)
Fixpoint connects_fresh (subs : list EventSource * list EventSource)
    (tr : list Event) : bool :=
  match tr with
  | [] => true
  | e :: tr' =>
      match e with
      | EvConnect h _ => bool_decide (registrations h subs = [])
      | _ => true
      end && connects_fresh (subscription_event subs e) tr'
  end.

(** ** More readings of a trace *)

(** The thread-creation requests of a trace, each with its answer. *)
Definition creations (tr : list Event) : list (ThreadConfig * TResult Thread) :=
  omap (λ e, match e with EvCreateThread cfg r => Some (cfg, r) | _ => None end) tr.

(** Lines 50-53: the configuration of the thread that is to run worker [i]
    of the scheduler called [name]. *)
Definition worker_config (name : string) (i : nat) : ThreadConfig :=
  {| Name := Format name i; ThreadFN := i |}.

(** The storage a trace takes from the allocator, in order. *)
Definition allocated (tr : list Event) : list SlimTaskPtr :=
  omap (λ e, match e with EvAlloc p => Some p | _ => None end) tr.

(** A call that locks no mutex it holds, unlocks none it does not hold,
    and has released every mutex by the time it returns. *)
Definition balanced (tr : list Event) : bool :=
  lock_use_ok [] tr && bool_decide (held_after [] tr = []).

(** ** A resize that removes workers, among the workers *)

(** The resizing thread holds the queue mutex and no worker does. *)
Definition queue_locked {TM} (σ : @Scene TM) : Prop :=
  TaskQueueMutex ∈ resizer_holds σ ∧
  ∀ i pc, worker_pcs σ !! i = Some pc → TaskQueueMutex ∉ worker_holds pc.

(** The workers of the slots of [ws0] from [n] on have returned. *)
Definition removed_done {TM} (ws0 : list PThread) (n : nat) (σ : @Scene TM) : Prop :=
  ∀ i th, n ≤ i → ws0 !! i = Some (Some th) → worker_pcs σ !! i = Some Finished.

(** Where a [SetWorkerCount count] that found the pool [ws0], larger than
    [count], can be, and what holds there. *)
Definition shrinking {TM} (count : nat) (ws0 : list PThread) (σ : @Scene TM) : Prop :=
  let ws := m_TaskWorkers (shared σ) in
  match resizer σ with
  | AtEntry => ws = ws0 ∧ count < length ws0
  | AtWhile =>
      ws = take (length ws) ws0 ∧ count ≤ length ws ∧ removed_done ws0 (length ws) σ ∧
      ((ws = ws0 ∧ count < length ws0) ∨ queue_locked σ)
  | AtMark =>
      ws = take (length ws) ws0 ∧ count < length ws ∧ removed_done ws0 (length ws) σ
  | AtJoin th sz =>
      sz = length ws ∧ count < sz ∧ take (sz - 1) ws = take (sz - 1) ws0 ∧
      th = mjoin (ws0 !! (sz - 1)) ∧ removed_done ws0 sz σ
  | AtRelock sz =>
      sz = length ws ∧ count < sz ∧ take (sz - 1) ws = take (sz - 1) ws0 ∧
      removed_done ws0 (sz - 1) σ
  | AtErase sz =>
      sz = length ws ∧ count < sz ∧ take (sz - 1) ws = take (sz - 1) ws0 ∧
      removed_done ws0 (sz - 1) σ ∧ queue_locked σ
  | Returned r =>
      r = CreateSuccess ∧ ws = take count ws0 ∧ removed_done ws0 count σ ∧ queue_locked σ
  end.

(** Where a [SetWorkerCount] that found [n] workers, two or more of them
    to remove, can be, and what the calling thread holds there: it has
    removed one worker at most, and has not returned. *)
Definition second_turn {TM} (n : nat) (σ : @Scene TM) : Prop :=
  let size := length (m_TaskWorkers (shared σ)) in
  match resizer σ with
  | AtEntry => size = n ∧ resizer_holds σ = []
  | AtWhile | AtMark =>
      (size = n ∧ resizer_holds σ = [TaskWorkersMutex]) ∨
      (size = n - 1 ∧ resizer_holds σ = [TaskQueueMutex])
  | AtJoin _ sz | AtRelock sz =>
      size = sz ∧
      ((sz = n ∧ resizer_holds σ = []) ∨ (sz = n - 1 ∧ resizer_holds σ = [TaskQueueMutex]))
  | AtErase sz => size = sz ∧ sz = n ∧ resizer_holds σ = [TaskQueueMutex]
  | Returned _ => False
  end.

(** ** A submission beside a resize and the workers *)

(** The mutexes the submitting thread holds at a point of [AddTask]: the
    worker-pool mutex, in shared mode. *)
Definition add_holds (pc : AddPC) : list Mutex :=
  match pc with
  | AddStorage | AddEnqueue _ => [TaskWorkersMutex]
  | _ => []
  end.

(** The mutexes a step locks in exclusive mode. *)
Definition acquired_alone (tr : list Event) : list Mutex :=
  omap (λ e, match e with EvLock m => Some m | _ => None end) tr.

Inductive YardThread := SubmitterThread | SceneThread (t : ThreadId).

Section Yard.

Context {ThreadManager : Type}.
Variable CreateThread : ThreadManager → ThreadConfig → TResult Thread * ThreadManager.

(** The threads of a scene and a thread in [AddTask]. *)
Record Yard := {
  scene : @Scene ThreadManager;
  submitter : AddPC
}.

(** The events of the step that thread [t] of the scene would take. *)
Definition next_events (count : nat) (t : ThreadId) (σ : @Scene ThreadManager) : list Event :=
  match t with
  | Resizer =>
      trace_of (SetWorkerCount_step CreateThread count (has_returned σ) (resizer σ) (shared σ))
  | WorkerThread id =>
      match worker_pcs σ !! id with
      | None => []
      | Some pc => trace_of (WorkerFn_step id pc (shared σ))
      end
  end.

(** The submitting thread takes its step when no thread of the scene
    holds a mutex that the step locks, nor the thread itself.  A thread of
    the scene takes its step as in the scene, unless the step locks in
    exclusive mode the worker-pool mutex that the submitting thread holds
    in shared mode; a shared lock of a worker goes with that of the
    submitting thread. *)
Definition yard_step (count : nat) (task : SlimTask) (t : YardThread) (y : Yard)
    : option Yard :=
  match t with
  | SubmitterThread =>
      match AddTask_step task (submitter y) (shared (scene y)) with
      | Abort _ => None
      | Done tr s' pc' =>
          if may_take (scene y) tr
             && forallb (λ m, bool_decide (m ∉ add_holds (submitter y))) (acquired tr)
          then Some {| scene := {| shared := s'; resizer := resizer (scene y);
                                   resizer_holds := resizer_holds (scene y);
                                   worker_pcs := worker_pcs (scene y);
                                   events := events (scene y) ++ tr |};
                       submitter := pc' |}
          else Some y
      end
  | SceneThread u =>
      if forallb (λ m, bool_decide (m ∉ add_holds (submitter y)))
           (acquired_alone (next_events count u (scene y)))
      then
        match scene_step CreateThread count u (scene y) with
        | None => None
        | Some σ' => Some {| scene := σ'; submitter := submitter y |}
        end
      else Some y
  end.

Fixpoint yard_run (count : nat) (task : SlimTask) (schedule : list YardThread) (y : Yard)
    : option Yard :=
  match schedule with
  | [] => Some y
  | t :: schedule' =>
      match yard_step count task t y with
      | None => None
      | Some y' => yard_run count task schedule' y'
      end
  end.

(** A thread calls [AddTask] beside the threads of [σ]. *)
Definition yard_start (σ : @Scene ThreadManager) : Yard :=
  {| scene := σ; submitter := AddEntry |}.

(** No call of [SetWorkerCount] is in progress and none has left a mutex
    locked; the workers stand at [ps]. *)
Definition scene_at_rest (s : @State ThreadManager) (ps : list WorkerPC) : Scene :=
  {| shared := s; resizer := Returned CreateSuccess; resizer_holds := [];
     worker_pcs := ps; events := [] |}.

End Yard.

Arguments Yard : clear implicits.

(** No thread of the scene holds a mutex. *)
Definition unlocked {TM} (σ : @Scene TM) : Prop :=
  resizer_holds σ = [] ∧ Forall (λ pc, worker_holds pc = []) (worker_pcs σ).

(** What the thread in a [SetWorkerCount] that found the pool [ws0], with
    workers to remove, holds at each point. *)
Definition resizer_keeps {TM} (ws0 : list PThread) (σ : @Scene TM) : Prop :=
  match resizer σ with
  | AtEntry => resizer_holds σ = []
  | AtWhile | AtMark =>
      (m_TaskWorkers (shared σ) = ws0 ∧ resizer_holds σ = [TaskWorkersMutex]) ∨
      resizer_holds σ = [TaskQueueMutex]
  | AtJoin _ _ | AtRelock _ => resizer_holds σ = [] ∨ resizer_holds σ = [TaskQueueMutex]
  | AtErase _ | Returned _ => resizer_holds σ = [TaskQueueMutex]
  end.

(** The submission beside a [SetWorkerCount] that has returned with the
    queue mutex: the pool is [ws], the queue [queue], and the submitting
    thread has not returned. *)
Definition wedged {TM} (ws : list PThread) (queue : list SlimTaskPtr) (y : Yard TM) : Prop :=
  (∃ r, resizer (scene y) = Returned r) ∧
  queue_locked (scene y) ∧
  m_TaskWorkers (shared (scene y)) = ws ∧
  m_TaskQueue (shared (scene y)) = queue ∧
  ∀ r, submitter y ≠ AddReturned r.

(** ** [WaitUntilAllTasksFinished] and the worker loop, one lock at a time *)

(** Where a thread stands in [WaitUntilAllTasksFinished]: before each of
    its two locks (lines 123 and 126), at the test of line 127 with both
    mutexes held, inside the wait of line 128, and after its return. *)
Inductive WaitPoint :=
| AtPoolLock
| AtQueueLock
| AtQueueTest
| InSignalWait
| WaitOver.

Global Instance WaitPoint_eq_dec : EqDecision WaitPoint.
Proof. solve_decision. Defined.

(** A point of [WorkerFn_step], or the call of
    [CanWorkerContinueWorking] of line 241 or 247, the queue mutex being
    held already. *)
Inductive WorkerPoint :=
| At (pc : WorkerPC)
| AtValidation.

Global Instance WorkerPoint_eq_dec : EqDecision WorkerPoint.
Proof. solve_decision. Defined.

Definition wait_point_holds (p : WaitPoint) : list Mutex :=
  match p with
  | AtQueueLock | InSignalWait => [TaskWorkersMutex]
  | AtQueueTest => [TaskQueueMutex; TaskWorkersMutex]
  | _ => []
  end.

Definition worker_point_holds (p : WorkerPoint) : list Mutex :=
  match p with
  | At pc => worker_holds pc
  | AtValidation => [TaskQueueMutex]
  end.

Inductive DrainThread := Waiter | DrainWorker (id : nat).

(** No mutex that the step locks is held by a thread, the holdings of
    the threads being [holdings]. *)
Definition free_for (holdings : list (list Mutex)) (tr : list Event) : bool :=
  forallb (λ m, forallb (λ held, bool_decide (m ∉ held)) holdings) (acquired tr).

Section Draining.

Context {ThreadManager : Type}.

(** Lines 123-128, a step for every lock. *)
Definition WaitUntilAllTasksFinished_lock_step (p : WaitPoint) : @M ThreadManager WaitPoint :=
  match p with
  | AtPoolLock => bind (emit (EvLock TaskWorkersMutex)) (λ _, ret AtQueueLock)
  | AtQueueLock => bind (emit (EvLock TaskQueueMutex)) (λ _, ret AtQueueTest)
  | AtQueueTest =>
      bind (gets m_TaskQueue) (λ queue,
        if bool_decide (queue = []) then
          bind (emit (EvUnlock TaskQueueMutex)) (λ _,
          bind (emit (EvUnlock TaskWorkersMutex)) (λ _, ret WaitOver))
        else
          bind (emit (EvUnlock TaskQueueMutex)) (λ _,
          bind (emit EvWait) (λ _, ret InSignalWait)))
  | InSignalWait => bind (emit (EvLock TaskQueueMutex)) (λ _, ret AtQueueTest)
  | WaitOver => ret WaitOver
  end.

(** [WorkerFn], the lock of the queue mutex (line 240, and the one that
    ends the wait of line 246) apart from the call of
    [CanWorkerContinueWorking] that follows it. *)
Definition WorkerFn_lock_step (id : nat) (p : WorkerPoint) : @M ThreadManager WorkerPoint :=
  match p with
  | At AtLoopHead | At InWait =>
      bind (emit (EvLock TaskQueueMutex)) (λ _, ret AtValidation)
  | AtValidation =>
      bind (CanWorkerContinueWorking id) (λ canWork, ret (At (AtWaitCondition canWork)))
  | At pc => bind (WorkerFn_step id pc) (λ pc', ret (At pc'))
  end.

(** One thread is inside [WaitUntilAllTasksFinished], at [waiter]; worker
    [i] stands at [drain_pcs !! i]; nothing is submitted and no resize
    happens.  What a thread holds follows from where it stands.  The
    worker-pool mutex is held between steps by the waiting thread only,
    in exclusive mode, so that the shared lock of a worker has to wait
    for it. *)
Record Drain := {
  drained : @State ThreadManager;
  waiter : WaitPoint;
  drain_pcs : list WorkerPoint;
  drain_log : list Event
}.

Definition drain_holdings (σ : Drain) : list (list Mutex) :=
  wait_point_holds (waiter σ) :: (worker_point_holds <$> drain_pcs σ).

(** A thread takes its step when no thread holds a mutex that the step
    locks, and stays where it is otherwise; an aborting step has no
    successor. *)
Definition drain_step (t : DrainThread) (σ : Drain) : option Drain :=
  match t with
  | Waiter =>
      match WaitUntilAllTasksFinished_lock_step (waiter σ) (drained σ) with
      | Abort _ => None
      | Done tr s' p' =>
          if free_for (drain_holdings σ) tr then
            Some {| drained := s'; waiter := p'; drain_pcs := drain_pcs σ;
                    drain_log := drain_log σ ++ tr |}
          else Some σ
      end
  | DrainWorker id =>
      match drain_pcs σ !! id with
      | None => Some σ
      | Some p =>
          match WorkerFn_lock_step id p (drained σ) with
          | Abort _ => None
          | Done tr s' p' =>
              if free_for (drain_holdings σ) tr then
                Some {| drained := s'; waiter := waiter σ;
                        drain_pcs := <[id := p']> (drain_pcs σ);
                        drain_log := drain_log σ ++ tr |}
              else Some σ
          end
      end
  end.

Fixpoint drain_run (schedule : list DrainThread) (σ : Drain) : option Drain :=
  match schedule with
  | [] => Some σ
  | t :: schedule' =>
      match drain_step t σ with
      | None => None
      | Some σ' => drain_run schedule' σ'
      end
  end.

(** A thread calls [WaitUntilAllTasksFinished] while the workers stand at
    [ps]. *)
Definition drain_start (s : State) (ps : list WorkerPoint) : Drain :=
  {| drained := s; waiter := AtPoolLock; drain_pcs := ps; drain_log := [] |}.

End Draining.

Arguments Drain : clear implicits.

(** A worker that has passed [CanWorkerContinueWorking] and still holds
    the queue mutex: it can take a task without asking again. *)
Definition validated (p : WorkerPoint) : Prop :=
  ∃ canWork, p = At (AtWaitCondition canWork) ∨ p = At (AtStopCheck canWork).

(** What holds of the workers while a thread is in
    [WaitUntilAllTasksFinished]: at the test of line 127 none holds the
    queue mutex; during the wait none is validated; after the return the
    queue is empty. *)
Definition draining {TM} (σ : Drain TM) : Prop :=
  match waiter σ with
  | AtQueueTest =>
      ∀ i p, drain_pcs σ !! i = Some p → TaskQueueMutex ∉ worker_point_holds p
  | InSignalWait => ∀ i p, drain_pcs σ !! i = Some p → ¬ validated p
  | WaitOver => m_TaskQueue (drained σ) = []
  | _ => True
  end.

(** ** Ownership of task storage *)

(** Every allocated storage is in the queue, in the pool or in the hands
    of a worker. *)
Definition owned {TM} (σ : @System TM) : Prop :=
  dom (heap (sched σ))
  = list_to_set (m_TaskQueue (sched σ) ++ m_FreeTaskPool (sched σ) ++ held_slots (pcs σ)).

(** What has happened to the storage that existed at the start, [D0],
    and to the storage allocated since. *)
Definition accounted {TM} (D0 : gset positive) (σ : @System TM) : Prop :=
  owned σ ∧
  dom (heap (sched σ)) = D0 ∪ list_to_set (allocated (log σ)) ∧
  NoDup (allocated (log σ)) ∧
  (∀ p, p ∈ allocated (log σ) → p ∉ D0) ∧
  freed (log σ) = [].

(** ** Teardown *)

(** Lines 190-197: what [Stop] does once its [SetWorkerCount] has
    returned. *)
Definition Stop_tail {TM} : @M TM unit :=
  bind (gets m_TaskQueue) (λ queue,
  bind (for_each queue (λ task, bind (invoke task) (λ _, Destroy task))) (λ _,
  bind (modify (set_TaskQueue [])) (λ _,
  bind (gets m_FreeTaskPool) (λ pool,
  for_each pool Dealloc)))).

(** The workers of a scene, as a system in which nothing is submitted. *)
Definition workers_alone {TM} (σ : @Scene TM) : @System TM :=
  {| sched := shared σ; pcs := worker_pcs σ; pending := []; accepted := [];
     log := events σ |}.

(** How far a worker whose slot is null is from the end of [WorkerFn]. *)
Definition leaving (pc : WorkerPC) : nat :=
  match pc with
  | AtWaitCondition true => 6
  | AtStopCheck true => 5
  | AtTaskWork _ => 4
  | AtLoopHead | InWait => 3
  | AtWaitCondition false => 2
  | AtStopCheck false => 1
  | Finished => 0
  end.

(** ** A concrete process, for examples *)

Module Demo.

(** A thread manager that has created [created] threads and creates at
    most [limit]. *)
Definition CreateThread (limit : nat) (created : nat) (cfg : ThreadConfig)
  : TResult nat * nat :=
  if bool_decide (created < limit)
  then (Success (200 + created), S created)
  else (Failure "The ThreadManager could not create the thread.", created).

Definition join_attempts (th : nat) : nat := 1.

Definition ThreadManagerUUID : nat := 7.

(** A scheduler bound to manager 1, with the given workers, queue, pool
    and memory. *)
Definition scheduler (ws : list (option nat)) (queue pool : list positive)
    (allow : bool) (h : gmap positive (option nat)) : @State nat :=
  {| m_ThreadManager := 1;
     m_OnManagerActivation := [ActivationEvent 1];
     m_OnNewManager := [];
     m_Name := "pool";
     m_TaskWorkers := ws;
     m_TaskQueue := queue;
     m_FreeTaskPool := pool;
     m_AllowGrowth := allow;
     heap := h;
     managers := {[ 1 := 0 ]} |}.

Definition manager (id : nat) : IInterface :=
  {| InterfaceId := id;
     GetInterfaceUUID := ThreadManagerUUID;
     GetLibrary := Some {| GetApplication := Some 50 |} |}.

(** One worker, nothing queued, growth allowed or not. *)
Definition idle (allow : bool) : @State nat :=
  scheduler [Some 100] [] [] allow ∅.

(** One worker; tasks 7 and 8 queued in storage 5 and 6; storage 9 in
    the pool. *)
Definition busy : @State nat :=
  scheduler [Some 100] [5; 6]%positive [9%positive] true
    (<[5%positive := Some 7]> (<[6%positive := Some 8]> (<[9%positive := None]> ∅))).

(** Unbound: the manager is gone and the scheduler is registered with
    host 50. *)
Definition unbound : @State nat :=
  {| m_ThreadManager := 1;
     m_OnManagerActivation := [];
     m_OnNewManager := [OnInterfaceActivationEvent 50];
     m_Name := "pool";
     m_TaskWorkers := [Some 100];
     m_TaskQueue := [];
     m_FreeTaskPool := [];
     m_AllowGrowth := true;
     heap := ∅;
     managers := ∅ |}.

(** Line 67 of [SetWorkerCount], run by another thread: the last slot is
    marked absent. *)
Definition mark_last_absent (s : @State nat) : @State nat :=
  state_of s (workers_write (λ ws, <[length ws - 1 := None]> ws) s).

(** Two workers; task 7 queued in storage 5. *)
Definition pair : @State nat :=
  scheduler [Some 100; Some 101] [5%positive] [] true (<[5%positive := Some 7]> ∅).

(** The resizing thread marks and joins worker 1, which stops, and runs
    line 81. *)
Definition stop_schedule : list ThreadId :=
  [Resizer; Resizer; Resizer; Resizer; WorkerThread 1; WorkerThread 1; WorkerThread 1;
   Resizer; Resizer].

End Demo.

(** * Properties *)

(** Evaluation of the monad on a symbolic state. *)
Ltac run_step :=
  unfold bind, emit, gets, modify, ret, abort,
    workers_size, workers_read, workers_write; cbn.

(** ** Single calls, the worker loop, a submitting thread and a worker *)

Section Steps.

Context {ThreadManager : Type}.
Implicit Types (s : @State ThreadManager) (ws : list (option nat)).
Implicit Types (σ : @System ThreadManager).

Lemma set_TaskWorkers_id s : set_TaskWorkers (m_TaskWorkers s) s = s.
Proof. by destruct s. Qed.

Lemma set_TaskQueue_id s : set_TaskQueue (m_TaskQueue s) s = s.
Proof. by destruct s. Qed.

Lemma bind_assoc {A B C} (m : M A) (f : A → M B) (g : B → M C) s :
  bind (bind m f) g s = bind m (λ x, bind (f x) g) s.
Proof.
  unfold bind. destruct (m s) as [tr s1 a|]; [|done].
  destruct (f a s1) as [tr1 s2 b|]; [|done].
  destruct (g b s2) as [tr2 s3 c|]; [|done].
  by rewrite app_assoc.
Qed.

Lemma bind_ext {A B} (m : M A) (f g : A → M B) s :
  (∀ a s1, f a s1 = g a s1) → bind m f s = bind m g s.
Proof. intros H. unfold bind. destruct (m s); [|done]. by rewrite H. Qed.

Lemma erase_marked_last {A} (l : list A) (x : A) :
  l ≠ [] →
  delete (length l - 1) (<[length l - 1 := x]> l) = take (length l - 1) l.
Proof.
  destruct l as [|a l _] using rev_ind; [done|intros _].
  rewrite length_app; cbn.
  replace (length l + 1 - 1) with (length l + 0) by lia.
  rewrite insert_app_r; cbn.
  rewrite Nat.add_0_r, (delete_middle l []), app_nil_r.
  by rewrite take_app_length.
Qed.

Lemma omap_ext_in {A B} (f g : A → option B) (l : list A) :
  (∀ x, x ∈ l → f x = g x) → omap f l = omap g l.
Proof.
  induction l as [|a l IH]; intros H; [done|]. cbn.
  rewrite (H a) by set_solver. rewrite IH; [done|].
  intros x Hx. apply H. set_solver.
Qed.

Lemma omap_length_le {A B} (f : A → option B) (l : list A) :
  length (omap f l) ≤ length l.
Proof.
  induction l as [|a l IH]; [done|]. cbn. destruct (f a); cbn; lia.
Qed.

Lemma any_worker_absent ws :
  any_worker ws = false ↔ Forall (λ w, w = None) ws.
Proof.
  induction ws as [|[th|] ws IH]; cbn.
  - split; [constructor|done].
  - split; [done|]. by inversion 1.
  - rewrite IH. split; [by constructor|by inversion 1].
Qed.

Lemma any_worker_present ws :
  any_worker ws = true ↔ ∃ i th, ws !! i = Some (Some th).
Proof.
  induction ws as [|[th|] ws IH]; cbn.
  - split; [done|]. by intros (i & th & ?).
  - split; [|done]. intros _. by exists 0, th.
  - rewrite IH. split.
    + intros (i & th & ?). by exists (S i), th.
    + intros ([|i] & th & ?); [done|]. by exists i, th.
Qed.

Lemma repeat_m_events n (tr : list Event) s :
  repeat_m n (λ s, Done tr s ()) s = Done (concat (replicate n tr)) s ().
Proof.
  induction n as [|n IH]; [done|].
  cbn. unfold bind. by rewrite IH.
Qed.

Lemma executed_app tr1 tr2 : executed (tr1 ++ tr2) = executed tr1 ++ executed tr2.
Proof. apply omap_app. Qed.

Lemma creation_results_app tr1 tr2 :
  creation_results (tr1 ++ tr2) = creation_results tr1 ++ creation_results tr2.
Proof. apply omap_app. Qed.

Lemma created_threads_app tr1 tr2 :
  created_threads (tr1 ++ tr2) = created_threads tr1 ++ created_threads tr2.
Proof. apply omap_app. Qed.

Lemma resized_refl s : resized s s.
Proof. unfold resized. by destruct s. Qed.

(** A resize keeps queue, pool and storage as they are. *)
Lemma wf_resized s s' : resized s s' → wf s → wf s'.
Proof. unfold resized, wf, task_at. intros ->. by destruct s. Qed.

Lemma failed_request_in_results tr cfg msg :
  EvCreateThread cfg (Failure msg) ∈ tr → Failure msg ∈ creation_results tr.
Proof.
  intros H. unfold creation_results. apply list_elem_of_omap.
  by exists (EvCreateThread cfg (Failure msg)).
Qed.

Lemma all_succeeded_no_failure (rs : list (TResult nat)) msg :
  Forall (λ c, HasFailed c = false) rs → Failure msg ∉ rs.
Proof.
  intros Hall Hin. rewrite Forall_forall in Hall. by apply Hall in Hin.
Qed.

Lemma back_snoc {A} (l : list A) x : back (l ++ [x]) = Some x.
Proof. apply last_snoc. Qed.

Lemma pop_back_snoc {A} (l : list A) x : pop_back (l ++ [x]) = l.
Proof. apply removelast_last. Qed.

Lemma AreThereAnyAvailableWorker_spec s :
  ∃ tr, AreThereAnyAvailableWorker s = Done tr s (any_worker (m_TaskWorkers s)) ∧
        Forall (λ e, e = EvWorkers Observe) tr.
Proof.
  unfold AreThereAnyAvailableWorker. run_step.
  destruct (m_TaskWorkers s) as [|w ws] eqn:E; cbn.
  - exists [EvWorkers Observe]. split; [done|by repeat constructor].
  - exists [EvWorkers Observe; EvWorkers Observe]. rewrite E.
    split; [done|by repeat constructor].
Qed.

Lemma AddTask_rejected task s :
  any_worker (m_TaskWorkers s) = false →
  ∃ tr0, AddTask task s
         = Done (EvLockShared TaskWorkersMutex :: tr0 ++ [EvUnlockShared TaskWorkersMutex])
             s NoAvailableWorkers ∧
         Forall (λ e, e = EvWorkers Observe) tr0.
Proof.
  intros Hno. unfold AddTask.
  destruct (AreThereAnyAvailableWorker_spec s) as (tr0 & Ha & Hobs).
  exists tr0. split; [|done].
  unfold bind at 1. unfold emit at 1. unfold bind at 1.
  by rewrite Ha, Hno.
Qed.

Lemma AddTask_accepted task s :
  any_worker (m_TaskWorkers s) = true →
  wf s →
  ∃ tr0 p pool evs,
    AddTask task s
    = Done (EvLockShared TaskWorkersMutex :: tr0 ++ [EvLock FreeTaskPoolMutex] ++ evs ++
            [EvUnlock FreeTaskPoolMutex; EvLock TaskQueueMutex; EvUnlock TaskQueueMutex;
             EvNotifyOne; EvUnlockShared TaskWorkersMutex])
        (submitted task p pool s) CreateSuccess ∧
    Forall (λ e, e = EvWorkers Observe) tr0 ∧
    (evs = [EvAlloc p] ∨ evs = []) ∧
    storage_for s p pool.
Proof.
  intros Hany (Hnd & Hq & Hp). unfold AddTask.
  destruct (AreThereAnyAvailableWorker_spec s) as (tr0 & Ha & Hobs).
  unfold bind at 1. unfold emit at 1. unfold bind at 1.
  rewrite Ha, Hany. cbn [negb].
  destruct (m_FreeTaskPool s) as [|x pool _] eqn:Epool using rev_ind.
  - exists tr0, (fresh (dom (heap s))), [], [EvAlloc (fresh (dom (heap s)))].
    unfold AllocT, construct. run_step. rewrite Epool. cbn.
    rewrite lookup_insert_eq. cbn.
    rewrite insert_insert_eq.
    split_and!; [|done|by left|].
    + unfold submitted. rewrite <-Epool. by destruct s.
    + left. split_and!; [done..|].
      apply not_elem_of_dom, is_fresh.
  - exists tr0, x, pool, [].
    unfold construct. run_step. rewrite Epool, back_snoc, pop_back_snoc. cbn.
    rewrite Forall_app, Forall_singleton in Hp. destruct Hp as [_ Hx].
    rewrite Hx. cbn.
    split_and!; [done|done|by right|by right].
Qed.

(** Whenever [AddTask] returns with a worker present, it has accepted the
    task. *)
Lemma AddTask_returned task s tr s' r :
  any_worker (m_TaskWorkers s) = true →
  AddTask task s = Done tr s' r →
  r = CreateSuccess ∧
  ∃ p, m_TaskQueue s' = m_TaskQueue s ++ [p] ∧ task_at s' p = Some task.
Proof.
  intros Hany. unfold AddTask.
  destruct (AreThereAnyAvailableWorker_spec s) as (tr0 & Ha & Hobs).
  unfold bind at 1. unfold emit at 1. unfold bind at 1.
  rewrite Ha, Hany. cbn [negb].
  destruct (m_FreeTaskPool s) as [|x pool _] eqn:Epool using rev_ind.
  - unfold AllocT, construct. run_step. rewrite Epool. cbn.
    rewrite lookup_insert_eq. cbn. intros [= <- <- <-].
    split; [done|]. eexists. split; [done|].
    unfold task_at. cbn. by rewrite lookup_insert_eq.
  - unfold construct. run_step. rewrite Epool, back_snoc, pop_back_snoc. cbn.
    destruct (heap s !! x) eqn:Hx; cbn; [|done]. intros [= <- <- <-].
    split; [done|]. exists x. split; [done|].
    unfold task_at. cbn. by rewrite lookup_insert_eq.
Qed.
Lemma task_at_submitted task p pool s q :
  task_at (submitted task p pool s) q
  = if decide (p = q) then Some task else task_at s q.
Proof.
  unfold task_at, submitted. cbn. rewrite lookup_insert.
  by case_decide.
Qed.

Lemma wf_submitted task p pool s :
  wf s → storage_for s p pool →
  wf (submitted task p pool s) ∧
  queued_tasks (submitted task p pool s) = queued_tasks s ++ [task].
Proof.
  intros (Hnd & Hq & Hp) Hst.
  assert ((p ∉ m_TaskQueue s) ∧ (p ∉ pool) ∧ NoDup (m_TaskQueue s ++ pool) ∧
          Forall (λ q, heap s !! q = Some None) pool) as (Hpq & Hpp & Hnd' & Hp').
  { destruct Hst as [(E & -> & Hfresh)|E].
    - rewrite E in Hnd, Hp. split_and!; [|set_solver|done|done].
      intros Hin. rewrite Forall_forall in Hq. apply Hq in Hin.
      unfold task_at in Hin. rewrite Hfresh in Hin. by destruct Hin.
    - rewrite E in Hnd, Hp. rewrite app_assoc in Hnd.
      apply NoDup_app in Hnd as (Hnd' & Hdis & _).
      rewrite Forall_app in Hp. destruct Hp as [Hp' _].
      split_and!; [| |done|done].
      + intros Hin. apply (Hdis p); set_solver.
      + intros Hin. apply (Hdis p); set_solver. }
  split.
  - split_and!.
    + cbn. rewrite <-app_assoc. cbn.
      apply NoDup_app in Hnd' as (Hn1 & Hdis & Hn2).
      apply NoDup_app. split_and!; [done| |].
      * intros x Hx Hin. apply elem_of_cons in Hin as [->|Hin]; [done|].
        by apply (Hdis x).
      * by constructor.
    + cbn. rewrite Forall_app, Forall_singleton. split.
      * rewrite Forall_forall in Hq |- *. intros q Hin.
        rewrite task_at_submitted. case_decide; [done|by apply Hq].
      * rewrite task_at_submitted. by rewrite decide_True.
    + cbn. rewrite Forall_forall in Hp' |- *. intros q Hin.
      rewrite lookup_insert_ne; [by apply Hp'|]. by intros ->.
  - unfold queued_tasks. cbn [submitted m_TaskQueue set_TaskQueue].
    rewrite omap_app. f_equal.
    + apply omap_ext_in. intros q Hin.
      rewrite task_at_submitted. case_decide; [by subst|done].
    + cbn. by rewrite task_at_submitted, decide_True.
Qed.

Lemma invoke_Destroy p t s :
  heap s !! p = Some (Some t) →
  bind (invoke p) (λ _, Destroy p) s
  = Done [EvRun t; EvDealloc p] (set_heap (delete p (heap s)) s) ().
Proof.
  intros H. unfold invoke, Destroy, Dealloc. run_step. rewrite H. cbn.
  by rewrite H.
Qed.

Lemma Dealloc_allocated p v s :
  heap s !! p = Some v →
  Dealloc p s = Done [EvDealloc p] (set_heap (delete p (heap s)) s) ().
Proof. intros H. unfold Dealloc. run_step. by rewrite H. Qed.

(** The drain loop of lines 190-194 runs the queued tasks head first and
    frees their storage. *)
Lemma drain_spec queue s :
  NoDup queue →
  Forall (λ p, is_Some (task_at s p)) queue →
  ∃ tr h',
    for_each queue (λ task, bind (invoke task) (λ _, Destroy task)) s
    = Done tr (set_heap h' s) () ∧
    executed tr = omap (task_at s) queue ∧
    freed tr = queue ∧
    (∀ x, h' !! x = if decide (x ∈ queue) then None else heap s !! x).
Proof.
  revert s. induction queue as [|p queue IH]; intros s Hnd Hall.
  - exists [], (heap s). cbn. split_and!; [by destruct s|done|done|].
    intros x. by rewrite decide_False by set_solver.
  - apply NoDup_cons in Hnd as [Hp Hnd].
    apply Forall_cons in Hall as [[t Ht] Hall].
    unfold task_at in Ht.
    destruct (heap s !! p) as [[t'|]|] eqn:Hh; cbn in Ht; simplify_eq.
    cbn [for_each]. unfold bind at 1. rewrite (invoke_Destroy p t) by done.
    destruct (IH (set_heap (delete p (heap s)) s)) as (tr & h' & Heq & Hex & Hfr & Hh'); [done| |].
    { rewrite Forall_forall in Hall |- *. intros q Hq.
      unfold task_at. cbn. rewrite lookup_delete_ne; [by apply Hall|].
      by intros ->. }
    rewrite Heq. cbn. exists (EvRun t :: EvDealloc p :: tr), h'.
    split_and!; [done| | |].
    2: { change (freed (EvRun t :: EvDealloc p :: tr)) with (p :: freed tr).
         by rewrite Hfr. }
    + assert (task_at s p = Some t) as Htp by (unfold task_at; by rewrite Hh).
      change (executed (EvRun t :: EvDealloc p :: tr)) with (t :: executed tr).
      rewrite Hex. cbn. rewrite Htp. f_equal.
      apply omap_ext_in. intros q Hq. unfold task_at. cbn.
      rewrite lookup_delete_ne; [done|]. by intros ->.
    + intros x. rewrite Hh'. cbn.
      destruct (decide (x = p)) as [->|Hne].
      * rewrite decide_False by done. rewrite decide_True by set_solver.
        apply lookup_delete_eq.
      * rewrite lookup_delete_ne by done.
        destruct (decide (x ∈ queue)).
        -- by rewrite decide_True by set_solver.
        -- by rewrite decide_False by set_solver.
Qed.

(** The loop of lines 196-197 gives the pooled storage back. *)
Lemma release_spec pool s :
  NoDup pool →
  Forall (λ p, is_Some (heap s !! p)) pool →
  ∃ tr h',
    for_each pool Dealloc s = Done tr (set_heap h' s) () ∧
    tr = EvDealloc <$> pool ∧
    (∀ x, h' !! x = if decide (x ∈ pool) then None else heap s !! x).
Proof.
  revert s. induction pool as [|p pool IH]; intros s Hnd Hall.
  - exists [], (heap s). cbn. split_and!; [by destruct s|done|].
    intros x. by rewrite decide_False by set_solver.
  - apply NoDup_cons in Hnd as [Hp Hnd].
    apply Forall_cons in Hall as [[v Hv] Hall].
    cbn [for_each]. unfold bind at 1. rewrite (Dealloc_allocated p v) by done.
    destruct (IH (set_heap (delete p (heap s)) s)) as (tr & h' & Heq & -> & Hh'); [done| |].
    { rewrite Forall_forall in Hall |- *. intros q Hq. cbn.
      rewrite lookup_delete_ne; [by apply Hall|]. by intros ->. }
    rewrite Heq. cbn. eexists _, h'. split_and!; [done|done|].
    intros x. rewrite Hh'. cbn.
    destruct (decide (x = p)) as [->|Hne].
    * rewrite decide_False by done. rewrite decide_True by set_solver.
      apply lookup_delete_eq.
    * rewrite lookup_delete_ne by done.
      destruct (decide (x ∈ pool)).
      -- by rewrite decide_True by set_solver.
      -- by rewrite decide_False by set_solver.
Qed.

Lemma freed_Dealloc pool : freed (EvDealloc <$> pool) = pool.
Proof. induction pool as [|p pool IH]; [done|]. cbn. f_equal. exact IH. Qed.

Lemma executed_Dealloc pool : executed (EvDealloc <$> pool) = [].
Proof. by induction pool. Qed.

Lemma CanWorkerContinueWorking_spec id s :
  CanWorkerContinueWorking id s
  = Done (check_trace (m_TaskWorkers s) id) s (is_present (m_TaskWorkers s) id).
Proof.
  unfold CanWorkerContinueWorking, check_trace, is_present. run_step.
  by case_bool_decide.
Qed.

Lemma is_present_true ws id :
  is_present ws id = true ↔ ∃ th, ws !! id = Some (Some th).
Proof.
  unfold is_present. rewrite andb_true_iff, !bool_decide_eq_true. split.
  - intros [Hlt Hne]. destruct (ws !! id) as [[th|]|]; cbn in Hne; [eauto|done..].
  - intros [th Hth]. split; [by eapply lookup_lt_Some|]. by rewrite Hth.
Qed.

Lemma is_present_false ws id :
  is_present ws id = false ↔ length ws ≤ id ∨ ws !! id = Some None.
Proof.
  destruct (is_present ws id) eqn:E.
  - apply is_present_true in E as [th Hth]. split; [done|].
    intros [Hge|Hnone]; [|congruence].
    apply lookup_lt_Some in Hth. lia.
  - split; [intros _|done].
    destruct (ws !! id) as [[th|]|] eqn:Hth.
    + assert (is_present ws id = true) by (apply is_present_true; eauto). congruence.
    + by right.
    + left. by apply lookup_ge_None.
Qed.

(** The equations of [WorkerFn_step]. *)
Lemma WorkerFn_step_check id pc s :
  pc = AtLoopHead ∨ pc = InWait →
  WorkerFn_step id pc s
  = Done (EvLock TaskQueueMutex :: check_trace (m_TaskWorkers s) id) s
      (AtWaitCondition (is_present (m_TaskWorkers s) id)).
Proof.
  intros [-> | ->]; unfold WorkerFn_step, bind, emit;
    rewrite CanWorkerContinueWorking_spec; cbn; by rewrite app_nil_r.
Qed.

Lemma WorkerFn_step_condition id canWork s :
  WorkerFn_step id (AtWaitCondition canWork) s
  = if bool_decide (m_TaskQueue s = []) && canWork
    then Done [EvUnlock TaskQueueMutex; EvWait] s InWait
    else Done [] s (AtStopCheck canWork).
Proof. cbn. run_step. by destruct (bool_decide _ && _). Qed.

Lemma WorkerFn_step_stop id s :
  WorkerFn_step id (AtStopCheck false) s = Done [EvUnlock TaskQueueMutex] s Finished.
Proof. done. Qed.

Lemma WorkerFn_step_retrieve id s :
  WorkerFn_step id (AtStopCheck true) s
  = match m_TaskQueue s with
    | [] => Done [EvUnlock TaskQueueMutex] s (AtTaskWork None)
    | task :: rest =>
        Done [EvUnlock TaskQueueMutex] (set_TaskQueue rest s) (AtTaskWork (Some task))
    end.
Proof. cbn. run_step. by destruct (m_TaskQueue s). Qed.

Lemma WorkerFn_step_work id task t s :
  heap s !! task = Some (Some t) →
  WorkerFn_step id (AtTaskWork (Some task)) s
  = Done [EvRun t; EvLock FreeTaskPoolMutex; EvUnlock FreeTaskPoolMutex]
      (set_FreeTaskPool (m_FreeTaskPool s ++ [task])
         (set_heap (<[task := None]> (heap s)) s))
      AtLoopHead.
Proof.
  intros H. cbn. unfold invoke, destruct_task. run_step. rewrite H. cbn.
  by rewrite H.
Qed.

(** [WorkerFn_step] takes exactly the steps of [worker_moves]. *)
Lemma WorkerFn_step_moves id pc s tr s' pc' :
  WorkerFn_step id pc s = Done tr s' pc' ↔ worker_moves id s pc tr s' pc'.
Proof.
  split.
  - intros Hstep. destruct pc as [|c| |[|]|[p|]|].
    + rewrite WorkerFn_step_check in Hstep by (by left). simplify_eq.
      constructor. by left.
    + rewrite WorkerFn_step_condition in Hstep.
      destruct c; [|rewrite andb_false_r in Hstep; simplify_eq; constructor; by right].
      rewrite andb_true_r in Hstep. case_bool_decide; simplify_eq.
      * by constructor.
      * constructor. by left.
    + rewrite WorkerFn_step_check in Hstep by (by right). simplify_eq.
      constructor. by right.
    + rewrite WorkerFn_step_retrieve in Hstep.
      destruct (m_TaskQueue s) eqn:Hq; simplify_eq; by constructor.
    + rewrite WorkerFn_step_stop in Hstep. simplify_eq. constructor.
    + destruct (heap s !! p) as [[t|]|] eqn:Hh.
      * rewrite (WorkerFn_step_work _ _ t) in Hstep by done. simplify_eq.
        by constructor.
      * exfalso. revert Hstep. cbn. unfold invoke. run_step. by rewrite Hh.
      * exfalso. revert Hstep. cbn. unfold invoke. run_step. by rewrite Hh.
    + cbn in Hstep. unfold ret in Hstep. simplify_eq. constructor.
    + cbn in Hstep. unfold ret in Hstep. simplify_eq. constructor.
  - destruct 1.
    + by apply WorkerFn_step_check.
    + rewrite WorkerFn_step_condition. by rewrite bool_decide_eq_true_2.
    + rewrite WorkerFn_step_condition.
      destruct H as [H | ->]; [by rewrite bool_decide_eq_false_2|by rewrite andb_false_r].
    + done.
    + rewrite WorkerFn_step_retrieve. by rewrite H.
    + rewrite WorkerFn_step_retrieve. by rewrite H.
    + by apply WorkerFn_step_work.
    + done.
    + done.
Qed.

Lemma worker_moves_pool id s pc tr s' pc' :
  worker_moves id s pc tr s' pc' → m_TaskWorkers s' = m_TaskWorkers s.
Proof. destruct 1; by destruct s. Qed.

Lemma worker_moves_present id s pc tr s' pc' :
  worker_moves id s pc tr s' pc' →
  is_present (m_TaskWorkers s) id = true → ¬ stopping pc → ¬ stopping pc'.
Proof.
  unfold stopping.
  destruct 1; intros Hp Hpc [?|[?|?]]; simplify_eq;
    first [congruence | apply Hpc; auto].
Qed.

Lemma worker_moves_queue id s pc tr s' pc' :
  worker_moves id s pc tr s' pc' →
  TaskQueueMutex ∉ worker_holds pc →
  (TaskQueueMutex ∈ worker_holds pc' → TaskQueueMutex ∈ acquired tr) ∧
  (pc ≠ Finished → pc' ≠ Finished) ∧
  m_TaskQueue s' = m_TaskQueue s.
Proof.
  destruct 1; cbn; intros Hq; set_solver.
Qed.

(** A worker locks no mutex that it holds. *)
Lemma worker_moves_locks id s pc tr s' pc' m :
  worker_moves id s pc tr s' pc' → m ∈ acquired tr → m ∉ worker_holds pc.
Proof.
  destruct 1 as [pc0 [-> | ->]| | | | | | | |]; cbn; set_solver.
Qed.

Lemma stopping_step id pc s :
  stopping pc →
  ∃ tr pc', WorkerFn_step id pc s = Done tr s pc' ∧ executed tr = [] ∧ stopping pc'.
Proof.
  intros [-> | [-> | ->]].
  - rewrite WorkerFn_step_condition, andb_false_r.
    exists [], (AtStopCheck false). split_and!; [done..|]. right. by left.
  - exists [EvUnlock TaskQueueMutex], Finished. split_and!; [done..|]. right. by right.
  - exists [], Finished. split_and!; [done..|]. right. by right.
Qed.

Lemma stopping_run id acts pc s :
  stopping pc →
  ∃ tr pc', WorkerFn_run id acts pc s = Done tr (interference acts s) pc' ∧
            executed tr = [] ∧ stopping pc'.
Proof.
  revert pc s. induction acts as [|[|f] acts IH]; intros pc s Hpc.
  - by exists [], pc.
  - destruct (stopping_step id pc s Hpc) as (tr & pc' & Hstep & He & Hpc').
    destruct (IH pc' s Hpc') as (tr' & pc'' & Hrun & He' & Hpc'').
    exists (tr ++ tr'), pc''. cbn. unfold bind. rewrite Hstep, Hrun.
    split_and!; [done| |done]. by rewrite executed_app, He, He'.
  - destruct (IH pc (f s) Hpc) as (tr' & pc'' & Hrun & He' & Hpc'').
    exists tr', pc''. cbn. unfold bind, modify. by rewrite Hrun.
Qed.

(** C6, as amended.  Every wake-up of a waiting worker (as every turn of
    the loop) validates the worker again: the step out of the wait calls
    [CanWorkerContinueWorking] on the pool as it is then, and the answer
    is false exactly when the id is out of range or its slot null.  The
    loop ends only from a validation that answered false, and such a
    validation does end it, whatever other threads do meanwhile.  From a
    validation that answered false on, the worker dequeues nothing, runs
    nothing and changes nothing. *)
Theorem worker_validates_and_stops id :
  (∀ s, WorkerFn_step id InWait s
        = Done (EvLock TaskQueueMutex :: check_trace (m_TaskWorkers s) id) s
            (AtWaitCondition (is_present (m_TaskWorkers s) id))) ∧
  (∀ s, is_present (m_TaskWorkers s) id = false ↔ absent (m_TaskWorkers s) id) ∧
  (∀ pc s tr s' pc',
     WorkerFn_step id pc s = Done tr s' pc' → pc ≠ Finished →
     (pc' = Finished → pc = AtStopCheck false) ∧
     (∀ c, pc' = AtStopCheck c → pc = AtWaitCondition c) ∧
     (∀ c, pc' = AtWaitCondition c →
           c = is_present (m_TaskWorkers s) id ∧ (pc = AtLoopHead ∨ pc = InWait))) ∧
  (∀ f g s,
     WorkerFn_run id [Interfere f; WorkerStep; Interfere g; WorkerStep]
       (AtWaitCondition false) s
     = Done [EvUnlock TaskQueueMutex] (g (f s)) Finished) ∧
  (∀ acts pc s, stopping pc →
     ∃ tr pc', WorkerFn_run id acts pc s = Done tr (interference acts s) pc' ∧
               executed tr = [] ∧ stopping pc').
Proof.
  split_and!.
  - intros s. apply WorkerFn_step_check. by right.
  - intros s. apply is_present_false.
  - intros pc s tr s' pc' Hstep Hpc.
    destruct pc as [|c| |[|]|[p|]|].
    + rewrite WorkerFn_step_check in Hstep by (by left).
      simplify_eq. naive_solver.
    + rewrite WorkerFn_step_condition in Hstep.
      destruct (bool_decide _ && c); simplify_eq; naive_solver.
    + rewrite WorkerFn_step_check in Hstep by (by right).
      simplify_eq. naive_solver.
    + rewrite WorkerFn_step_retrieve in Hstep.
      destruct (m_TaskQueue s); simplify_eq; naive_solver.
    + rewrite WorkerFn_step_stop in Hstep. simplify_eq. naive_solver.
    + cbn in Hstep. unfold invoke, destruct_task in Hstep. revert Hstep. run_step.
      destruct (heap s !! p) as [[t|]|] eqn:Hh; cbn; [|done..].
      rewrite Hh. cbn. intros. simplify_eq. naive_solver.
    + cbn in Hstep. simplify_eq. naive_solver.
    + done.
  - intros f g s. cbn [WorkerFn_run]. unfold bind, modify.
    rewrite WorkerFn_step_condition, andb_false_r. done.
  - intros acts pc s. apply stopping_run.
Qed.

Lemma held_slots_app l1 l2 : held_slots (l1 ++ l2) = held_slots l1 ++ held_slots l2.
Proof. unfold held_slots. by rewrite map_app, concat_app. Qed.

Lemma held_slots_cons pc l : held_slots (pc :: l) = held_slot pc ++ held_slots l.
Proof. done. Qed.

Lemma worker_at_split (pcs : list WorkerPC) id pc :
  pcs !! id = Some pc →
  ∃ l1 l2, pcs = l1 ++ pc :: l2 ∧ ∀ pc', <[id := pc']> pcs = l1 ++ pc' :: l2.
Proof.
  intros H. exists (take id pcs), (drop (S id) pcs). split.
  - by rewrite take_drop_middle.
  - intros pc'. apply insert_take_drop. by eapply lookup_lt_Some.
Qed.

Lemma length_held_slots (pcs : list WorkerPC) : length (held_slots pcs) ≤ length pcs.
Proof.
  induction pcs as [|pc pcs IH]; [done|].
  rewrite held_slots_cons, length_app. cbn.
  assert (length (held_slot pc) ≤ 1); [|lia].
  destruct pc as [| | | |[?|]|]; cbn; lia.
Qed.

Lemma length_held_tasks s (pcs : list WorkerPC) : length (held_tasks s pcs) ≤ length pcs.
Proof.
  unfold held_tasks. etrans; [apply omap_length_le|]. apply length_held_slots.
Qed.

Lemma system_wf_sched σ : system_wf σ → wf (sched σ).
Proof.
  intros (Hnd & Hq & Hp). split_and!; [|by apply Forall_app in Hq as [? _]|done].
  rewrite app_assoc in Hnd. by apply NoDup_app in Hnd as (? & _ & _).
Qed.

Lemma executed_observes tr :
  Forall (λ e, e = EvWorkers Observe) tr → executed tr = [].
Proof. induction 1 as [|e tr -> _ IH]; [done|]. exact IH. Qed.

Lemma executed_check_trace ws id : executed (check_trace ws id) = [].
Proof. unfold check_trace. by case_bool_decide. Qed.

Lemma task_at_heap s p t : task_at s p = Some t ↔ heap s !! p = Some (Some t).
Proof.
  unfold task_at. destruct (heap s !! p) as [[t'|]|]; cbn; naive_solver.
Qed.

Lemma submit_step σ :
  system_wf σ →
  ∃ σ', system_step Submitter σ = Some σ' ∧ system_wf σ' ∧
        moves (ledger σ) (ledger σ') ∧
        m_TaskWorkers (sched σ') = m_TaskWorkers (sched σ) ∧
        pcs σ' = pcs σ ∧
        (any_worker (m_TaskWorkers (sched σ)) = true →
         accepted σ' ++ pending σ' = accepted σ ++ pending σ).
Proof.
  intros Hwf. pose proof (system_wf_sched σ Hwf) as Hwfs.
  destruct σ as [s ps P A L]. cbn -[AddTask] in *. destruct P as [|t P].
  { eexists. split; [done|]. split_and!; [done|constructor|done..]. }
  destruct (any_worker (m_TaskWorkers s)) eqn:Hany.
  - destruct (AddTask_accepted t s Hany Hwfs)
      as (tr0 & p & pool & evs & -> & Hobs & Hevs & Hst).
    destruct (wf_submitted t p pool s Hwfs Hst) as [(Hnd' & Hq' & Hp') HQ].
    destruct Hwf as (Hnd & Hq & Hp). cbn [sched pcs] in Hnd, Hq, Hp.
    apply Forall_app in Hq as [Hq Hh].
    assert (p ∉ held_slots ps) as Hph.
    { intros Hin. destruct Hst as [(_ & _ & Hfresh)|E].
      - rewrite Forall_forall in Hh. apply Hh in Hin as [t' Ht'].
        apply task_at_heap in Ht'. congruence.
      - rewrite E in Hnd. rewrite app_assoc in Hnd.
        apply NoDup_app in Hnd as (_ & Hdis & _).
        apply (Hdis p); set_solver. }
    assert (held_tasks (submitted t p pool s) ps = held_tasks s ps) as HH.
    { apply omap_ext_in. intros q Hq0. rewrite task_at_submitted.
      case_decide; [by subst|done]. }
    eexists. split; [done|].
    split_and!; [| |done|done|by intros; cbn; rewrite <-app_assoc].
    + unfold system_wf. cbn [sched pcs]. split_and!.
      * rewrite app_assoc. apply NoDup_app. split_and!; [done| |].
        -- intros x Hx Hxh.
           rewrite app_assoc in Hnd. apply NoDup_app in Hnd as (_ & Hdis & _).
           apply elem_of_app in Hx as [Hx|Hx].
           ++ cbn in Hx. apply elem_of_app in Hx as [Hx|Hx]; [apply (Hdis x); set_solver|].
              apply list_elem_of_singleton in Hx as ->. done.
           ++ cbn in Hx. destruct Hst as [(_ & -> & _)|E]; [set_solver|].
              apply (Hdis x); [|done]. rewrite E. set_solver.
        -- rewrite !app_assoc in Hnd. by apply NoDup_app in Hnd as (_ & _ & ?).
      * apply Forall_app. split; [done|].
        rewrite Forall_forall in Hh |- *. intros q Hq0.
        rewrite task_at_submitted. case_decide; [by subst|by apply Hh].
      * done.
    + unfold ledger. cbn [sched pcs pending accepted log HasFailed CreateSuccess].
      rewrite HH, HQ, executed_app.
      replace (executed (_ :: _)) with (@nil nat).
      * rewrite app_nil_r. constructor.
      * change (executed (?e :: ?l)) with (executed l).
        rewrite !executed_app, (executed_observes tr0) by done.
        by destruct Hevs as [-> | ->].
  - destruct (AddTask_rejected t s Hany) as (tr0 & -> & Hobs).
    eexists. split; [done|].
    split_and!; [done| |done|done|done].
    unfold ledger. cbn [sched pcs pending accepted log HasFailed NoAvailableWorkers CreateFailure].
    rewrite executed_app.
    replace (executed (_ :: _)) with (@nil nat).
    * rewrite app_nil_r. constructor.
    * change (executed (?e :: ?l)) with (executed l).
      by rewrite !executed_app, (executed_observes tr0) by done.
Qed.

(** A worker step that changes neither the scheduler nor what the worker
    holds. *)
Lemma idle_worker_step s l1 pc pc' l2 P A L tr :
  held_slot pc = held_slot pc' →
  executed tr = [] →
  system_wf {| sched := s; pcs := l1 ++ pc :: l2; pending := P; accepted := A; log := L |} →
  system_wf {| sched := s; pcs := l1 ++ pc' :: l2; pending := P; accepted := A;
               log := L ++ tr |} ∧
  ledger {| sched := s; pcs := l1 ++ pc' :: l2; pending := P; accepted := A;
            log := L ++ tr |}
  = ledger {| sched := s; pcs := l1 ++ pc :: l2; pending := P; accepted := A; log := L |}.
Proof.
  intros Hh He Hwf.
  assert (held_slots (l1 ++ pc' :: l2) = held_slots (l1 ++ pc :: l2)) as Hs.
  { by rewrite !held_slots_app, !held_slots_cons, Hh. }
  split.
  - unfold system_wf in *. cbn [sched pcs] in *. by rewrite Hs.
  - unfold ledger, held_tasks. cbn [sched pcs pending accepted log].
    by rewrite Hs, executed_app, He, app_nil_r.
Qed.

Lemma worker_step σ id :
  system_wf σ →
  ∃ σ', system_step (Worker id) σ = Some σ' ∧ system_wf σ' ∧
        moves (ledger σ) (ledger σ') ∧
        m_TaskWorkers (sched σ') = m_TaskWorkers (sched σ) ∧
        length (pcs σ') = length (pcs σ) ∧
        accepted σ' = accepted σ ∧ pending σ' = pending σ.
Proof.
  intros Hwf. destruct σ as [s ps P A L].
  unfold system_step. cbn [sched pcs pending accepted log].
  destruct (ps !! id) as [pc|] eqn:Hpc; cycle 1.
  { eexists. split; [done|]. split_and!; [done|constructor|done..]. }
  destruct (worker_at_split ps id pc Hpc) as (l1 & l2 & -> & Hins).
  assert (∀ tr pc',
            held_slot pc = held_slot pc' → executed tr = [] →
            WorkerFn_step id pc s = Done tr s pc' →
            ∃ σ', match WorkerFn_step id pc s with
                  | Done tr s' pc' =>
                      Some {| sched := s'; pcs := <[id:=pc']> (l1 ++ pc :: l2);
                              pending := P; accepted := A; log := L ++ tr |}
                  | Abort _ => None
                  end = Some σ' ∧ system_wf σ' ∧
                  moves (ledger {| sched := s; pcs := l1 ++ pc :: l2; pending := P;
                                   accepted := A; log := L |}) (ledger σ') ∧
                  m_TaskWorkers (sched σ') = m_TaskWorkers s ∧
                  length (pcs σ') = length (l1 ++ pc :: l2) ∧
                  accepted σ' = A ∧ pending σ' = P) as Hidle.
  { intros tr pc' Hh He ->. rewrite Hins.
    destruct (idle_worker_step s l1 pc pc' l2 P A L tr Hh He Hwf) as [Hwf' Hl].
    eexists. split; [done|]. split_and!; [done| |done| |done|done].
    - rewrite Hl. constructor.
    - cbn. rewrite !length_app. done. }
  destruct pc as [|c| |[|]|[p|]|].
  - eapply Hidle; cycle 2; [apply WorkerFn_step_check; by left|done|].
    apply executed_check_trace.
  - rewrite WorkerFn_step_condition in Hidle |- *.
    destruct (bool_decide _ && c); (eapply Hidle; cycle 2; [reflexivity|done|done]).
  - eapply Hidle; cycle 2; [apply WorkerFn_step_check; by right|done|].
    apply executed_check_trace.
  - (* a task is taken from the head of the queue *)
    rewrite WorkerFn_step_retrieve in Hidle |- *.
    destruct (m_TaskQueue s) as [|p rest] eqn:Hqueue;
      [eapply Hidle; cycle 2; [reflexivity|done|done]|].
    clear Hidle. rewrite Hins.
    destruct Hwf as (Hnd & Hq & Hp). cbn [sched pcs] in Hnd, Hq, Hp.
    rewrite Hqueue in Hnd, Hq.
    rewrite held_slots_app, held_slots_cons in Hnd, Hq. cbn [held_slot app] in Hnd, Hq.
    assert (is_Some (task_at s p)) as [t Ht] by (by apply Forall_cons in Hq as [? _]).
    eexists. split; [done|]. split_and!; [| |done| |done|done].
    + unfold system_wf. cbn [sched pcs set_TaskQueue m_TaskQueue m_FreeTaskPool].
      rewrite held_slots_app, held_slots_cons. cbn [held_slot app].
      split_and!; [| |done].
      * rewrite !app_assoc, <-Permutation_middle, <-!app_assoc. exact Hnd.
      * rewrite Forall_forall in Hq |- *. intros q Hin. apply Hq. set_solver.
    + unfold ledger, held_tasks, queued_tasks.
      cbn [sched pcs pending accepted log set_TaskQueue m_TaskQueue].
      rewrite Hqueue, !held_slots_app, !held_slots_cons. cbn [held_slot app].
      rewrite !omap_app. cbn. change (task_at (set_TaskQueue rest s)) with (task_at s).
      rewrite Ht, executed_app. cbn. rewrite app_nil_r. constructor.
    + cbn. by rewrite !length_app.
  - eapply Hidle; cycle 2; [apply WorkerFn_step_stop|done|done].
  - (* the task is run and its storage goes to the pool *)
    clear Hidle.
    destruct Hwf as (Hnd & Hq & Hp). cbn [sched pcs] in Hnd, Hq, Hp.
    rewrite held_slots_app, held_slots_cons in Hnd, Hq. cbn [held_slot app] in Hnd, Hq.
    assert (is_Some (task_at s p)) as [t Ht].
    { rewrite Forall_forall in Hq. apply Hq. set_solver. }
    rewrite (WorkerFn_step_work id p t) by (by apply task_at_heap).
    rewrite Hins.
    set (s' := set_FreeTaskPool _ _).
    assert (∀ q, q ≠ p → task_at s' q = task_at s q) as Hother.
    { intros q Hne. unfold task_at, s'. cbn. by rewrite lookup_insert_ne. }
    assert (NoDup (p :: m_TaskQueue s ++ m_FreeTaskPool s ++ held_slots l1 ++ held_slots l2))
      as Hnd'.
    { rewrite !app_assoc, <-Permutation_middle, <-!app_assoc in Hnd. exact Hnd. }
    apply NoDup_cons in Hnd' as [Hfresh Hnd'].
    eexists. split; [done|]. split_and!; [| |done| |done|done].
    + unfold system_wf. cbn [sched pcs]. rewrite held_slots_app, held_slots_cons.
      cbn [held_slot app]. split_and!.
      * unfold s'. cbn. rewrite <-!app_assoc. cbn.
        rewrite (app_assoc (m_TaskQueue s)), <-Permutation_middle, <-app_assoc.
        by apply NoDup_cons_2.
      * unfold s' at 2. cbn [m_TaskQueue set_FreeTaskPool set_heap].
        rewrite Forall_forall in Hq |- *. intros q Hin.
        rewrite Hother; [apply Hq; set_solver|].
        intros ->. apply Hfresh. set_solver.
      * unfold s'. cbn. apply Forall_app. split.
        -- rewrite Forall_forall in Hp |- *. intros q Hin.
           rewrite lookup_insert_ne; [by apply Hp|].
           intros ->. apply Hfresh. set_solver.
        -- apply Forall_singleton. apply lookup_insert_eq.
    + unfold ledger, held_tasks, queued_tasks.
      cbn [sched pcs pending accepted log].
      rewrite !held_slots_app, !held_slots_cons. cbn [held_slot app].
      rewrite !omap_app. cbn [omap list_omap]. rewrite Ht.
      rewrite executed_app. cbn [executed omap list_omap app].
      rewrite (omap_ext_in (task_at s') (task_at s) (held_slots l1)); cycle 1.
      { intros q Hin. apply Hother. intros ->. apply Hfresh. set_solver. }
      rewrite (omap_ext_in (task_at s') (task_at s) (held_slots l2)); cycle 1.
      { intros q Hin. apply Hother. intros ->. apply Hfresh. set_solver. }
      rewrite (omap_ext_in (task_at s') (task_at s) (m_TaskQueue s')); cycle 1.
      { intros q Hin. apply Hother. intros ->. apply Hfresh.
        unfold s' in Hin. cbn in Hin. set_solver. }
      apply move_run.
    + cbn. by rewrite !length_app.
  - eapply Hidle; cycle 2; [reflexivity|done|done].
  - eapply Hidle; cycle 2; [reflexivity|done|done].
Qed.

Lemma system_step_spec a σ :
  system_wf σ →
  ∃ σ', system_step a σ = Some σ' ∧ system_wf σ' ∧
        moves (ledger σ) (ledger σ') ∧
        m_TaskWorkers (sched σ') = m_TaskWorkers (sched σ) ∧
        length (pcs σ') = length (pcs σ) ∧
        (any_worker (m_TaskWorkers (sched σ)) = true →
         accepted σ' ++ pending σ' = accepted σ ++ pending σ).
Proof.
  intros Hwf. destruct a as [|id].
  - destruct (submit_step σ Hwf) as (σ' & ? & ? & ? & ? & Hpcs & ?).
    exists σ'. by rewrite Hpcs.
  - destruct (worker_step σ id Hwf) as (σ' & ? & ? & ? & ? & ? & HA & HP).
    exists σ'. by rewrite HA, HP.
Qed.

Lemma moves_perm (base : list nat) l l' :
  moves l l' →
  ∀ E H Q A P E' H' Q' A' P',
    l = (E, H, Q, A, P) → l' = (E', H', Q', A', P') →
    E ++ H ++ Q ≡ₚ base ++ A → E' ++ H' ++ Q' ≡ₚ base ++ A'.
Proof.
  destruct 1; intros ????? ????? ?? Hc; simplify_eq.
  - done.
  - rewrite (app_assoc base), <-Hc. solve_Permutation.
  - done.
  - rewrite <-Hc. solve_Permutation.
  - rewrite <-Hc. solve_Permutation.
Qed.

Lemma moves_eq (base : list nat) l l' :
  moves l l' →
  ∀ E H Q A P E' H' Q' A' P',
    l = (E, H, Q, A, P) → l' = (E', H', Q', A', P') →
    length H ≤ 1 → length H' ≤ 1 →
    E ++ H ++ Q = base ++ A → E' ++ H' ++ Q' = base ++ A'.
Proof.
  destruct 1 as [l|E H Q A t P|E H Q A t P|E H1 H2 t Q A P|E H1 t H2 Q A P];
    intros ????? ????? ?? Hl Hl' Hc; simplify_eq.
  - done.
  - by rewrite (app_assoc base), <-Hc, <-!app_assoc.
  - done.
  - rewrite length_app in Hl'. cbn in Hl'.
    destruct H1; [|cbn in Hl'; lia]. destruct H2; [|cbn in Hl'; lia].
    by rewrite <-Hc.
  - rewrite length_app in Hl. cbn in Hl.
    destruct H1; [|cbn in Hl; lia]. destruct H2; [|cbn in Hl; lia].
    rewrite <-Hc. cbn. by rewrite <-app_assoc.
Qed.

Lemma moves_conserved base σ σ' :
  moves (ledger σ) (ledger σ') → conserved base σ → conserved base σ'.
Proof. intros Hm Hc. by eapply (moves_perm base _ _ Hm). Qed.

Lemma moves_in_order base σ σ' :
  length (pcs σ') ≤ 1 →
  length (pcs σ) ≤ 1 →
  moves (ledger σ) (ledger σ') → in_order base σ → in_order base σ'.
Proof.
  intros Hone' Hone Hm Hc.
  pose proof (length_held_tasks (sched σ) (pcs σ)) as Hl.
  pose proof (length_held_tasks (sched σ') (pcs σ')) as Hl'.
  eapply (moves_eq base _ _ Hm); [done|done|lia|lia|done].
Qed.

Lemma system_run_spec schedule base σ :
  system_wf σ → conserved base σ →
  ∃ σ', system_run schedule σ = Some σ' ∧ system_wf σ' ∧ conserved base σ' ∧
        m_TaskWorkers (sched σ') = m_TaskWorkers (sched σ) ∧
        length (pcs σ') = length (pcs σ) ∧
        (any_worker (m_TaskWorkers (sched σ)) = true →
         accepted σ' ++ pending σ' = accepted σ ++ pending σ) ∧
        (length (pcs σ) ≤ 1 → in_order base σ → in_order base σ').
Proof.
  revert σ. induction schedule as [|a schedule IH]; intros σ Hwf Hc.
  { exists σ. by split_and!. }
  destruct (system_step_spec a σ Hwf) as (σ1 & Hstep & Hwf1 & Hm & Hws & Hlen & Hacc).
  destruct (IH σ1 Hwf1 (moves_conserved base σ σ1 Hm Hc))
    as (σ' & Hrun & Hwf' & Hc' & Hws' & Hlen' & Hacc' & Hord').
  exists σ'. cbn. rewrite Hstep. split_and!; [done|done|done|congruence|congruence| |].
  - intros Hany. rewrite Hacc', Hacc; [done|done|by rewrite Hws].
  - intros Hone Hord. apply Hord'; [lia|].
    apply (moves_in_order base σ σ1); [lia|done|done|done].
Qed.

Lemma held_slots_start n : held_slots (replicate n AtLoopHead) = [].
Proof. induction n as [|n IH]; [done|]. exact IH. Qed.

Lemma system_start_wf s tasks :
  wf s →
  system_wf (system_start s tasks) ∧
  in_order (queued_tasks s) (system_start s tasks) ∧
  conserved (queued_tasks s) (system_start s tasks).
Proof.
  intros (Hnd & Hq & Hp).
  assert (in_order (queued_tasks s) (system_start s tasks)) as Hord.
  { unfold in_order, held_tasks, system_start. cbn [sched pcs log accepted].
    by rewrite held_slots_start, app_nil_r. }
  split_and!; [|done|unfold conserved; by rewrite Hord].
  unfold system_wf, system_start. cbn [sched pcs log accepted].
  rewrite held_slots_start, !app_nil_r. done.
Qed.

Lemma system_run_app a b σ :
  system_run (a ++ b) σ = system_run a σ ≫= system_run b.
Proof.
  revert σ. induction a as [|x a IH]; intros σ; cbn; [done|].
  destruct (system_step x σ); [apply IH|done].
Qed.

Lemma submit_pending σ σ' :
  system_step Submitter σ = Some σ' → pending σ' = tail (pending σ).
Proof.
  unfold system_step. destruct (pending σ) as [|t P] eqn:E.
  - intros [= <-]. by rewrite E.
  - destruct (AddTask t (sched σ)); [|done]. by intros [= <-].
Qed.

Lemma submit_all σ :
  system_wf σ →
  ∃ σ', system_run (replicate (length (pending σ)) Submitter) σ = Some σ' ∧
        system_wf σ' ∧ pending σ' = [] ∧
        m_TaskWorkers (sched σ') = m_TaskWorkers (sched σ) ∧ pcs σ' = pcs σ.
Proof.
  remember (length (pending σ)) as n eqn:Hn. revert σ Hn.
  induction n as [|n IH]; intros σ Hn Hwf.
  - exists σ. split_and!; [done|done| |done|done].
    by apply length_zero_iff_nil.
  - destruct (submit_step σ Hwf) as (σ1 & Hstep & Hwf1 & _ & Hws & Hpcs & _).
    pose proof (submit_pending _ _ Hstep) as Hp.
    destruct (IH σ1) as (σ' & Hrun & Hwf' & Hp' & Hws' & Hpcs'); [|done|].
    { rewrite Hp. destruct (pending σ); cbn in *; lia. }
    exists σ'. cbn [replicate system_run]. rewrite Hstep.
    split_and!; [done|done|done|congruence|congruence].
Qed.

Lemma lone_worker_step σ th pc :
  system_wf σ →
  m_TaskWorkers (sched σ) = [Some th] →
  pcs σ = [pc] → ¬ stopping pc →
  m_TaskQueue (sched σ) ≠ [] ∨ held_slots (pcs σ) ≠ [] →
  ∃ σ' pc',
    system_step (Worker 0) σ = Some σ' ∧ system_wf σ' ∧
    m_TaskWorkers (sched σ') = [Some th] ∧ pending σ' = pending σ ∧
    pcs σ' = [pc'] ∧ ¬ stopping pc' ∧
    4 * length (m_TaskQueue (sched σ')) + distance pc'
    < 4 * length (m_TaskQueue (sched σ)) + distance pc.
Proof.
  intros Hwf Hws Hpcs Hns Hbusy.
  destruct (worker_step σ 0 Hwf) as (σ' & Hstep & Hwf' & _ & Hws' & _ & _ & HP).
  exists σ'. pose proof Hstep as Hstep0.
  unfold system_step in Hstep. rewrite Hpcs in Hstep. cbn [lookup list_lookup] in Hstep.
  destruct (WorkerFn_step 0 pc (sched σ)) as [tr s' pc'|] eqn:Hw; [|done].
  injection Hstep as <-. cbn [sched pcs pending] in *.
  apply WorkerFn_step_moves in Hw.
  exists pc'. split_and!; [done|done|congruence|done|done| |].
  - eapply worker_moves_present; [done| |done]. apply is_present_true. rewrite Hws. eauto.
  - rewrite Hpcs in Hbusy. unfold held_slots in Hbusy. cbn in Hbusy.
    rewrite app_nil_r in Hbusy.
    destruct Hw; cbn in *; try lia.
    + destruct H as [-> | ->]; cbn; lia.
    + destruct Hbusy as [Hq|Hh]; congruence.
    + destruct Hbusy as [Hq|Hh]; congruence.
    + rewrite H. cbn. lia.
    + exfalso. apply Hns. unfold stopping. auto.
Qed.


Lemma lone_worker_finishes n σ th pc :
  4 * length (m_TaskQueue (sched σ)) + distance pc ≤ n →
  system_wf σ →
  m_TaskWorkers (sched σ) = [Some th] →
  pcs σ = [pc] → ¬ stopping pc →
  pending σ = [] →
  ∃ more σ', system_run more σ = Some σ' ∧ quiescent σ'.
Proof.
  revert σ pc. induction n as [|n IH]; intros σ pc Hn Hwf Hws Hpcs Hns HP.
  { exfalso. apply Hns. destruct pc; cbn in Hn; try lia. unfold stopping. auto. }
  destruct (decide (m_TaskQueue (sched σ) = [] ∧ held_slots (pcs σ) = []))
    as [[Hq Hh]|Hbusy].
  { by exists [], σ. }
  destruct (lone_worker_step σ th pc)
    as (σ1 & pc1 & Hstep & Hwf1 & Hws1 & HP1 & Hpcs1 & Hns1 & Hlt); [done..| |].
  { destruct (decide (m_TaskQueue (sched σ) = [])); [|by left].
    right. intros Hh. by apply Hbusy. }
  destruct (IH σ1 pc1) as (more & σ' & Hrun & Hquiet);
    [lia|done|done|done|done|congruence|].
  exists (Worker 0 :: more), σ'. cbn [system_run]. by rewrite Hstep.
Qed.

(** Whatever has happened, the submitting thread and the worker can go
    on until nothing is left to do. *)
Lemma lone_worker_drains σ th pc :
  system_wf σ →
  m_TaskWorkers (sched σ) = [Some th] →
  pcs σ = [pc] → ¬ stopping pc →
  ∃ more σ', system_run more σ = Some σ' ∧ quiescent σ'.
Proof.
  intros Hwf Hws Hpcs Hns.
  destruct (submit_all σ Hwf) as (σ1 & Hrun1 & Hwf1 & HP1 & Hws1 & Hpcs1).
  destruct (lone_worker_finishes _ σ1 th pc (le_n _)) as (more & σ' & Hrun & Hquiet);
    [done|congruence|congruence|done|done|].
  exists (replicate (length (pending σ)) Submitter ++ more), σ'.
  rewrite system_run_app, Hrun1. done.
Qed.


Lemma lone_worker_goes_on schedule σ σ' th pc :
  m_TaskWorkers (sched σ) = [Some th] →
  pcs σ = [pc] → ¬ stopping pc →
  system_wf σ →
  system_run schedule σ = Some σ' →
  ∃ pc', pcs σ' = [pc'] ∧ ¬ stopping pc'.
Proof.
  revert σ pc. induction schedule as [|a schedule IH]; intros σ pc Hws Hpcs Hns Hwf.
  { intros [= <-]. eauto. }
  cbn [system_run].
  destruct (system_step a σ) as [σ1|] eqn:Hstep; [|done]. intros Hrun.
  destruct (system_step_spec a σ Hwf) as (σ1' & Hstep' & Hwf1 & _ & Hws1 & _).
  rewrite Hstep in Hstep'. injection Hstep' as <-.
  assert (∃ pc1, pcs σ1 = [pc1] ∧ ¬ stopping pc1) as (pc1 & Hpcs1 & Hns1).
  { destruct a as [|id].
    - destruct (submit_step σ Hwf) as (σ1' & Hstep' & _ & _ & _ & Hp & _).
      rewrite Hstep in Hstep'. injection Hstep' as <-. exists pc. by rewrite Hp.
    - unfold system_step in Hstep. rewrite Hpcs in Hstep.
      destruct id as [|id]; cbn [lookup list_lookup] in Hstep;
        [|injection Hstep as <-; eauto].
      destruct (WorkerFn_step 0 pc (sched σ)) as [tr s' pc'|] eqn:Hw; [|done].
      injection Hstep as <-. exists pc'. split; [done|].
      apply WorkerFn_step_moves in Hw.
      eapply worker_moves_present; [done| |done].
      apply is_present_true. rewrite Hws. eauto. }
  eapply (IH σ1 pc1); [congruence|done..].
Qed.

(** C1.  One thread submits [tasks] in order while a single worker runs
    and no resize happens.  Whatever the interleaving of the two, no
    step aborts, every submission is accepted, and the tasks run so far,
    the task being worked on, the queue and the tasks still to be
    submitted are, in this order, the tasks queued at the start followed
    by [tasks]: the tasks are run in submission order, and all of them
    once nothing is left to do, a point that every interleaving can be
    continued to.  [AddTask] puts the storage of the task at the tail of
    the queue, the worker takes its task from the head. *)
Theorem tasks_run_in_submission_order s th tasks schedule :
  wf s →
  m_TaskWorkers s = [Some th] →
  (∃ σ, system_run schedule (system_start s tasks) = Some σ ∧
        accepted σ ++ pending σ = tasks ∧
        executed (log σ) ++ held_tasks (sched σ) (pcs σ) ++
          queued_tasks (sched σ) ++ pending σ = queued_tasks s ++ tasks ∧
        executed (log σ) `prefix_of` queued_tasks s ++ tasks ∧
        (quiescent σ → executed (log σ) = queued_tasks s ++ tasks)) ∧
  (∀ task, ∃ tr p pool,
     AddTask task s = Done tr (submitted task p pool s) CreateSuccess ∧
     m_TaskQueue (submitted task p pool s) = m_TaskQueue s ++ [p]) ∧
  (∀ id task rest s1, m_TaskQueue s1 = task :: rest →
     WorkerFn_step id (AtStopCheck true) s1
     = Done [EvUnlock TaskQueueMutex] (set_TaskQueue rest s1) (AtTaskWork (Some task))) ∧
  (∃ more σ, system_run (schedule ++ more) (system_start s tasks) = Some σ ∧
             quiescent σ ∧ executed (log σ) = queued_tasks s ++ tasks).
Proof.
  intros Hwf Hws.
  assert (∀ schedule0,
            ∃ σ, system_run schedule0 (system_start s tasks) = Some σ ∧
                 system_wf σ ∧ m_TaskWorkers (sched σ) = [Some th] ∧
                 accepted σ ++ pending σ = tasks ∧
                 executed (log σ) ++ held_tasks (sched σ) (pcs σ) ++
                   queued_tasks (sched σ) ++ pending σ = queued_tasks s ++ tasks)
    as Hall.
  { intros schedule0.
    destruct (system_start_wf s tasks Hwf) as (Hwf0 & Hord0 & Hc0).
    destruct (system_run_spec schedule0 (queued_tasks s) _ Hwf0 Hc0)
      as (σ & Hrun & Hwfσ & _ & Hwsσ & _ & Hacc & Hord).
    cbn in Hacc, Hord, Hwsσ. rewrite Hws in Hacc, Hord, Hwsσ.
    specialize (Hacc eq_refl). specialize (Hord (le_n 1) Hord0).
    unfold in_order in Hord.
    exists σ. split_and!; [done..|].
    rewrite <-Hacc, (app_assoc (queued_tasks s)), <-Hord. by rewrite <-!app_assoc. }
  assert (∀ σ, quiescent σ →
            executed (log σ) ++ held_tasks (sched σ) (pcs σ) ++
              queued_tasks (sched σ) ++ pending σ = queued_tasks s ++ tasks →
            executed (log σ) = queued_tasks s ++ tasks) as Hdone.
  { intros σ (HP & HQ & HH) <-.
    unfold held_tasks, queued_tasks. rewrite HP, HQ, HH. cbn.
    by rewrite app_nil_r. }
  split_and!.
  - destruct (Hall schedule) as (σ & Hrun & _ & _ & Hacc & Heq).
    exists σ. split_and!; [done|done|done| |by auto].
    rewrite <-Heq. by eexists.
  - intros task.
    destruct (AddTask_accepted task s) as (tr0 & p & pool & evs & Heq & _);
      [by rewrite Hws|done|].
    by eexists _, p, pool.
  - intros id task rest s1 Hq. by rewrite WorkerFn_step_retrieve, Hq.
  - destruct (Hall schedule) as (σ0 & Hrun0 & Hwf0 & Hws0 & _).
    destruct (lone_worker_goes_on schedule (system_start s tasks) σ0 th AtLoopHead)
      as (pc & Hpcs & Hns);
      [done|by cbn; rewrite Hws|unfold stopping; naive_solver
      |by apply system_start_wf|done|].
    destruct (lone_worker_drains σ0 th pc Hwf0 Hws0 Hpcs Hns) as (more & σ & Hrun & Hquiet).
    exists more, σ.
    assert (system_run (schedule ++ more) (system_start s tasks) = Some σ) as Hboth
      by (by rewrite system_run_app, Hrun0).
    split_and!; [done|done|].
    destruct (Hall (schedule ++ more)) as (σ' & Hrun' & _ & _ & _ & Heq).
    rewrite Hboth in Hrun'. injection Hrun' as <-. by apply Hdone.
Qed.

Lemma OnManagerActivation_active oldInterface newInterface s :
  OnManagerActivation true oldInterface newInterface s
  = Done [EvLockShared TaskWorkersMutex; EvUnlockShared TaskWorkersMutex] s ().
Proof. done. Qed.

Lemma OnManagerActivation_change oldInterface newThreadMgr s :
  OnManagerActivation false oldInterface (Some newThreadMgr) s
  = Done [EvLockShared TaskWorkersMutex;
          EvDisconnect OnManagerActivationHandler;
          EvConnect OnManagerActivationHandler (ActivationEvent (InterfaceId newThreadMgr));
          EvUnlockShared TaskWorkersMutex]
      (set_ThreadManager (InterfaceId newThreadMgr)
         (set_OnManagerActivation [ActivationEvent (InterfaceId newThreadMgr)] s)) ().
Proof. done. Qed.

Lemma OnManagerActivation_deactivated old lib app s :
  GetLibrary old = Some lib → GetApplication lib = Some app →
  OnManagerActivation false (Some old) None s
  = Done [EvLockShared TaskWorkersMutex;
          EvDisconnect OnManagerActivationHandler;
          EvDisconnect OnNewManagerHandler;
          EvConnect OnNewManagerHandler (OnInterfaceActivationEvent app);
          EvUnlockShared TaskWorkersMutex]
      (set_OnNewManager [OnInterfaceActivationEvent app] (set_OnManagerActivation [] s)) ().
Proof.
  intros Hl Ha. unfold OnManagerActivation. run_step. rewrite Hl, Ha. done.
Qed.

Lemma at_most_one_bound s src :
  at_most_one (subscriptions s) = true → src ∈ m_OnManagerActivation s →
  m_OnNewManager s = [].
Proof.
  unfold at_most_one, subscriptions. rewrite bool_decide_eq_true. cbn.
  intros Hle Hin. destruct (m_OnManagerActivation s); [set_solver|].
  destruct (m_OnNewManager s); [done|]. cbn in Hle. lia.
Qed.

Lemma at_most_one_unbound s src :
  at_most_one (subscriptions s) = true → src ∈ m_OnNewManager s →
  m_OnManagerActivation s = [].
Proof.
  unfold at_most_one, subscriptions. rewrite bool_decide_eq_true. cbn.
  intros Hle Hin. destruct (m_OnNewManager s); [set_solver|].
  destruct (m_OnManagerActivation s); [done|]. cbn in Hle. lia.
Qed.

Lemma held_after_app held tr1 tr2 :
  held_after held (tr1 ++ tr2) = held_after (held_after held tr1) tr2.
Proof. apply foldl_app. Qed.

Lemma pool_guarded_app held tr1 tr2 :
  pool_guarded held (tr1 ++ tr2)
  = pool_guarded held tr1 && pool_guarded (held_after held tr1) tr2.
Proof.
  revert held. induction tr1 as [|e tr1 IH]; intros held; [done|].
  cbn. by rewrite IH, andb_assoc.
Qed.

Lemma workers_mutex_first_app held tr1 tr2 :
  workers_mutex_first held (tr1 ++ tr2)
  = workers_mutex_first held tr1 && workers_mutex_first (held_after held tr1) tr2.
Proof.
  revert held. induction tr1 as [|e tr1 IH]; intros held; [done|].
  cbn. by rewrite IH, andb_assoc.
Qed.

Lemma held_after_lockfree held tr :
  Forall (λ e, is_lock_op e = false) tr → held_after held tr = held.
Proof.
  induction 1 as [|e tr He _ IH]; [done|]. cbn.
  destruct e; try done; exact IH.
Qed.

Lemma pool_guarded_lockfree held tr :
  Forall (λ e, is_lock_op e = false) tr →
  TaskWorkersMutex ∈ held → pool_guarded held tr = true.
Proof.
  intros Hfree Hin. induction Hfree as [|e tr He _ IH]; [done|]. cbn.
  destruct e; try done; cbn; rewrite ?IH; try done.
  by rewrite bool_decide_eq_true_2.
Qed.

Lemma pool_guarded_quiet held tr :
  Forall (λ e, is_lock_op e = false ∧ is_pool_access e = false) tr →
  pool_guarded held tr = true ∧ held_after held tr = held.
Proof.
  induction 1 as [|e tr [He1 He2] _ [IH1 IH2]]; [done|]. cbn.
  destruct e; try done; cbn; by rewrite ?IH1, ?IH2.
Qed.

Lemma workers_mutex_first_lockfree held tr :
  Forall (λ e, is_lock_op e = false) tr → workers_mutex_first held tr = true.
Proof.
  induction 1 as [|e tr He _ IH]; [done|]. cbn.
  destruct e; try done; exact IH.
Qed.

Lemma holds_both_app held tr1 tr2 :
  holds_both held (tr1 ++ tr2)
  = holds_both held tr1 || holds_both (held_after held tr1) tr2.
Proof.
  revert held. induction tr1 as [|e tr1 IH]; intros held.
  - cbn. destruct tr2; cbn; by destruct (bool_decide _).
  - cbn. rewrite IH. by rewrite orb_assoc.
Qed.

Lemma observes_lockfree tr :
  Forall (λ e, e = EvWorkers Observe) tr → Forall (λ e, is_lock_op e = false) tr.
Proof. induction 1 as [|e tr -> _ IH]; by constructor. Qed.

Lemma check_trace_locks ws id held :
  pool_guarded held (check_trace ws id) = true ∧
  held_after held (check_trace ws id) = held.
Proof.
  unfold check_trace. case_bool_decide; cbn;
    rewrite !bool_decide_eq_true_2 by set_solver; by rewrite decide_True.
Qed.

Lemma release_elem_of m m' held : m' ∈ release m held → m' ∈ held.
Proof.
  induction held as [|x held IH]; cbn; [done|].
  case_decide; set_solver.
Qed.

Lemma release_other m m' held : m' ≠ m → m' ∈ held → m' ∈ release m held.
Proof.
  intros Hne. induction held as [|x held IH]; cbn; [done|].
  case_decide; set_solver.
Qed.

Lemma AddTask_locks task s :
  pool_guarded [] (trace_of (AddTask task s)) = true ∧
  workers_mutex_first [] (trace_of (AddTask task s)) = true ∧
  held_after [] (trace_of (AddTask task s)) = [].
Proof.
  destruct s as [mgr0 act0 new0 name ws queue pool allow h ms0].
  unfold AddTask, AreThereAnyAvailableWorker, AllocT, construct. run_step.
  destruct ws as [|[th|] ws]; cbn; [done| |destruct (any_worker ws); cbn; [|done]].
  all: destruct (last pool) as [p|]; cbn;
    [destruct (h !! p); by cbn|by rewrite lookup_insert_eq].
Qed.

Lemma WorkerFn_step_locks id pc s tr s' pc' :
  WorkerFn_step id pc s = Done tr s' pc' →
  pool_guarded (worker_holds pc) tr = true ∧
  held_after (worker_holds pc) tr = worker_holds pc'.
Proof.
  intros Hstep. destruct pc as [|c| |[|]|[p|]|].
  - rewrite WorkerFn_step_check in Hstep by (by left). simplify_eq.
    destruct (check_trace_locks (m_TaskWorkers s') id [TaskQueueMutex]) as [H1 H2].
    split; [exact H1|exact H2].
  - rewrite WorkerFn_step_condition in Hstep.
    destruct (bool_decide _ && c); simplify_eq; split; reflexivity.
  - rewrite WorkerFn_step_check in Hstep by (by right). simplify_eq.
    destruct (check_trace_locks (m_TaskWorkers s') id [TaskQueueMutex]) as [H1 H2].
    split; [exact H1|exact H2].
  - rewrite WorkerFn_step_retrieve in Hstep.
    destruct (m_TaskQueue s); simplify_eq; split; reflexivity.
  - rewrite WorkerFn_step_stop in Hstep. simplify_eq. split; reflexivity.
  - cbn in Hstep. unfold invoke, destruct_task in Hstep. revert Hstep. run_step.
    destruct (heap s !! p) as [[t|]|] eqn:Hh; cbn; [|done..].
    rewrite Hh. cbn. intros. simplify_eq. split; reflexivity.
  - cbn in Hstep. unfold ret in Hstep. simplify_eq. split; reflexivity.
  - cbn in Hstep. unfold ret in Hstep. simplify_eq. split; reflexivity.
Qed.

Lemma WaitUntilAllTasksFinished_step_locks pc s tr s' pc' :
  WaitUntilAllTasksFinished_step pc s = Done tr s' pc' →
  pool_guarded (wait_holds pc) tr = true ∧
  workers_mutex_first (wait_holds pc) tr = true ∧
  held_after (wait_holds pc) tr = wait_holds pc'.
Proof.
  destruct pc; cbn; run_step; try case_bool_decide; intros; simplify_eq;
    split_and!; reflexivity.
Qed.

End Steps.

(** ** Resizing, rejection and teardown *)

Section Resizing.

Context {ThreadManager : Type}.
Implicit Types (s : @State ThreadManager) (ws : list (option nat)).

Variable join_attempts : Thread → nat.

Lemma join_loop_spec th s :
  join_loop join_attempts th s = Done (join_trace join_attempts th) s ().
Proof.
  destruct th as [t|]; [|done].
  unfold join_loop, bind.
  change (repeat_m (join_attempts t) _ s)
    with (repeat_m (join_attempts t)
            (λ s0, Done [EvTryJoin t false; EvNotifyAll; EvYield] s0 ()) s).
  by rewrite repeat_m_events.
Qed.

Lemma join_trace_quiet th :
  executed (join_trace join_attempts th) = [] ∧
  creation_results (join_trace join_attempts th) = [].
Proof.
  destruct th as [t|]; [|done]. cbn.
  rewrite executed_app, creation_results_app. cbn.
  induction (join_attempts t) as [|n [IH1 IH2]]; [done|].
  cbn. by rewrite !app_nil_r in *.
Qed.

Lemma shrink_loop_spec fuel count s :
  length (m_TaskWorkers s) ≤ count + fuel →
  ∃ tr, shrink_loop join_attempts fuel count s
        = Done tr (set_TaskWorkers (take count (m_TaskWorkers s)) s) ()
        ∧ executed tr = [] ∧ creation_results tr = [].
Proof.
  revert s. induction fuel as [|fuel IH]; intros s Hlen.
  - exists [EvWorkers Observe]. cbn. run_step.
    rewrite bool_decide_eq_false_2 by lia.
    rewrite take_ge by lia. by rewrite set_TaskWorkers_id.
  - cbn. run_step. case_bool_decide as Hc.
    + rewrite join_loop_spec. cbn.
      rewrite erase_marked_last by (intros E; rewrite E in Hc; cbn in Hc; lia).
      match goal with
      | |- context [shrink_loop _ fuel count ?s'] =>
          destruct (IH s') as (tr & Heq & He & Hcr);
            [cbn; rewrite length_take; lia | rewrite Heq]
      end.
      cbn. rewrite take_take, Nat.min_l by lia.
      eexists. split; [reflexivity|].
      destruct (join_trace_quiet
                  (mjoin (m_TaskWorkers s !! (length (m_TaskWorkers s) - 1)))) as [J1 J2].
      unfold executed, creation_results in *. cbn.
      rewrite !omap_app, J1, J2. cbn. by rewrite He, Hcr.
    + exists [EvWorkers Observe].
      rewrite take_ge by lia. by rewrite set_TaskWorkers_id.
Qed.

Lemma join_trace_quiet_locks th :
  Forall (λ e, is_lock_op e = false ∧ is_pool_access e = false)
    (join_trace join_attempts th).
Proof.
  destruct th as [t|]; [|constructor]. cbn.
  apply Forall_app. split; [|by repeat constructor].
  induction (join_attempts t) as [|n IH]; [constructor|].
  cbn. by repeat constructor.
Qed.

Variable CreateThread : ThreadManager → ThreadConfig → TResult Thread * ThreadManager.

Lemma grow_loop_spec mgr n i s tm :
  managers s !! mgr = Some tm →
  ∃ tr s' r,
    grow_loop CreateThread mgr n i s = Done tr s' r ∧
    resized s s' ∧
    m_TaskWorkers s' = m_TaskWorkers s ++ (Some <$> created_threads tr) ∧
    executed tr = [] ∧
    ((r = CreateSuccess ∧ length (created_threads tr) = n ∧
      Forall (λ c, HasFailed c = false) (creation_results tr))
     ∨ (∃ trp cfg msg,
          tr = trp ++ [EvCreateThread cfg (Failure msg)] ∧
          r = Failure msg ∧
          length (created_threads tr) < n ∧
          Forall (λ c, HasFailed c = false) (creation_results trp))).
Proof.
  revert i s tm. induction n as [|n IH]; intros i s tm Hm.
  - exists [], s, CreateSuccess. cbn. rewrite app_nil_r.
    split_and!; [done|apply resized_refl|done|done|]. left. by split_and!.
  - cbn. unfold CreateThread_via. run_step. rewrite Hm.
    destruct (CreateThread tm _) as [[th|msg] tm'] eqn:Hc.
    + run_step.
      match goal with
      | |- context [grow_loop _ mgr n (S i) ?s1] =>
          destruct (IH (S i) s1 tm') as (tr & s' & r & Heq & Hres & Hws & Hex & Hcase);
            [cbn; apply lookup_insert_eq | rewrite Heq]
      end.
      cbn in Hws. eexists _, s', r. split; [reflexivity|].
      split_and!.
      * unfold resized in *. rewrite Hres at 1. by destruct s.
      * cbn. rewrite Hws, <-app_assoc. done.
      * cbn. done.
      * destruct Hcase as [(-> & Hlen & Hall)|(trp & cfg & msg & -> & -> & Hlen & Hall)].
        -- left. unfold created_threads, creation_results in *. cbn.
           split_and!; [done|by rewrite Hlen|by constructor].
        -- right.
           exists (EvCreateThread {| Name := Format (m_Name s) i; ThreadFN := i |} (Success th)
                     :: EvWorkers Mutate :: trp), cfg, msg.
           unfold created_threads, creation_results in *. cbn.
           split_and!; [done|done|lia|by constructor].
    + run_step. eexists _, _, _. split; [reflexivity|].
      split_and!.
      * unfold resized. by destruct s.
      * cbn. by rewrite app_nil_r.
      * done.
      * right. exists [], {| Name := Format (m_Name s) i; ThreadFN := i |}, msg.
        cbn. split_and!; [done|done|lia|constructor].
Qed.

(** The equations of [SetWorkerCount_step] on the path that removes
    workers. *)
Lemma SetWorkerCount_step_entry count joined s :
  count < length (m_TaskWorkers s) →
  SetWorkerCount_step CreateThread count joined AtEntry s
  = Done [EvLock TaskWorkersMutex; EvWorkers Observe; EvWorkers Observe] s AtWhile.
Proof.
  intros H. cbn. run_step.
  rewrite bool_decide_eq_false_2 by lia. cbn.
  by rewrite bool_decide_eq_false_2 by lia.
Qed.

Lemma SetWorkerCount_step_while count joined s :
  SetWorkerCount_step CreateThread count joined AtWhile s
  = Done [EvWorkers Observe] s
      (if bool_decide (count < length (m_TaskWorkers s)) then AtMark
       else Returned CreateSuccess).
Proof. cbn. run_step. by case_bool_decide. Qed.

Lemma SetWorkerCount_step_mark count joined s :
  SetWorkerCount_step CreateThread count joined AtMark s
  = Done [EvWorkers Observe; EvWorkers Observe; EvWorkers Mutate;
          EvUnlock TaskWorkersMutex]
      (set_TaskWorkers (<[length (m_TaskWorkers s) - 1 := None]> (m_TaskWorkers s)) s)
      (AtJoin (mjoin (m_TaskWorkers s !! (length (m_TaskWorkers s) - 1)))
         (length (m_TaskWorkers s))).
Proof. done. Qed.

Lemma SetWorkerCount_step_join count joined t sz s :
  SetWorkerCount_step CreateThread count joined (AtJoin (Some t) sz) s
  = if joined then Done [EvTryJoin t true] s (AtRelock sz)
    else Done [EvTryJoin t false; EvNotifyAll; EvYield] s (AtJoin (Some t) sz).
Proof. by destruct joined. Qed.

Lemma SetWorkerCount_step_erase count joined sz s :
  SetWorkerCount_step CreateThread count joined (AtErase sz) s
  = Done [EvWorkers Mutate] (set_TaskWorkers (delete (sz - 1) (m_TaskWorkers s)) s) AtWhile.
Proof. done. Qed.

Lemma SetWorkerCount_run_app count a1 a2 pc s :
  SetWorkerCount_run CreateThread count (a1 ++ a2) pc s
  = bind (SetWorkerCount_run CreateThread count a1 pc)
      (SetWorkerCount_run CreateThread count a2) s.
Proof.
  revert pc s. induction a1 as [|j a1 IH]; intros pc s; cbn.
  - unfold bind, ret. by destruct (SetWorkerCount_run _ _ _ _ _).
  - rewrite bind_assoc. apply bind_ext. intros pc1 s1. apply IH.
Qed.

Lemma SetWorkerCount_run_join count th sz s :
  ∃ answers,
    SetWorkerCount_run CreateThread count answers (AtJoin th sz) s
    = Done (join_trace join_attempts th) s (AtRelock sz).
Proof.
  destruct th as [t|]; [|by exists [false]].
  exists (replicate (join_attempts t) false ++ [true]). cbn [join_trace].
  induction (join_attempts t) as [|n IH]; [done|].
  cbn [replicate app SetWorkerCount_run]. unfold bind at 1.
  change (SetWorkerCount_step CreateThread count false (AtJoin (Some t) sz) s)
    with (Done [EvTryJoin t false; EvNotifyAll; EvYield] s (AtJoin (Some t) sz)).
  lazy beta iota. by rewrite IH.
Qed.


Lemma SetWorkerCount_run_shrink fuel count s :
  length (m_TaskWorkers s) ≤ count + fuel →
  ∃ answers,
    SetWorkerCount_run CreateThread count answers AtWhile s
    = returned_with (bind (shrink_loop join_attempts fuel count) (λ _, ret CreateSuccess) s).
Proof.
  revert s. induction fuel as [|fuel IH]; intros s Hlen.
  - exists [false]. cbn. run_step. by rewrite bool_decide_eq_false_2 by lia.
  - destruct (decide (count < length (m_TaskWorkers s))) as [Hlt|Hge].
    + set (sz := length (m_TaskWorkers s)).
      set (th := mjoin (m_TaskWorkers s !! (sz - 1))).
      set (s1 := set_TaskWorkers (<[sz - 1 := None]> (m_TaskWorkers s)) s).
      set (s2 := set_TaskWorkers (delete (sz - 1) (m_TaskWorkers s1)) s1).
      destruct (SetWorkerCount_run_join count th sz s1) as (aj & Hj).
      destruct (IH s2) as (ar & Hr).
      { subst s2 s1 sz. cbn. rewrite length_delete.
        - rewrite length_insert. lia.
        - apply lookup_lt_is_Some. rewrite length_insert. lia. }
      exists ([false; false] ++ aj ++ [false; false] ++ ar).
      rewrite SetWorkerCount_run_app. unfold bind at 1.
      assert (SetWorkerCount_run CreateThread count [false; false] AtWhile s
              = Done [EvWorkers Observe; EvWorkers Observe; EvWorkers Observe;
                      EvWorkers Mutate; EvUnlock TaskWorkersMutex] s1 (AtJoin th sz)) as ->.
      { cbn. run_step. by rewrite bool_decide_eq_true_2 by done. }
      rewrite SetWorkerCount_run_app. unfold bind at 1. rewrite Hj.
      rewrite SetWorkerCount_run_app. unfold bind at 1.
      assert (SetWorkerCount_run CreateThread count [false; false] (AtRelock sz) s1
              = Done [EvLock TaskQueueMutex; EvWorkers Mutate] s2 AtWhile) as -> by done.
      rewrite Hr.
      cbn [shrink_loop]. unfold bind at 2. unfold bind at 2. run_step.
      rewrite bool_decide_eq_true_2 by done. cbn.
      rewrite join_loop_spec. cbn.
      fold sz th s1 s2. subst s2.
      destruct (shrink_loop join_attempts fuel count _) as [tr' s' []|]; cbn; [|done].
      by rewrite ?app_nil_r.
    + exists [false]. cbn. run_step. by rewrite bool_decide_eq_false_2 by lia.
Qed.


(** The machine and [SetWorkerCount] agree: on the answers that
    [join_attempts] stands for, the machine returns what [SetWorkerCount]
    returns, with the same events and the same final state. *)
Lemma SetWorkerCount_run_refines count s :
  ∃ answers,
    SetWorkerCount_run CreateThread count answers AtEntry s
    = returned_with (SetWorkerCount CreateThread join_attempts count s).
Proof.
  destruct (decide (length (m_TaskWorkers s) = count)) as [Heq|Hne].
  - exists [false]. cbn. unfold SetWorkerCount. run_step.
    by rewrite bool_decide_eq_true_2.
  - destruct (decide (length (m_TaskWorkers s) < count)) as [Hlt|Hge].
    + exists [false]. cbn -[add_workers]. unfold SetWorkerCount.
      generalize (add_workers CreateThread count). intros grow. run_step.
      rewrite bool_decide_eq_false_2 by done. cbn.
      rewrite bool_decide_eq_true_2 by done.
      destruct (grow s) as [tr s' r|]; cbn; [|done].
      by rewrite ?app_nil_r.
    + destruct (SetWorkerCount_run_shrink (length (m_TaskWorkers s)) count s)
        as (ar & Hr); [lia|].
      exists (false :: ar). cbn [SetWorkerCount_run]. unfold bind at 1.
      rewrite SetWorkerCount_step_entry by lia. rewrite Hr.
      unfold SetWorkerCount. run_step.
      rewrite bool_decide_eq_false_2 by done. cbn.
      rewrite bool_decide_eq_false_2 by done.
      destruct (shrink_loop join_attempts _ count s) as [tr' s' []|]; cbn; [|done].
      by rewrite ?app_nil_r.
Qed.

Lemma SetWorkerCount_same count s :
  length (m_TaskWorkers s) = count →
  SetWorkerCount CreateThread join_attempts count s
  = Done [EvLock TaskWorkersMutex; EvWorkers Observe; EvUnlock TaskWorkersMutex]
      s CreateSuccess.
Proof.
  intros H. unfold SetWorkerCount, add_workers. run_step.
  by rewrite bool_decide_eq_true_2.
Qed.

Lemma SetWorkerCount_shrink count s :
  count < length (m_TaskWorkers s) →
  ∃ tr, SetWorkerCount CreateThread join_attempts count s
        = Done tr (set_TaskWorkers (take count (m_TaskWorkers s)) s) CreateSuccess
        ∧ executed tr = [] ∧ creation_results tr = [].
Proof.
  intros H. unfold SetWorkerCount, add_workers. run_step.
  rewrite bool_decide_eq_false_2 by lia. cbn.
  rewrite bool_decide_eq_false_2 by lia.
  destruct (shrink_loop_spec (length (m_TaskWorkers s)) count s)
    as (tr & -> & He & Hc); [lia|].
  eexists. split; [reflexivity|].
  unfold executed, creation_results in *. cbn. by rewrite app_nil_r.
Qed.

Lemma SetWorkerCount_growth_disabled count s :
  length (m_TaskWorkers s) < count →
  m_AllowGrowth s = false →
  SetWorkerCount CreateThread join_attempts count s
  = Done [EvLock TaskWorkersMutex; EvWorkers Observe; EvWorkers Observe;
          EvUnlock TaskWorkersMutex] s GrowthDisabled.
Proof.
  intros H Hg. unfold SetWorkerCount, add_workers. run_step.
  rewrite bool_decide_eq_false_2 by lia. cbn.
  rewrite bool_decide_eq_true_2 by lia.
  by rewrite Hg.
Qed.

Lemma SetWorkerCount_expired count s :
  length (m_TaskWorkers s) < count →
  m_AllowGrowth s = true →
  managers s !! m_ThreadManager s = None →
  SetWorkerCount CreateThread join_attempts count s
  = Done [EvLock TaskWorkersMutex; EvWorkers Observe; EvWorkers Observe;
          EvUnlock TaskWorkersMutex] s ProvisioningUnavailable.
Proof.
  intros H Hg Hm. unfold SetWorkerCount, add_workers. run_step.
  rewrite bool_decide_eq_false_2 by lia. cbn.
  rewrite bool_decide_eq_true_2 by lia.
  rewrite Hg. cbn. by rewrite bool_decide_eq_true_2.
Qed.

Lemma SetWorkerCount_grow count s tm :
  length (m_TaskWorkers s) < count →
  m_AllowGrowth s = true →
  managers s !! m_ThreadManager s = Some tm →
  ∃ tr s' r,
    SetWorkerCount CreateThread join_attempts count s = Done tr s' r ∧
    resized s s' ∧
    m_TaskWorkers s' = m_TaskWorkers s ++ (Some <$> created_threads tr) ∧
    executed tr = [] ∧
    ((r = CreateSuccess ∧ length (m_TaskWorkers s') = count ∧
      Forall (λ c, HasFailed c = false) (creation_results tr))
     ∨ (∃ trp cfg msg,
          tr = trp ++ [EvCreateThread cfg (Failure msg); EvUnlock TaskWorkersMutex] ∧
          r = Failure msg ∧
          length (m_TaskWorkers s') < count ∧
          Forall (λ c, HasFailed c = false) (creation_results trp))).
Proof.
  intros H Hg Hm. unfold SetWorkerCount, add_workers. run_step.
  rewrite bool_decide_eq_false_2 by lia. cbn.
  rewrite bool_decide_eq_true_2 by lia.
  rewrite Hg. cbn. rewrite bool_decide_eq_false_2 by (by rewrite Hm).
  destruct (grow_loop_spec (m_ThreadManager s) (count - length (m_TaskWorkers s))
              (length (m_TaskWorkers s)) s tm Hm)
    as (tr & s' & r & -> & Hres & Hws & Hex & Hcase).
  cbn. eexists _, s', r. split; [reflexivity|].
  split_and!.
  - done.
  - rewrite Hws. f_equal. f_equal.
    unfold created_threads. cbn. rewrite !omap_app. cbn. by rewrite app_nil_r.
  - unfold executed in *. cbn. rewrite omap_app, Hex. done.
  - destruct Hcase as [(-> & Hlen & Hall)|(trp & cfg & msg & -> & -> & Hlen & Hall)].
    + left. split_and!; [done| |].
      * rewrite Hws, length_app, length_fmap, Hlen. lia.
      * unfold creation_results in *. cbn. rewrite omap_app. cbn.
        by rewrite app_nil_r.
    + right.
      exists (EvLock TaskWorkersMutex :: EvWorkers Observe :: EvWorkers Observe
                :: EvWorkers Observe :: trp), cfg, msg.
      split_and!.
      * cbn. by rewrite <-app_assoc.
      * done.
      * rewrite Hws, length_app, length_fmap. lia.
      * unfold creation_results in *. by cbn.
Qed.

(** C8.  If a thread-creation request of a growing [SetWorkerCount]
    fails, that request is the last thing the resize does before it
    releases the mutex, its failure is what the caller gets, and the
    workers created before it stay in the pool: the pool afterwards is
    the old pool followed by the threads created, its size the old size
    plus their number (short of the target). *)
Theorem growth_failure_keeps_created_workers s count tr s' r cfg msg :
  SetWorkerCount CreateThread join_attempts count s = Done tr s' r →
  EvCreateThread cfg (Failure msg) ∈ tr →
  r = Failure msg ∧
  (∃ trp, tr = trp ++ [EvCreateThread cfg (Failure msg); EvUnlock TaskWorkersMutex] ∧
          Forall (λ c, HasFailed c = false) (creation_results trp)) ∧
  m_TaskWorkers s' = m_TaskWorkers s ++ (Some <$> created_threads tr) ∧
  length (m_TaskWorkers s') = length (m_TaskWorkers s) + length (created_threads tr) ∧
  length (m_TaskWorkers s') < count.
Proof.
  intros Hrun Hin.
  pose proof (failed_request_in_results _ _ _ Hin) as Hres.
  destruct (decide (length (m_TaskWorkers s) = count)) as [Heq|Hne].
  { rewrite SetWorkerCount_same in Hrun by done.
    injection Hrun as <- _ _. set_solver. }
  destruct (decide (count < length (m_TaskWorkers s))) as [Hlt|Hge].
  { destruct (SetWorkerCount_shrink count s Hlt) as (tr0 & Heq & _ & Hc).
    rewrite Heq in Hrun. injection Hrun as <- _ _.
    rewrite Hc in Hres. set_solver. }
  assert (length (m_TaskWorkers s) < count) as Hgrow by lia.
  destruct (m_AllowGrowth s) eqn:Hg; cycle 1.
  { rewrite SetWorkerCount_growth_disabled in Hrun by done.
    injection Hrun as <- _ _. set_solver. }
  destruct (managers s !! m_ThreadManager s) as [tm|] eqn:Hm; cycle 1.
  { rewrite SetWorkerCount_expired in Hrun by done.
    injection Hrun as <- _ _. set_solver. }
  destruct (SetWorkerCount_grow count s tm Hgrow Hg Hm)
    as (tr0 & s0 & r0 & Heq & _ & Hws & _ & Hcase).
  rewrite Heq in Hrun. injection Hrun as <- <- <-.
  destruct Hcase as [(_ & _ & Hall)|(trp & cfg' & msg' & -> & -> & Hlen & Hall)].
  { by apply all_succeeded_no_failure with (msg := msg) in Hall. }
  assert (cfg' = cfg ∧ msg' = msg) as [-> ->].
  { apply elem_of_app in Hin as [Hin1|Hin2].
    - apply failed_request_in_results in Hin1.
      by apply all_succeeded_no_failure with (msg := msg) in Hall.
    - rewrite elem_of_cons, list_elem_of_singleton in Hin2.
      destruct Hin2 as [E|E]; [by injection E|discriminate E]. }
  split_and!; [done|by exists trp|done| |done].
  by rewrite Hws, length_app, length_fmap.
Qed.

(** C3, as amended.  With growth disabled, a [SetWorkerCount] above the
    current count returns [GrowthDisabled] and leaves the scheduler, its
    worker count included, as it was.  After [EnableGrowth(true)], with
    a thread manager that has not expired, the same call gets past the
    gate and asks for threads: it succeeds, reaching the target, when
    none of its requests fails, and otherwise returns the failure of the
    request that failed. *)
Theorem growth_gating s target :
  m_AllowGrowth s = false →
  length (m_TaskWorkers s) < target →
  SetWorkerCount CreateThread join_attempts target s
  = Done [EvLock TaskWorkersMutex; EvWorkers Observe; EvWorkers Observe;
          EvUnlock TaskWorkersMutex] s GrowthDisabled ∧
  (∀ tm, managers s !! m_ThreadManager s = Some tm →
     ∃ tr1 s1 tr2 s2 r,
       EnableGrowth true s = Done tr1 s1 () ∧
       SetWorkerCount CreateThread join_attempts target s1 = Done tr2 s2 r ∧
       ((r = CreateSuccess ∧ length (m_TaskWorkers s2) = target ∧
         Forall (λ c, HasFailed c = false) (creation_results tr2))
        ∨ (∃ cfg msg, EvCreateThread cfg (Failure msg) ∈ tr2 ∧ r = Failure msg))).
Proof.
  intros Hg Hlt. split.
  { by apply SetWorkerCount_growth_disabled. }
  intros tm Hm.
  exists [EvLock TaskWorkersMutex; EvUnlock TaskWorkersMutex], (set_AllowGrowth true s).
  destruct (SetWorkerCount_grow target (set_AllowGrowth true s) tm)
    as (tr & s' & r & Heq & _ & _ & _ & Hcase); [done..|].
  exists tr, s', r. split_and!; [done|done|].
  destruct Hcase as [?|(trp & cfg & msg & -> & -> & _)]; [by left|right].
  exists cfg, msg. split; [|done]. set_solver.
Qed.

(** C4.  With an empty worker pool, or one whose slots are all null,
    [AddTask] returns [NoAvailableWorkers] and leaves the scheduler, its
    task queue included, as it was.  That is so after
    [SetWorkerCount(0)]: when that call has returned, the pool is empty
    and the queue is the one from before the call. *)
Theorem AddTask_without_workers task s :
  (m_TaskWorkers s = [] ∨ Forall (λ w, w = None) (m_TaskWorkers s) →
   ∃ tr, AddTask task s = Done tr s NoAvailableWorkers) ∧
  (∀ tr0 s0 r,
     SetWorkerCount CreateThread join_attempts 0 s = Done tr0 s0 r →
     r = CreateSuccess ∧
     m_TaskWorkers s0 = [] ∧
     m_TaskQueue s0 = m_TaskQueue s ∧
     ∃ tr, AddTask task s0 = Done tr s0 NoAvailableWorkers).
Proof.
  split.
  - intros H.
    assert (any_worker (m_TaskWorkers s) = false) as Hno.
    { destruct H as [->|H]; [done|by apply any_worker_absent]. }
    destruct (AddTask_rejected task s Hno) as (tr0 & Heq & _). eauto.
  - intros tr0 s0 r Hrun.
    assert (∃ tr0, SetWorkerCount CreateThread join_attempts 0 s
                   = Done tr0 (set_TaskWorkers [] s) CreateSuccess) as [tr0' Hs].
    { destruct (decide (length (m_TaskWorkers s) = 0)) as [E|E].
      - rewrite SetWorkerCount_same by done. eexists. f_equal.
        apply length_zero_iff_nil in E. rewrite <-E. by destruct s.
      - destruct (SetWorkerCount_shrink 0 s) as (tr1 & Heq & _); [lia|].
        rewrite take_0 in Heq. eauto. }
    rewrite Hs in Hrun. injection Hrun as <- <- <-.
    destruct (AddTask_rejected task (set_TaskWorkers [] s)) as (tr & Heq & _); [done|].
    split_and!; [done|done|by destruct s|eauto].
Qed.

Lemma SetWorkerCount_zero s :
  ∃ tr, SetWorkerCount CreateThread join_attempts 0 s
        = Done tr (set_TaskWorkers [] s) CreateSuccess ∧ executed tr = [].
Proof.
  destruct (decide (length (m_TaskWorkers s) = 0)) as [E|E].
  - rewrite SetWorkerCount_same by done.
    exists [EvLock TaskWorkersMutex; EvWorkers Observe; EvUnlock TaskWorkersMutex].
    split; [|done].
    apply length_zero_iff_nil in E. rewrite <-E. by destruct s.
  - destruct (SetWorkerCount_shrink 0 s) as (tr0 & Heq & He & _); [lia|].
    rewrite take_0 in Heq. eauto.
Qed.

Lemma Stop_spec s :
  wf s →
  length (m_TaskWorkers s) ≤ 1 →
  ∃ tr0 tr1 s',
    SetWorkerCount CreateThread join_attempts 0 s
    = Done tr0 (set_TaskWorkers [] s) CreateSuccess ∧
    Stop CreateThread join_attempts s
    = Done (tr0 ++ tr1 ++ (EvDealloc <$> m_FreeTaskPool s)) s' () ∧
    executed tr0 = [] ∧
    executed tr1 = queued_tasks s ∧ freed tr1 = m_TaskQueue s ∧
    m_TaskWorkers s' = [] ∧ m_TaskQueue s' = [] ∧
    (∀ p, heap s' !! p
          = if decide (p ∈ m_TaskQueue s ++ m_FreeTaskPool s) then None else heap s !! p).
Proof.
  intros (Hnd & Hq & Hp) _.
  destruct (SetWorkerCount_zero s) as (tr0 & H0 & He0).
  apply NoDup_app in Hnd as (Hndq & Hdis & Hndp).
  destruct (drain_spec (m_TaskQueue s) (set_TaskWorkers [] s))
    as (tr1 & h1 & H1 & He1 & Hf1 & Hh1); [done|done|].
  destruct (release_spec (m_FreeTaskPool s)
              (set_TaskQueue [] (set_heap h1 (set_TaskWorkers [] s))))
    as (tr2 & h2 & H2 & -> & Hh2); [done| |].
  { cbn. rewrite Forall_forall in Hp |- *. intros p Hin.
    rewrite Hh1. cbn.
    rewrite decide_False by (intros Hin'; by apply (Hdis p)).
    rewrite Hp by done. by eexists. }
  eexists tr0, tr1, _. split_and!; [done| |done| | | | |].
  - unfold Stop. unfold bind at 1. rewrite H0.
    unfold bind at 1. unfold gets at 1. cbn [m_TaskQueue set_TaskWorkers].
    unfold bind at 1. rewrite H1.
    unfold bind at 1. unfold modify at 1.
    unfold bind at 1. unfold gets at 1.
    cbn [m_FreeTaskPool set_TaskQueue set_heap set_TaskWorkers].
    cbn in H2. rewrite H2. cbn. done.
  - done.
  - done.
  - done.
  - done.
  - intros p. cbn. rewrite Hh2. cbn. rewrite Hh1. cbn.
    destruct (decide (p ∈ m_FreeTaskPool s)), (decide (p ∈ m_TaskQueue s)).
    all: try (rewrite decide_True by (apply elem_of_app; auto); done).
    by rewrite decide_False by (rewrite elem_of_app; tauto).
Qed.

(** What [Stop] does on a pool of one worker at most, where
    [SetWorkerCount 0] has no second worker to wait for, when the join
    succeeds, the refusals before being those [join_attempts] stands
    for.  The call empties the pool and runs no task; [Stop] then runs
    the queued tasks on the calling thread, head of the queue first,
    freeing the storage of each, and then frees the pooled storage:
    afterwards the queue is empty and all storage that was queued or
    pooled is back with the allocator.  When the workers have finished
    what they were working on, the tasks run by the workers and by [Stop]
    are, each once, the tasks that were queued at the start and those for
    which [AddTask] returned success. *)
Lemma Stop_runs_the_queue_then_frees s :
  wf s →
  length (m_TaskWorkers s) ≤ 1 →
  (∃ tr0 tr1 s',
     SetWorkerCount CreateThread join_attempts 0 s
     = Done tr0 (set_TaskWorkers [] s) CreateSuccess ∧
     Stop CreateThread join_attempts s
     = Done (tr0 ++ tr1 ++ (EvDealloc <$> m_FreeTaskPool s)) s' () ∧
     executed tr0 = [] ∧
     executed tr1 = queued_tasks s ∧ freed tr1 = m_TaskQueue s ∧
     m_TaskWorkers s' = [] ∧ m_TaskQueue s' = [] ∧
     (∀ p, heap s' !! p
           = if decide (p ∈ m_TaskQueue s ++ m_FreeTaskPool s) then None
             else heap s !! p)) ∧
  (∀ tasks schedule,
     ∃ σ, system_run schedule (system_start s tasks) = Some σ ∧
          (held_slots (pcs σ) = [] →
           ∃ tr s', Stop CreateThread join_attempts (sched σ) = Done tr s' () ∧
                    m_TaskQueue s' = [] ∧
                    executed (log σ ++ tr) ≡ₚ queued_tasks s ++ accepted σ)).
Proof.
  intros Hwf Hone. split; [by apply Stop_spec|].
  intros tasks schedule.
  destruct (system_start_wf s tasks Hwf) as (Hwf0 & _ & Hc0).
  destruct (system_run_spec schedule (queued_tasks s) _ Hwf0 Hc0)
    as (σ & Hrun & Hwfσ & Hc & Hws & _).
  exists σ. split; [done|]. intros Hheld.
  destruct (Stop_spec (sched σ) (system_wf_sched σ Hwfσ))
    as (tr0 & tr1 & s' & _ & HStop & He0 & He1 & _ & _ & HQ & _);
    [by rewrite Hws|].
  eexists _, s'. split_and!; [done|done|].
  rewrite !executed_app, He0, He1, executed_Dealloc, app_nil_r. cbn.
  unfold conserved, held_tasks in Hc. rewrite Hheld in Hc. exact Hc.
Qed.

Lemma SetWorkerCount_resizes count s tr s' r :
  SetWorkerCount CreateThread join_attempts count s = Done tr s' r → resized s s'.
Proof.
  intros Hrun.
  destruct (decide (length (m_TaskWorkers s) = count)) as [Heq|Hne].
  { rewrite SetWorkerCount_same in Hrun by done. simplify_eq. apply resized_refl. }
  destruct (decide (count < length (m_TaskWorkers s))) as [Hlt|Hge].
  { destruct (SetWorkerCount_shrink count s Hlt) as (tr0 & Heq & _).
    rewrite Heq in Hrun. simplify_eq. unfold resized. by destruct s. }
  destruct (m_AllowGrowth s) eqn:Hg; cycle 1.
  { rewrite SetWorkerCount_growth_disabled in Hrun by (done || lia).
    simplify_eq. apply resized_refl. }
  destruct (managers s !! m_ThreadManager s) as [tm|] eqn:Hm; cycle 1.
  { rewrite SetWorkerCount_expired in Hrun by (done || lia).
    simplify_eq. apply resized_refl. }
  destruct (SetWorkerCount_grow count s tm) as (tr0 & s0 & r0 & Heq & Hres & _);
    [lia|done|done|].
  rewrite Heq in Hrun. by simplify_eq.
Qed.

Lemma grow_loop_lockfree mgr n i s :
  Forall (λ e, is_lock_op e = false) (trace_of (grow_loop CreateThread mgr n i s)).
Proof.
  revert i s. induction n as [|n IH]; intros i s; [constructor|].
  cbn. unfold CreateThread_via. run_step.
  destruct (managers s !! mgr) as [tm|]; [|constructor].
  destruct (CreateThread tm _) as [[th|msg] tm']; run_step.
  - match goal with
    | |- context [grow_loop _ mgr n (S i) ?s1] =>
        specialize (IH (S i) s1);
        destruct (grow_loop CreateThread mgr n (S i) s1); cbn in *
    end; [by repeat constructor|constructor].
  - by repeat constructor.
Qed.

Lemma SetWorkerCount_grow_trace count s :
  length (m_TaskWorkers s) < count →
  m_AllowGrowth s = true →
  managers s !! m_ThreadManager s ≠ None →
  trace_of (SetWorkerCount CreateThread join_attempts count s)
  = match grow_loop CreateThread (m_ThreadManager s)
            (count - length (m_TaskWorkers s)) (length (m_TaskWorkers s)) s with
    | Done tr _ _ =>
        EvLock TaskWorkersMutex :: EvWorkers Observe :: EvWorkers Observe ::
        EvWorkers Observe :: tr ++ [EvUnlock TaskWorkersMutex]
    | Abort _ => []
    end.
Proof.
  intros H Hg Hm. unfold SetWorkerCount, add_workers. run_step.
  rewrite bool_decide_eq_false_2 by lia. cbn.
  rewrite bool_decide_eq_true_2 by lia.
  rewrite Hg. cbn. rewrite bool_decide_eq_false_2 by done.
  by destruct (grow_loop _ _ _ _ s).
Qed.

(** Outside the shrink path, [SetWorkerCount] touches the pool under its
    mutex and returns with no mutex held. *)
Lemma SetWorkerCount_guarded count s :
  length (m_TaskWorkers s) ≤ count →
  pool_guarded [] (trace_of (SetWorkerCount CreateThread join_attempts count s)) = true ∧
  workers_mutex_first [] (trace_of (SetWorkerCount CreateThread join_attempts count s))
  = true ∧
  held_after [] (trace_of (SetWorkerCount CreateThread join_attempts count s)) = [].
Proof.
  intros Hle.
  destruct (decide (length (m_TaskWorkers s) = count)) as [Heq|Hne].
  { by rewrite SetWorkerCount_same. }
  destruct (m_AllowGrowth s) eqn:Hg; cycle 1.
  { by rewrite SetWorkerCount_growth_disabled by (done || lia). }
  destruct (managers s !! m_ThreadManager s) as [tm|] eqn:Hm; cycle 1.
  { by rewrite SetWorkerCount_expired by (done || lia). }
  rewrite SetWorkerCount_grow_trace by (done || lia || by rewrite Hm).
  pose proof (grow_loop_lockfree (m_ThreadManager s)
                (count - length (m_TaskWorkers s)) (length (m_TaskWorkers s)) s) as Hfree.
  destruct (grow_loop _ _ _ _ s) as [tr s' r|]; [|done]. cbn in Hfree.
  assert (TaskWorkersMutex ∈ [TaskWorkersMutex]) as Hin by set_solver.
  split_and!.
  - cbn. rewrite !bool_decide_eq_true_2 by done. cbn.
    rewrite pool_guarded_app, pool_guarded_lockfree by done. done.
  - cbn. rewrite workers_mutex_first_app, workers_mutex_first_lockfree by done. done.
  - cbn. change (foldl lock_event [TaskWorkersMutex] ?l) with (held_after [TaskWorkersMutex] l).
    rewrite held_after_app, (held_after_lockfree _ tr) by done. done.
Qed.

(** The shrink path erases from the pool without the pool's mutex: the
    mutex is released before the join (line 68) and what is locked after
    it is the queue's mutex (line 81). *)
Lemma SetWorkerCount_shrink_unguarded count s :
  count < length (m_TaskWorkers s) →
  pool_guarded [] (trace_of (SetWorkerCount CreateThread join_attempts count s)) = false.
Proof.
  intros Hlt. unfold SetWorkerCount, add_workers. run_step.
  rewrite bool_decide_eq_false_2 by lia. cbn.
  rewrite bool_decide_eq_false_2 by lia.
  destruct (length (m_TaskWorkers s)) as [|fuel] eqn:Hlen; [lia|].
  cbn. run_step. rewrite Hlen. rewrite bool_decide_eq_true_2 by lia.
  rewrite join_loop_spec. cbn.
  match goal with
  | |- context [shrink_loop _ fuel count ?s1] =>
      destruct (shrink_loop_spec fuel count s1) as (tr & -> & _)
  end.
  { cbn. rewrite length_delete; [|rewrite list_lookup_insert_eq; [done|lia]].
    rewrite length_insert. lia. }
  cbn. rewrite !bool_decide_eq_true_2 by set_solver. cbn.
  set (th := mjoin _).
  destruct (pool_guarded_quiet [] (join_trace join_attempts th) (join_trace_quiet_locks th))
    as [Hj1 Hj2].
  rewrite decide_True by done.
  rewrite app_nil_r, pool_guarded_app, Hj1, Hj2. cbn.
  by rewrite bool_decide_eq_false_2 by set_solver.
Qed.

(** C5, as amended.  Outside the shrink path of [SetWorkerCount] every
    observation and mutation of the worker pool happens with the
    worker-pool mutex held: in [GetWorkerCount], in [SetWorkerCount]
    towards an equal or larger count, in [AddTask], in
    [CanWorkerContinueWorking] and so at every step of the worker loop.
    [AddTask] and [WaitUntilAllTasksFinished] hold the worker-pool and
    the queue mutex together and take the worker-pool mutex first.  The
    worker loop holds both as well, in the other order: it takes the
    queue mutex and then, inside [CanWorkerContinueWorking], the
    worker-pool mutex in shared mode. *)
Theorem pool_guarded_outside_shrink :
  (∀ s, pool_guarded [] (trace_of (GetWorkerCount s)) = true) ∧
  (∀ count s,
     length (m_TaskWorkers s) ≤ count →
     pool_guarded [] (trace_of (SetWorkerCount CreateThread join_attempts count s))
     = true) ∧
  (∀ task s,
     pool_guarded [] (trace_of (AddTask task s)) = true ∧
     workers_mutex_first [] (trace_of (AddTask task s)) = true) ∧
  (∀ task s,
     any_worker (m_TaskWorkers s) = true → wf s →
     holds_both [] (trace_of (AddTask task s)) = true) ∧
  (∀ id s, pool_guarded [] (trace_of (CanWorkerContinueWorking id s)) = true) ∧
  (∀ id pc s tr s' pc',
     WorkerFn_step id pc s = Done tr s' pc' →
     pool_guarded (worker_holds pc) tr = true ∧
     held_after (worker_holds pc) tr = worker_holds pc') ∧
  (∀ pc s tr s' pc',
     WaitUntilAllTasksFinished_step pc s = Done tr s' pc' →
     workers_mutex_first (wait_holds pc) tr = true ∧
     held_after (wait_holds pc) tr = wait_holds pc') ∧
  (∀ s, holds_both [] (trace_of (WaitUntilAllTasksFinished_step WaitEntry s)) = true) ∧
  (∀ id pc s,
     pc = AtLoopHead ∨ pc = InWait →
     ∃ tr, trace_of (WorkerFn_step id pc s)
           = EvLock TaskQueueMutex :: EvLockShared TaskWorkersMutex :: tr ∧
           holds_both [] (trace_of (WorkerFn_step id pc s)) = true ∧
           workers_mutex_first [] (trace_of (WorkerFn_step id pc s)) = false).
Proof.
  split_and!.
  - done.
  - intros count s Hle. by destruct (SetWorkerCount_guarded count s Hle).
  - intros task s. by destruct (AddTask_locks task s) as (? & ? & ?).
  - intros task s Hany Hwf.
    destruct (AddTask_accepted task s Hany Hwf)
      as (tr0 & p & pool & evs & -> & Hobs & Hevs & _).
    cbn [trace_of].
    change (holds_both [] (EvLockShared TaskWorkersMutex :: ?t))
      with (holds_both [TaskWorkersMutex] t).
    rewrite holds_both_app, (held_after_lockfree _ tr0) by (by apply observes_lockfree).
    apply orb_true_iff. right.
    by destruct Hevs as [-> | ->].
  - intros id s. rewrite CanWorkerContinueWorking_spec.
    by destruct (check_trace_locks (m_TaskWorkers s) id []).
  - apply WorkerFn_step_locks.
  - intros pc s tr s' pc' Hstep.
    by destruct (WaitUntilAllTasksFinished_step_locks pc s tr s' pc' Hstep) as (? & ? & ?).
  - done.
  - intros id pc s Hpc. rewrite WorkerFn_step_check by done.
    eexists. split; [by unfold check_trace|]. by cbn.
Qed.

End Resizing.

(** ** A [SetWorkerCount] that removes two workers or more *)

Section Interleaving.

Context {ThreadManager : Type}.
Implicit Types (s : @State ThreadManager) (σ : @Scene ThreadManager).

Variable CreateThread : ThreadManager → ThreadConfig → TResult Thread * ThreadManager.

(** A step is possible when every mutex it locks is held by no thread. *)
Lemma may_take_spec σ tr :
  may_take σ tr = true ↔
  ∀ m u, m ∈ acquired tr → u ∈ threads σ → m ∉ holds σ u.
Proof.
  unfold may_take. rewrite forallb_forall. split.
  - intros H m u Hm Hu. apply list_elem_of_In, H in Hm.
    rewrite forallb_forall in Hm. apply list_elem_of_In, Hm in Hu.
    by apply bool_decide_eq_true in Hu.
  - intros H m Hm. apply forallb_forall. intros u Hu.
    apply bool_decide_eq_true.
    apply H; by apply list_elem_of_In.
Qed.

Lemma worker_in_threads σ i pc :
  worker_pcs σ !! i = Some pc → WorkerThread i ∈ threads σ.
Proof.
  intros H. unfold threads. right. apply list_elem_of_fmap. exists i.
  split; [done|]. apply elem_of_seq. apply lookup_lt_Some in H. lia.
Qed.

(** The steps of the resizing thread and of the workers keep the two
    invariants; line 81 leads from the first to the second. *)
Lemma resizer_before_relock count k σ σ' :
  count ≤ k →
  before_relock k σ →
  scene_step CreateThread count Resizer σ = Some σ' →
  before_relock k σ' ∨ after_relock k σ'.
Proof.
  intros Hk Hinv. pose proof Hinv as (a & pc & Hq & Hpc & Hns & Hlen & Hslot & Hr).
  unfold scene_step.
  destruct Hr as [Hr|[Hr|[Hr|[[th Hr]|Hr]]]]; rewrite Hr.
  - rewrite SetWorkerCount_step_entry by lia.
    destruct (may_take _ _); intros [= <-]; [|by left].
    left. exists a, pc. cbn. split_and!; [set_solver|done..|auto].
  - rewrite SetWorkerCount_step_while, Hlen, bool_decide_eq_true_2 by lia.
    destruct (may_take _ _); intros [= <-]; [|by left].
    left. exists a, pc. cbn. split_and!; [done..|auto].
  - rewrite SetWorkerCount_step_mark, Hlen.
    destruct (may_take _ _); intros [= <-]; [|by left].
    left. exists a, pc. cbn. split_and!; [|done|done| | |eauto 6].
    + intros Hin%release_elem_of. done.
    + by rewrite length_insert.
    + rewrite list_lookup_insert_ne by lia. done.
  - destruct th as [t|].
    + rewrite SetWorkerCount_step_join.
      destruct (has_returned σ);
        (destruct (may_take _ _); intros [= <-]; [|by left]);
        left; exists a, pc; cbn; split_and!; eauto 6.
    + unfold SetWorkerCount_step, ret. lazy beta iota.
      destruct (may_take _ _); intros [= <-]; [|by left].
      left. exists a, pc. cbn. split_and!; eauto 6.
  - change (SetWorkerCount_step CreateThread count (has_returned σ) (AtRelock (S (S k)))
              (shared σ))
      with (Done [EvLock TaskQueueMutex] (shared σ) (AtErase (S (S k)))).
    lazy beta iota. destruct (may_take _ _) eqn:Hmay; intros [= <-]; [|by left].
    right. exists a, pc. cbn.
    rewrite may_take_spec in Hmay.
    split_and!; [set_solver| |done| |left; done].
    + intros i pci Hi.
      specialize (Hmay TaskQueueMutex (WorkerThread i)). cbn in Hmay.
      rewrite Hi in Hmay. apply Hmay; [set_solver|by eapply worker_in_threads].
    + intros ->. apply Hns. unfold stopping. auto.
Qed.

Lemma resizer_after_relock count k σ σ' :
  count ≤ k →
  after_relock k σ →
  scene_step CreateThread count Resizer σ = Some σ' →
  after_relock k σ' ∧ m_TaskQueue (shared σ') = m_TaskQueue (shared σ).
Proof.
  intros Hk Hinv. pose proof Hinv as (a & pc & Hq & Hfree & Hpc & Hnf & Hr).
  unfold scene_step.
  destruct Hr as [(Hr & Hlen & Hslot)|[([Hr|Hr] & Hlen & Hslot)|(Hr & Hlen)]]; rewrite Hr.
  - rewrite SetWorkerCount_step_erase.
    destruct (may_take _ _); intros [= <-]; [|done].
    split; [|by destruct (shared σ)].
    exists a, pc. cbn. split_and!; [done..|].
    right. left. split; [auto|].
    split.
    + rewrite length_delete; [lia|]. apply lookup_lt_is_Some. lia.
    + rewrite list_lookup_delete_lt by lia. done.
  - rewrite SetWorkerCount_step_while, Hlen, bool_decide_eq_true_2 by lia.
    destruct (may_take _ _); intros [= <-]; [|done].
    split; [|done]. exists a, pc. cbn. split_and!; [done..|]. right. left. auto.
  - rewrite SetWorkerCount_step_mark, Hlen. cbn [Nat.sub]. rewrite Nat.sub_0_r, Hslot.
    destruct (may_take _ _); intros [= <-]; [|done].
    split; [|by destruct (shared σ)].
    exists a, pc. cbn. split_and!; [|done..|].
    + by apply release_other.
    + right. right. split; [done|]. by rewrite length_insert.
  - rewrite SetWorkerCount_step_join.
    assert (has_returned σ = false) as ->.
    { unfold has_returned. rewrite Hr. cbn [Nat.sub]. rewrite Nat.sub_0_r, Hpc.
      apply bool_decide_eq_false_2. congruence. }
    destruct (may_take _ _); intros [= <-]; [|done].
    split; [|done]. exists a, pc. cbn. split_and!; [done..|]. right. right. done.
Qed.


Lemma worker_before_relock count k i σ σ' :
  before_relock k σ →
  scene_step CreateThread count (WorkerThread i) σ = Some σ' →
  before_relock k σ'.
Proof.
  intros Hinv. pose proof Hinv as (a & pc & Hq & Hpc & Hns & Hlen & Hslot & Hr).
  unfold scene_step.
  destruct (worker_pcs σ !! i) as [pci|] eqn:Hi; [|by intros [= <-]].
  destruct (WorkerFn_step i pci (shared σ)) as [tr s' pci'|] eqn:Hstep; [|done].
  apply WorkerFn_step_moves in Hstep.
  destruct (may_take _ _); intros [= <-]; [|done].
  pose proof (worker_moves_pool _ _ _ _ _ _ Hstep) as Hpool.
  destruct (decide (i = k)) as [->|Hne].
  - exists a, pci'. cbn. rewrite Hpool. split_and!; [done| |  |done..].
    + apply list_lookup_insert_eq. by eapply lookup_lt_Some.
    + assert (pci = pc) as -> by congruence.
      eapply worker_moves_present; [done| |done]. apply is_present_true. eauto.
  - exists a, pc. cbn. rewrite Hpool. split_and!; [done| |done..].
    by rewrite list_lookup_insert_ne.
Qed.

Lemma worker_after_relock count k i σ σ' :
  after_relock k σ →
  scene_step CreateThread count (WorkerThread i) σ = Some σ' →
  after_relock k σ' ∧ m_TaskQueue (shared σ') = m_TaskQueue (shared σ).
Proof.
  intros Hinv. pose proof Hinv as (a & pc & Hq & Hfree & Hpc & Hnf & Hr).
  unfold scene_step.
  destruct (worker_pcs σ !! i) as [pci|] eqn:Hi; [|by intros [= <-]].
  destruct (WorkerFn_step i pci (shared σ)) as [tr s' pci'|] eqn:Hstep; [|done].
  apply WorkerFn_step_moves in Hstep.
  destruct (may_take _ _) eqn:Hmay; intros [= <-]; [|done].
  pose proof (worker_moves_pool _ _ _ _ _ _ Hstep) as Hpool.
  assert (TaskQueueMutex ∉ acquired tr) as Hacq.
  { intros Hin. rewrite may_take_spec in Hmay.
    apply (Hmay TaskQueueMutex Resizer); [done|by left|done]. }
  destruct (worker_moves_queue _ _ _ _ _ _ Hstep (Hfree i pci Hi)) as (Hh & Hf & Hqueue).
  split; [|done].
  assert (∀ j pcj, <[i:=pci']> (worker_pcs σ) !! j = Some pcj →
                   TaskQueueMutex ∉ worker_holds pcj) as Hfree'.
  { intros j pcj Hj. destruct (decide (j = i)) as [->|Hne].
    - rewrite list_lookup_insert_eq in Hj by (by eapply lookup_lt_Some).
      injection Hj as <-. tauto.
    - rewrite list_lookup_insert_ne in Hj by done. by eapply Hfree. }
  destruct (decide (i = k)) as [->|Hne].
  - assert (pci = pc) as -> by congruence.
    exists a, pci'. cbn. rewrite Hpool. split_and!; [done|done| |tauto|done].
    apply list_lookup_insert_eq. by eapply lookup_lt_Some.
  - exists a, pc. cbn. rewrite Hpool. split_and!; [done|done| |done|done].
    by rewrite list_lookup_insert_ne.
Qed.

Lemma scene_run_after_relock count k schedule σ σ' :
  count ≤ k →
  after_relock k σ →
  scene_run CreateThread count schedule σ = Some σ' →
  after_relock k σ' ∧ m_TaskQueue (shared σ') = m_TaskQueue (shared σ).
Proof.
  intros Hk. revert σ. induction schedule as [|t schedule IH]; intros σ Hinv; cbn.
  - by intros [= <-].
  - destruct (scene_step CreateThread count t σ) as [σ1|] eqn:Hstep; [|done].
    intros Hrun.
    assert (after_relock k σ1 ∧ m_TaskQueue (shared σ1) = m_TaskQueue (shared σ))
      as [Hinv1 Hq1].
    { destruct t; [by eapply resizer_after_relock|by eapply worker_after_relock]. }
    destruct (IH σ1 Hinv1 Hrun) as [? ?]. split; [done|congruence].
Qed.

Lemma scene_run_before_relock count k schedule σ σ' :
  count ≤ k →
  before_relock k σ →
  scene_run CreateThread count schedule σ = Some σ' →
  before_relock k σ' ∨ after_relock k σ'.
Proof.
  intros Hk. revert σ. induction schedule as [|t schedule IH]; intros σ Hinv; cbn.
  - intros [= <-]. by left.
  - destruct (scene_step CreateThread count t σ) as [σ1|] eqn:Hstep; [|done].
    intros Hrun.
    assert (before_relock k σ1 ∨ after_relock k σ1) as [Hinv1|Hinv1].
    { destruct t; [by eapply resizer_before_relock|left; by eapply worker_before_relock]. }
    + by eapply IH.
    + right. by eapply scene_run_after_relock.
Qed.

(** C2.  [Stop] begins with [SetWorkerCount 0] (line 188).  A
    [SetWorkerCount] that has two workers or more to remove never
    returns, whatever the interleaving of the calling thread and the
    workers: the first turn of the loop of lines 63-83 ends by locking
    the queue mutex (line 81), which is never unlocked; in the second
    turn the worker to be removed has to take that mutex to find its slot
    null (lines 240-241 and 246-247), cannot, and so never returns, and
    [TryJoin] answers false for ever (lines 69-80).  So [Stop], which
    returns only when its [SetWorkerCount 0] has, does not reach its
    loops (lines 190-197) on a pool of two workers or more: from line 81
    on the queue stays as it is, and what is queued is never run. *)
Theorem Stop_blocks_on_the_second_worker count k s a ps pc schedule σ :
  count ≤ k →
  length (m_TaskWorkers s) = S (S k) →
  m_TaskWorkers s !! k = Some (Some a) →
  ps !! k = Some pc →
  ¬ stopping pc →
  scene_run CreateThread count schedule (scene_start s ps) = Some σ →
  (∀ r, resizer σ ≠ Returned r) ∧
  (TaskQueueMutex ∈ resizer_holds σ →
   ∀ more σ', scene_run CreateThread count more σ = Some σ' →
     (∀ r, resizer σ' ≠ Returned r) ∧
     m_TaskQueue (shared σ') = m_TaskQueue (shared σ)) ∧
  (∀ join_attempts tr s',
     Stop CreateThread join_attempts s = Done tr s' () →
     ∃ tr0 s0 r, SetWorkerCount CreateThread join_attempts 0 s = Done tr0 s0 r ∧
                 tr0 `prefix_of` tr).
Proof.
  intros Hk Hlen Hslot Hpc Hns Hrun.
  assert (before_relock k (scene_start s ps)) as Hstart.
  { exists a, pc. cbn. split_and!; [set_solver|done..|auto]. }
  assert (∀ σ0 : @Scene ThreadManager,
            before_relock k σ0 ∨ after_relock k σ0 → ∀ r, resizer σ0 ≠ Returned r) as Hnot.
  { intros σ0 [(? & ? & _ & _ & _ & _ & _ & Hr)|(? & ? & _ & _ & _ & _ & Hr)] r E;
      rewrite E in Hr; naive_solver. }
  pose proof (scene_run_before_relock _ _ _ _ _ Hk Hstart Hrun) as Hinv.
  split_and!; [by apply Hnot| |].
  - intros Hheld more σ' Hmore.
    destruct Hinv as [(? & ? & Hfree & _)|Hinv]; [done|].
    destruct (scene_run_after_relock _ _ _ _ _ Hk Hinv Hmore) as [Hinv' Hqueue].
    split; [|done]. apply Hnot. by right.
  - intros join_attempts tr s'. unfold Stop. unfold bind at 1.
    destruct (SetWorkerCount CreateThread join_attempts 0 s) as [tr0 s0 r|]; [|done].
    match goal with
    | |- match ?rest with _ => _ end = _ → _ => destruct rest as [tr1 s1 []|]; [|done]
    end.
    intros [= <- <-]. exists tr0, s0, r. split; [done|]. by exists tr1.
Qed.

End Interleaving.

(** ** The provisioning binding *)

Section Rebinding.

Context {ThreadManager : Type}.
Implicit Types (s : @State ThreadManager).

Variable ThreadManagerUUID : nat.

Lemma OnNewManager_bound iface s :
  GetInterfaceUUID iface = ThreadManagerUUID →
  OnNewManager ThreadManagerUUID (Some iface) s
  = Done [EvLockShared TaskWorkersMutex;
          EvDisconnect OnManagerActivationHandler;
          EvConnect OnManagerActivationHandler (ActivationEvent (InterfaceId iface));
          EvDisconnect OnNewManagerHandler;
          EvUnlockShared TaskWorkersMutex]
      (set_OnNewManager []
         (set_OnManagerActivation [ActivationEvent (InterfaceId iface)]
            (set_ThreadManager (InterfaceId iface) s))) ().
Proof.
  intros Hu. unfold OnNewManager. run_step.
  by rewrite bool_decide_eq_false_2 by (by intros ?).
Qed.

Lemma OnNewManager_ignored newInterface s :
  (∀ iface, newInterface = Some iface → GetInterfaceUUID iface ≠ ThreadManagerUUID) →
  OnNewManager ThreadManagerUUID newInterface s
  = Done [EvLockShared TaskWorkersMutex; EvUnlockShared TaskWorkersMutex] s ().
Proof.
  intros H. unfold OnNewManager. run_step. destruct newInterface as [iface|]; [|done].
  by rewrite bool_decide_eq_true_2 by (by apply H).
Qed.

(** C9.  A notification that the manager is no longer active and names a
    replacement (the branch the source calls change of ThreadManager, as
    opposed to the one without a replacement) rebinds the scheduler: the
    handler disconnects from the old activation event, connects to that
    of the replacement and stores the replacement as its manager.  The
    registration with the host is not touched, so a bound scheduler does
    not pass through the unbound state.  It is so too when the
    notification comes through the event the scheduler is registered
    with. *)
Theorem replacement_rebinds_directly oldInterface newThreadMgr s :
  OnManagerActivation false oldInterface (Some newThreadMgr) s
  = Done [EvLockShared TaskWorkersMutex;
          EvDisconnect OnManagerActivationHandler;
          EvConnect OnManagerActivationHandler (ActivationEvent (InterfaceId newThreadMgr));
          EvUnlockShared TaskWorkersMutex]
      (set_ThreadManager (InterfaceId newThreadMgr)
         (set_OnManagerActivation [ActivationEvent (InterfaceId newThreadMgr)] s)) () ∧
  (∀ current,
     m_OnManagerActivation s = [ActivationEvent current] → m_OnNewManager s = [] →
     ∃ tr s',
       deliver ThreadManagerUUID
         (ActivationNotice current false oldInterface (Some newThreadMgr)) s
       = Done tr s' () ∧
       m_ThreadManager s' = InterfaceId newThreadMgr ∧
       subscriptions s' = ([ActivationEvent (InterfaceId newThreadMgr)], []) ∧
       (∀ e, e ∈ tr → ∀ h src, e = EvConnect h src → h = OnManagerActivationHandler) ∧
       (∀ e, e ∈ tr → e ≠ EvDisconnect OnNewManagerHandler)).
Proof.
  split; [done|]. intros current Hact Hnew.
  eexists _, _. split.
  - unfold deliver, bind, gets. rewrite Hact.
    rewrite bool_decide_eq_true_2 by set_solver.
    rewrite OnManagerActivation_change. done.
  - split_and!; [done|by unfold subscriptions; cbn; rewrite Hnew| |].
    + intros e He h src ->. set_solver.
    + intros e He ->. set_solver.
Qed.

(** What a delivered notification does to the subscriptions. *)
Lemma deliver_spec n s tr s' :
  at_most_one (subscriptions s) = true →
  deliver ThreadManagerUUID n s = Done tr s' () →
  at_most_one (subscriptions s') = true ∧
  subscriptions_after (subscriptions s) tr = subscriptions s' ∧
  connect_follows_disconnect None tr = true ∧
  connects_fresh (subscriptions s) tr = true ∧
  (∀ iface a o i, n = ActivationNotice iface a o i →
                  always_at_most_one (subscriptions s) tr = true).
Proof.
  intros Hone Hrun. destruct n as [iface active old new|host new].
  - unfold deliver, bind, gets in Hrun.
    case_bool_decide as Hreg; cycle 1.
    { cbn in Hrun. simplify_eq. split_and!; [done..|]. intros. cbn. by rewrite Hone. }
    pose proof (at_most_one_bound s _ Hone Hreg) as Hnew.
    assert (∃ x, m_OnManagerActivation s = [x]) as [x Hact].
    { unfold at_most_one, subscriptions in Hone. apply bool_decide_eq_true in Hone.
      cbn in Hone. destruct (m_OnManagerActivation s) as [|x [|y l]]; cbn in Hone;
        [set_solver|eauto|lia]. }
    assert (∃ tr0, match OnManagerActivation active old new s with
                   | Done tr s' a => Done tr s' a
                   | Abort msg => Abort msg
                   end = Done tr0 s' () ∧ tr = [] ++ tr0) as (tr0 & Hrun0 & ->).
    { destruct (OnManagerActivation active old new s); simplify_eq. eauto. }
    clear Hrun. cbn [app].
    destruct active.
    { rewrite OnManagerActivation_active in Hrun0. simplify_eq.
      split_and!; [done..|]. intros. cbn. by rewrite Hone. }
    destruct new as [newMgr|].
    { rewrite OnManagerActivation_change in Hrun0. simplify_eq.
      unfold subscriptions, at_most_one. cbn. rewrite Hnew, Hact.
      by split_and!. }
    destruct old as [old|]; [|done].
    destruct (GetLibrary old) as [lib|] eqn:Hlib; cycle 1.
    { unfold OnManagerActivation in Hrun0. revert Hrun0. run_step. by rewrite Hlib. }
    destruct (GetApplication lib) as [host|] eqn:Happ; cycle 1.
    { unfold OnManagerActivation in Hrun0. revert Hrun0. run_step.
      by rewrite Hlib, Happ. }
    rewrite (OnManagerActivation_deactivated old lib host) in Hrun0 by done.
    simplify_eq. unfold subscriptions, at_most_one. cbn. rewrite Hnew, Hact.
    by split_and!.
  - unfold deliver, bind, gets in Hrun.
    case_bool_decide as Hreg; cycle 1.
    { cbn in Hrun. simplify_eq. by split_and!. }
    pose proof (at_most_one_unbound s _ Hone Hreg) as Hact.
    assert (∃ tr0, match OnNewManager ThreadManagerUUID new s with
                   | Done tr s' a => Done tr s' a
                   | Abort msg => Abort msg
                   end = Done tr0 s' () ∧ tr = [] ++ tr0) as (tr0 & Hrun0 & ->).
    { destruct (OnNewManager ThreadManagerUUID new s); simplify_eq. eauto. }
    clear Hrun. cbn [app].
    assert ((∃ iface, new = Some iface ∧ GetInterfaceUUID iface = ThreadManagerUUID) ∨
            (∀ iface, new = Some iface → GetInterfaceUUID iface ≠ ThreadManagerUUID))
      as [(iface & -> & Hu)|Hno].
    { destruct new as [iface|]; [|by right].
      destruct (decide (GetInterfaceUUID iface = ThreadManagerUUID)); [left; eauto|right].
      by intros ? [= <-]. }
    + rewrite OnNewManager_bound in Hrun0 by done. simplify_eq.
      unfold subscriptions, at_most_one. cbn. rewrite Hact. by split_and!.
    + rewrite OnNewManager_ignored in Hrun0 by done. simplify_eq.
      by split_and!.
Qed.

Lemma deliver_all_spec ns s tr s' :
  at_most_one (subscriptions s) = true →
  for_each ns (deliver ThreadManagerUUID) s = Done tr s' () →
  at_most_one (subscriptions s') = true.
Proof.
  revert s tr. induction ns as [|n ns IH]; intros s tr Hone Hrun.
  { cbn in Hrun. unfold ret in Hrun. by simplify_eq. }
  cbn [for_each] in Hrun. unfold bind in Hrun.
  destruct (deliver ThreadManagerUUID n s) as [tr1 s1 []|] eqn:Hd; [|done].
  destruct (for_each ns (deliver ThreadManagerUUID) s1) as [tr2 s2 []|] eqn:Hrest; [|done].
  simplify_eq. eapply IH; [|done].
  by destruct (deliver_spec n s tr1 s1 Hone Hd).
Qed.

Variable CreateThread : ThreadManager → ThreadConfig → TResult Thread * ThreadManager.
Variable join_attempts : Thread → nat.

Lemma construction_spec threadMgr name workerCount allowGrowth h ms tr s :
  construction CreateThread join_attempts threadMgr name workerCount allowGrowth h ms
  = Done tr s () →
  subscriptions s = ([ActivationEvent threadMgr], []) ∧
  ∃ tr', tr = EvConnect OnManagerActivationHandler (ActivationEvent threadMgr) :: tr'.
Proof.
  unfold construction. case_bool_decide as Hm; [done|].
  unfold Connect, bind, emit, modify. cbn -[SetWorkerCount].
  match goal with
  | |- context [SetWorkerCount _ _ _ ?s0] =>
      destruct (SetWorkerCount CreateThread join_attempts workerCount s0)
        as [tr0 s1 r|] eqn:Hrun; [|done]
  end.
  apply SetWorkerCount_resizes in Hrun. intros Heq. simplify_eq.
  split; [|eauto]. unfold subscriptions. rewrite Hrun. done.
Qed.

(** The constructor leaves queue and pool empty. *)
Lemma construction_wf threadMgr name workerCount allowGrowth h ms tr s :
  construction CreateThread join_attempts threadMgr name workerCount allowGrowth h ms
  = Done tr s () →
  wf s ∧ m_TaskQueue s = [] ∧ m_FreeTaskPool s = [].
Proof.
  unfold construction. case_bool_decide as Hm; [done|].
  unfold Connect, bind, emit, modify. cbn -[SetWorkerCount].
  match goal with
  | |- context [SetWorkerCount _ _ _ ?s0] =>
      destruct (SetWorkerCount CreateThread join_attempts workerCount s0)
        as [tr0 s1 r|] eqn:Hrun; [|done]
  end.
  apply SetWorkerCount_resizes in Hrun. intros Heq. simplify_eq.
  unfold wf. rewrite Hrun. cbn. split_and!; [constructor|constructor|constructor|done|done].
Qed.

(** C7, as amended.  The constructor connects the activation handler,
    which has no registration yet, and leaves that one registration.
    Notifications reach a handler only through a registration; whatever
    notifications are delivered, at most one registration is left after
    each.  Every [Connect] a notification causes directly follows a
    [Disconnect] of the same handler and finds the handler without a
    registration, and along [OnManagerActivation] there is at most one
    registration after every statement.  Not so along [OnNewManager]:
    it connects the activation handler before it disconnects the
    registration with the host, and both are registered in between. *)
Theorem subscriptions_one_between_notifications :
  (∀ threadMgr name workerCount allowGrowth h ms tr s,
     construction CreateThread join_attempts threadMgr name workerCount allowGrowth h ms
     = Done tr s () →
     subscriptions s = ([ActivationEvent threadMgr], []) ∧
     ∃ tr', tr = EvConnect OnManagerActivationHandler (ActivationEvent threadMgr) :: tr') ∧
  (∀ ns s tr s',
     at_most_one (subscriptions s) = true →
     for_each ns (deliver ThreadManagerUUID) s = Done tr s' () →
     at_most_one (subscriptions s') = true) ∧
  (∀ n s tr s',
     at_most_one (subscriptions s) = true →
     deliver ThreadManagerUUID n s = Done tr s' () →
     connect_follows_disconnect None tr = true ∧
     connects_fresh (subscriptions s) tr = true ∧
     subscriptions_after (subscriptions s) tr = subscriptions s' ∧
     (∀ iface a o i, n = ActivationNotice iface a o i →
                     always_at_most_one (subscriptions s) tr = true)) ∧
  (∀ host iface s,
     subscriptions s = ([], [OnInterfaceActivationEvent host]) →
     GetInterfaceUUID iface = ThreadManagerUUID →
     ∃ tr s',
       deliver ThreadManagerUUID (NewInterfaceNotice host (Some iface)) s = Done tr s' () ∧
       subscriptions_after (subscriptions s) (take 3 tr)
       = ([ActivationEvent (InterfaceId iface)], [OnInterfaceActivationEvent host]) ∧
       subscriptions s' = ([ActivationEvent (InterfaceId iface)], [])).
Proof.
  split_and!.
  - apply construction_spec.
  - apply deliver_all_spec.
  - intros n s tr s' Hone Hrun.
    by destruct (deliver_spec n s tr s' Hone Hrun) as (_ & ? & ? & ? & ?).
  - intros host iface s Hsub Hu.
    assert (m_OnNewManager s = [OnInterfaceActivationEvent host]) as Hnew.
    { unfold subscriptions in Hsub. by injection Hsub. }
    eexists _, _. split_and!.
    + unfold deliver, bind, gets. rewrite Hnew.
      rewrite bool_decide_eq_true_2 by set_solver.
      rewrite OnNewManager_bound by done. done.
    + rewrite Hsub. done.
    + done.
Qed.

End Rebinding.

(** ** The size of the pool and the growth flag *)

Section Counting.

Context {ThreadManager : Type}.
Implicit Types (s : @State ThreadManager).
Variable join_attempts : Thread → nat.
Variable CreateThread : ThreadManager → ThreadConfig → TResult Thread * ThreadManager.

Lemma shrink_loop_flag fuel count enable s :
  shrink_loop join_attempts fuel count (set_AllowGrowth enable s)
  = match shrink_loop join_attempts fuel count s with
    | Done tr s' a => Done tr (set_AllowGrowth enable s') a
    | Abort msg => Abort msg
    end.
Proof.
  revert s. induction fuel as [|fuel IH]; intros s.
  - cbn. run_step. by case_bool_decide.
  - cbn [shrink_loop]. run_step. case_bool_decide; [|done].
    rewrite !join_loop_spec. cbn.
    match goal with
    | |- context [shrink_loop _ fuel count
                    (set_TaskWorkers ?a (set_TaskWorkers ?b (set_AllowGrowth _ _)))] =>
        change (set_TaskWorkers a (set_TaskWorkers b (set_AllowGrowth enable s)))
          with (set_AllowGrowth enable (set_TaskWorkers a (set_TaskWorkers b s)))
    end.
    rewrite IH. by destruct (shrink_loop _ _ _ _).
Qed.

(** X1.  [SetWorkerCount] reports success exactly when the pool has the
    size asked for by the time it returns.  A call that fails has not
    shrunk the pool: the old pool is a prefix of the new one, which is
    still short of the target.  Whatever the result, the call changes
    nothing but the pool and the state of the managers and runs no task,
    and a [GetWorkerCount] that follows returns the size of the pool. *)
Theorem SetWorkerCount_success_is_the_count count s tr s' r :
  SetWorkerCount CreateThread join_attempts count s = Done tr s' r →
  (HasFailed r = false ↔ length (m_TaskWorkers s') = count) ∧
  (HasFailed r = true →
     length (m_TaskWorkers s) ≤ length (m_TaskWorkers s') < count ∧
     m_TaskWorkers s `prefix_of` m_TaskWorkers s') ∧
  resized s s' ∧
  executed tr = [] ∧
  result_of (GetWorkerCount s') = Some (length (m_TaskWorkers s')).
Proof.
  intros Hrun.
  assert (result_of (GetWorkerCount s') = Some (length (m_TaskWorkers s'))) as Hget by done.
  destruct (decide (length (m_TaskWorkers s) = count)) as [Heq|Hne].
  { rewrite SetWorkerCount_same in Hrun by done. simplify_eq.
    split_and!; [done|done|apply resized_refl|done|done]. }
  destruct (decide (count < length (m_TaskWorkers s))) as [Hlt|Hge].
  { destruct (SetWorkerCount_shrink join_attempts CreateThread count s Hlt) as (tr0 & Heq & He & _).
    rewrite Heq in Hrun. simplify_eq.
    split_and!; [|done| |done|done].
    - split; [intros _|done]. cbn. rewrite length_take. lia.
    - unfold resized. by destruct s. }
  destruct (m_AllowGrowth s) eqn:Hg; cycle 1.
  { rewrite SetWorkerCount_growth_disabled in Hrun by (done || lia). simplify_eq.
    split_and!; [|intros _; split; [lia|done]|apply resized_refl|done|done].
    split; [done|lia]. }
  destruct (managers s !! m_ThreadManager s) as [tm|] eqn:Hm; cycle 1.
  { rewrite SetWorkerCount_expired in Hrun by (done || lia). simplify_eq.
    split_and!; [|intros _; split; [lia|done]|apply resized_refl|done|done].
    split; [done|lia]. }
  destruct (SetWorkerCount_grow join_attempts CreateThread count s tm)
    as (tr0 & s0 & r0 & Heq & Hres & Hws & Hex & Hcase); [lia|done|done|].
  rewrite Heq in Hrun. simplify_eq.
  split_and!; [| |done|done|done].
  - destruct Hcase as [(-> & Hlen & _)|(trp & cfg & msg & _ & -> & Hlen & _)]; [done|].
    split; [done|lia].
  - intros Hf. split; [|rewrite Hws; by eexists].
    destruct Hcase as [(-> & _)|(trp & cfg & msg & _ & -> & Hlen & _)]; [done|].
    rewrite Hws, length_app in *. lia.
Qed.


(** X2.  [EnableGrowth] writes the flag and nothing else, and
    [IsGrowthEnabled] reads it back.  The flag matters to growth only: a
    [SetWorkerCount] to the current size or below does the same whatever
    the flag, and with the flag off every call above the current size
    returns [GrowthDisabled], asks for no thread and leaves the scheduler
    as it is. *)
Theorem growth_flag_gates_growth_only enable s :
  EnableGrowth enable s
  = Done [EvLock TaskWorkersMutex; EvUnlock TaskWorkersMutex] (set_AllowGrowth enable s) () ∧
  IsGrowthEnabled (set_AllowGrowth enable s)
  = Done [EvLockShared TaskWorkersMutex; EvUnlockShared TaskWorkersMutex]
      (set_AllowGrowth enable s) enable ∧
  (∀ count, count ≤ length (m_TaskWorkers s) →
     SetWorkerCount CreateThread join_attempts count (set_AllowGrowth enable s)
     = match SetWorkerCount CreateThread join_attempts count s with
       | Done tr s' r => Done tr (set_AllowGrowth enable s') r
       | Abort msg => Abort msg
       end) ∧
  (∀ count tr s' r,
     length (m_TaskWorkers s) < count →
     SetWorkerCount CreateThread join_attempts count (set_AllowGrowth false s) = Done tr s' r →
     r = GrowthDisabled ∧ s' = set_AllowGrowth false s ∧ creation_results tr = []).
Proof.
  split_and!; [done|done| |].
  - intros count Hle. unfold SetWorkerCount. run_step.
    case_bool_decide as Heq; [done|]. cbn.
    rewrite bool_decide_eq_false_2 by lia.
    rewrite shrink_loop_flag.
    by destruct (shrink_loop _ _ _ _) as [? ? []|].
  - intros count tr s' r Hlt Hrun.
    rewrite SetWorkerCount_growth_disabled in Hrun by done. by simplify_eq.
Qed.

End Counting.

(** ** The threads a resize asks for *)

Section Growing.

Context {ThreadManager : Type}.
Implicit Types (s : @State ThreadManager).
Variable join_attempts : Thread → nat.
Variable CreateThread : ThreadManager → ThreadConfig → TResult Thread * ThreadManager.

Lemma creations_app tr1 tr2 : creations (tr1 ++ tr2) = creations tr1 ++ creations tr2.
Proof. apply omap_app. Qed.

Lemma grow_loop_creations mgr n i s tr s' r :
  grow_loop CreateThread mgr n i s = Done tr s' r →
  i = length (m_TaskWorkers s) →
  length (creations tr) ≤ n ∧
  ∀ k cfg res, creations tr !! k = Some (cfg, res) →
    cfg = worker_config (m_Name s) (i + k) ∧
    ∀ th, res = Success th → m_TaskWorkers s' !! (i + k) = Some (Some th).
Proof.
  revert i s tr s' r. induction n as [|n IH]; intros i s tr s' r Hrun Hi.
  { cbn in Hrun. unfold ret in Hrun. simplify_eq. split; [done|]. by intros []. }
  revert Hrun. cbn [grow_loop]. unfold CreateThread_via. run_step.
  destruct (managers s !! mgr) as [tm|] eqn:Hm; [|done]. cbn.
  destruct (CreateThread tm _) as [[th|msg] tm'] eqn:Hc; run_step.
  - match goal with
    | |- context [grow_loop _ mgr n (S i) ?s1] =>
        destruct (grow_loop CreateThread mgr n (S i) s1) as [tr1 s2 r1|] eqn:Hrest; [|done];
          destruct (IH (S i) s1 tr1 s2 r1 Hrest) as [Hlen Hk];
          [cbn; rewrite length_app; cbn; lia|];
          destruct (grow_loop_spec CreateThread mgr n (S i) s1 tm')
            as (tr1' & s2' & r1' & Heq & _ & Hws & _); [cbn; apply lookup_insert_eq|]
    end.
    rewrite Hrest in Heq. injection Heq as <- <- <-. cbn in Hws.
    intros [= <- <- <-]. unfold creations in *. cbn. split; [lia|].
    intros [|k] cfg res Hlook; cbn in Hlook.
    + injection Hlook as <- <-. rewrite Nat.add_0_r. split; [done|].
      intros th0 [= <-]. rewrite Hws, <-app_assoc. cbn. by rewrite list_lookup_middle.
    + destruct (Hk k cfg res Hlook) as [Hcfg Hslot]. cbn in Hcfg.
      rewrite <-Nat.add_succ_comm. split; [done|]. done.
  - intros [= <- <- <-]. cbn. split; [lia|].
    intros [|k] cfg res Hlook; cbn in Hlook; [|done].
    injection Hlook as <- <-. rewrite Nat.add_0_r. split; [done|]. done.
Qed.


(** X3.  The [k]-th thread that a [SetWorkerCount] asks for is meant for
    slot [size + k] of the pool: it is asked for under the name of the
    scheduler, read as a C string and so up to its first NUL, followed by
    [_] and that index in decimal, with the closure that runs [WorkerFn]
    with that index as worker id, and when it is created it is kept in
    that slot.  The call makes at most [count - size] requests. *)
Theorem workers_are_created_for_their_slots count s tr s' r :
  SetWorkerCount CreateThread join_attempts count s = Done tr s' r →
  length (creations tr) ≤ count - length (m_TaskWorkers s) ∧
  ∀ k cfg res, creations tr !! k = Some (cfg, res) →
    cfg = worker_config (m_Name s) (length (m_TaskWorkers s) + k) ∧
    Name cfg = (c_str (m_Name s) +:+ "_" +:+ pretty (length (m_TaskWorkers s) + k))%string ∧
    ThreadFN cfg = length (m_TaskWorkers s) + k ∧
    ∀ th, res = Success th →
      m_TaskWorkers s' !! (length (m_TaskWorkers s) + k) = Some (Some th).
Proof.
  intros Hrun.
  enough (length (creations tr) ≤ count - length (m_TaskWorkers s) ∧
          ∀ k cfg res, creations tr !! k = Some (cfg, res) →
            cfg = worker_config (m_Name s) (length (m_TaskWorkers s) + k) ∧
            ∀ th, res = Success th →
              m_TaskWorkers s' !! (length (m_TaskWorkers s) + k) = Some (Some th))
    as [Hle Hall].
  { split; [done|]. intros k cfg res Hk. destruct (Hall k cfg res Hk) as [-> Hth].
    by split_and!. }
  assert (creation_results tr = [] → creations tr = []) as Hnone.
  { unfold creation_results, creations. clear.
    induction tr as [|[] tr IH]; cbn; try done. }
  destruct (decide (length (m_TaskWorkers s) = count)) as [Heq|Hne].
  { rewrite SetWorkerCount_same in Hrun by done. simplify_eq. split; [cbn; lia|]. by intros []. }
  destruct (decide (count < length (m_TaskWorkers s))) as [Hlt|Hge].
  { destruct (SetWorkerCount_shrink join_attempts CreateThread count s Hlt) as (tr0 & Heq & _ & Hc).
    rewrite Heq in Hrun. simplify_eq. rewrite (Hnone Hc). split; [cbn; lia|]. by intros []. }
  destruct (m_AllowGrowth s) eqn:Hg; cycle 1.
  { rewrite SetWorkerCount_growth_disabled in Hrun by (done || lia). simplify_eq.
    split; [cbn; lia|]. by intros []. }
  destruct (managers s !! m_ThreadManager s) as [tm|] eqn:Hm; cycle 1.
  { rewrite SetWorkerCount_expired in Hrun by (done || lia). simplify_eq.
    split; [cbn; lia|]. by intros []. }
  revert Hrun. unfold SetWorkerCount, add_workers. run_step.
  rewrite bool_decide_eq_false_2 by lia. cbn.
  rewrite bool_decide_eq_true_2 by lia.
  rewrite Hg. cbn. rewrite bool_decide_eq_false_2 by (by rewrite Hm).
  destruct (grow_loop CreateThread (m_ThreadManager s) (count - length (m_TaskWorkers s))
              (length (m_TaskWorkers s)) s) as [tr0 s0 r0|] eqn:Hgrow; [|done].
  cbn. intros [= <- <- <-].
  destruct (grow_loop_creations _ _ _ _ _ _ _ Hgrow eq_refl) as [Hlen Hk].
  assert (creations (tr0 ++ [EvUnlock TaskWorkersMutex]) = creations tr0) as Hc
    by (rewrite creations_app; cbn; by rewrite app_nil_r).
  unfold creations in *. cbn. rewrite Hc. done.
Qed.

End Growing.

(** ** Construction *)

Section Constructing.

Context {ThreadManager : Type}.
Implicit Types (s : @State ThreadManager).
Variable join_attempts : Thread → nat.
Variable CreateThread : ThreadManager → ThreadConfig → TResult Thread * ThreadManager.

(** X4.  The constructor ends the process on a manager that has expired.
    On a live one it returns whether or not the workers could be created,
    the result of its [SetWorkerCount] being dropped: the scheduler is
    bound to the manager and registered with its activation event, queue
    and pool are empty, the growth flag is [allowGrowth] (it is true
    while the workers are created, and set afterwards), and the pool
    holds the threads that were created, in order; these are
    [workerCount] threads exactly when no request failed. *)
Theorem construction_keeps_what_it_could_create threadMgr name workerCount allowGrowth h ms :
  (ms !! threadMgr = None →
   ∃ msg, construction CreateThread join_attempts threadMgr name workerCount allowGrowth h ms
          = Abort msg) ∧
  (∀ tm, ms !! threadMgr = Some tm →
   ∃ tr s,
     construction CreateThread join_attempts threadMgr name workerCount allowGrowth h ms
     = Done tr s () ∧
     m_ThreadManager s = threadMgr ∧ m_Name s = name ∧
     m_AllowGrowth s = allowGrowth ∧
     subscriptions s = ([ActivationEvent threadMgr], []) ∧
     m_TaskQueue s = [] ∧ m_FreeTaskPool s = [] ∧ heap s = h ∧
     m_TaskWorkers s = Some <$> created_threads tr ∧
     length (m_TaskWorkers s) ≤ workerCount ∧
     (length (m_TaskWorkers s) = workerCount ↔
      Forall (λ c, HasFailed c = false) (creation_results tr))).
Proof.
  split.
  - intros Hm. unfold construction. rewrite bool_decide_eq_true_2 by done. by eexists.
  - intros tm Hm. unfold construction. rewrite bool_decide_eq_false_2 by (by rewrite Hm).
    unfold Connect, bind, emit, modify. cbn -[SetWorkerCount].
    match goal with
    | |- context [SetWorkerCount _ _ _ ?s0] => set (s1 := s0)
    end.
    destruct (decide (workerCount = 0)) as [->|Hpos].
    + rewrite SetWorkerCount_same by done. cbn.
      eexists _, _. split; [reflexivity|]. cbn. by split_and!.
    + destruct (SetWorkerCount_grow join_attempts CreateThread workerCount s1 tm)
        as (tr & s2 & r & Heq & Hres & Hws & _ & Hcase); [cbn; lia|done|done|].
      rewrite Heq. cbn.
      eexists _, _. split; [reflexivity|].
      unfold resized in Hres. cbn in Hws.
      assert (∀ tr0, created_threads
                (EvConnect OnManagerActivationHandler (ActivationEvent threadMgr) :: tr0 ++ [])
              = created_threads tr0) as Hct by (intros tr0; by rewrite app_nil_r).
      assert (∀ tr0, creation_results
                (EvConnect OnManagerActivationHandler (ActivationEvent threadMgr) :: tr0 ++ [])
              = creation_results tr0) as Hcr by (intros tr0; by rewrite app_nil_r).
      rewrite Hct, Hcr, Hres. cbn. rewrite Hws.
      split_and!; try done.
      * destruct Hcase as [(_ & Hlen & _)|(_ & _ & _ & _ & _ & Hlen & _)];
          rewrite Hws in Hlen; cbn in Hlen; lia.
      * destruct Hcase as [(_ & Hlen & Hall)|(trp & cfg & msg & -> & _ & Hlen & _)].
        -- rewrite Hws in Hlen. done.
        -- rewrite Hws in Hlen. cbn in Hlen. split; [lia|].
           unfold creation_results. rewrite omap_app. cbn.
           rewrite Forall_app, Forall_singleton. by intros [_ ?].
Qed.

End Constructing.

(** ** Reuse of task storage *)

Section Recycling.

Context {ThreadManager : Type}.
Implicit Types (s : @State ThreadManager).

Lemma allocated_observes tr :
  Forall (λ e, e = EvWorkers Observe) tr → allocated tr = [].
Proof. induction 1 as [|e tr -> _ IH]; [done|]. exact IH. Qed.

Lemma AddTask_fresh task s :
  any_worker (m_TaskWorkers s) = true →
  m_FreeTaskPool s = [] →
  ∃ tr,
    AddTask task s
    = Done tr (submitted task (fresh (dom (heap s))) [] s) CreateSuccess ∧
    allocated tr = [fresh (dom (heap s))].
Proof.
  intros Hany Epool. unfold AddTask.
  destruct (AreThereAnyAvailableWorker_spec s) as (tr0 & Ha & Hobs).
  unfold bind at 1. unfold emit at 1. unfold bind at 1.
  rewrite Ha, Hany. cbn [negb].
  unfold AllocT, construct. run_step. rewrite Epool. cbn.
  rewrite lookup_insert_eq. cbn. rewrite insert_insert_eq.
  eexists. split.
  - f_equal. unfold submitted. rewrite <-Epool. by destruct s.
  - unfold allocated. cbn. rewrite omap_app.
    fold (allocated tr0). rewrite (allocated_observes _ Hobs). done.
Qed.

Lemma AddTask_reuse task s pool p v :
  any_worker (m_TaskWorkers s) = true →
  m_FreeTaskPool s = pool ++ [p] →
  heap s !! p = Some v →
  ∃ tr,
    AddTask task s = Done tr (submitted task p pool s) CreateSuccess ∧
    allocated tr = [].
Proof.
  intros Hany Epool Hp. unfold AddTask.
  destruct (AreThereAnyAvailableWorker_spec s) as (tr0 & Ha & Hobs).
  unfold bind at 1. unfold emit at 1. unfold bind at 1.
  rewrite Ha, Hany. cbn [negb].
  unfold construct. run_step. rewrite Epool, back_snoc, pop_back_snoc. cbn.
  rewrite Hp. cbn.
  eexists. split; [done|].
  unfold allocated. cbn. rewrite omap_app.
  fold (allocated tr0). rewrite (allocated_observes _ Hobs). done.
Qed.

(** X5.  [AddTask] takes storage from the allocator only when the free
    pool is empty; the storage is then fresh.  Otherwise it takes the
    storage at the back of the pool and allocates nothing, so that the
    memory in use does not grow.  The storage of a task that a worker has
    run goes to the back of the pool and is the one the next submission
    uses. *)
Theorem AddTask_recycles_storage task s :
  any_worker (m_TaskWorkers s) = true →
  wf s →
  (m_FreeTaskPool s = [] →
   ∃ tr s' p,
     AddTask task s = Done tr s' CreateSuccess ∧
     allocated tr = [p] ∧ heap s !! p = None ∧
     m_TaskQueue s' = m_TaskQueue s ++ [p] ∧ m_FreeTaskPool s' = [] ∧
     dom (heap s') = {[p]} ∪ dom (heap s)) ∧
  (∀ pool p, m_FreeTaskPool s = pool ++ [p] →
   ∃ tr s',
     AddTask task s = Done tr s' CreateSuccess ∧
     allocated tr = [] ∧
     m_TaskQueue s' = m_TaskQueue s ++ [p] ∧ m_FreeTaskPool s' = pool ∧
     dom (heap s') = dom (heap s)) ∧
  (∀ id p t, heap s !! p = Some (Some t) →
   ∃ tr1 s1 tr2 s2,
     WorkerFn_step id (AtTaskWork (Some p)) s = Done tr1 s1 AtLoopHead ∧
     executed tr1 = [t] ∧
     m_FreeTaskPool s1 = m_FreeTaskPool s ++ [p] ∧
     AddTask task s1 = Done tr2 s2 CreateSuccess ∧
     allocated tr2 = [] ∧
     m_TaskQueue s2 = m_TaskQueue s ++ [p] ∧
     m_FreeTaskPool s2 = m_FreeTaskPool s ∧
     task_at s2 p = Some task ∧
     dom (heap s2) = dom (heap s)).
Proof.
  intros Hany (Hnd & Hq & Hp). split_and!.
  - intros Epool. destruct (AddTask_fresh task s Hany Epool) as (tr & Heq & Hal).
    eexists _, _, _. split_and!; [done|done| |done|done|].
    + apply not_elem_of_dom, is_fresh.
    + cbn. by rewrite dom_insert_L.
  - intros pool p Epool.
    assert (heap s !! p = Some None) as Hraw.
    { rewrite Epool, Forall_app, Forall_singleton in Hp. by destruct Hp. }
    destruct (AddTask_reuse task s pool p _ Hany Epool Hraw) as (tr & Heq & Hal).
    eexists _, _. split_and!; [done|done|done|done|].
    cbn. rewrite dom_insert_L.
    apply elem_of_dom_2 in Hraw. set_solver.
  - intros id p t Ht.
    rewrite (WorkerFn_step_work id p t s Ht).
    match goal with
    | |- context [Done ?tr ?s1 AtLoopHead] =>
        destruct (AddTask_reuse task s1 (m_FreeTaskPool s) p None) as (tr2 & Heq & Hal);
          [done|done|cbn; apply lookup_insert_eq|]
    end.
    eexists _, _, _, _. split; [done|]. split_and!; [done|done|done|done|done|done| |].
    + by rewrite task_at_submitted, decide_True.
    + cbn. rewrite !dom_insert_L. apply elem_of_dom_2 in Ht. set_solver.
Qed.

End Recycling.

(** ** Locking in pairs *)

Section Balance.

Context {ThreadManager : Type}.
Implicit Types (s : @State ThreadManager).
Variable join_attempts : Thread → nat.
Variable CreateThread : ThreadManager → ThreadConfig → TResult Thread * ThreadManager.
Variable ThreadManagerUUID : nat.

Lemma lock_use_ok_app held tr1 tr2 :
  lock_use_ok held (tr1 ++ tr2)
  = lock_use_ok held tr1 && lock_use_ok (held_after held tr1) tr2.
Proof.
  revert held. induction tr1 as [|e tr1 IH]; intros held; [done|].
  cbn. by rewrite IH, andb_assoc.
Qed.

Lemma lock_use_ok_lockfree held tr :
  Forall (λ e, is_lock_op e = false) tr → lock_use_ok held tr = true.
Proof.
  induction 1 as [|e tr He _ IH]; [done|]. cbn.
  destruct e; try done; exact IH.
Qed.

Lemma AddTask_balanced task s : balanced (trace_of (AddTask task s)) = true.
Proof.
  destruct s as [mgr0 act0 new0 name ws queue pool allow h ms0].
  unfold AddTask, AreThereAnyAvailableWorker, AllocT, construct. run_step.
  destruct ws as [|[th|] ws]; cbn; [done| |destruct (any_worker ws); cbn; [|done]].
  all: destruct (last pool) as [p|]; cbn;
    [destruct (h !! p); by cbn|by rewrite lookup_insert_eq].
Qed.

Lemma SetWorkerCount_balanced count s :
  length (m_TaskWorkers s) ≤ count →
  balanced (trace_of (SetWorkerCount CreateThread join_attempts count s)) = true.
Proof.
  intros Hle.
  destruct (decide (length (m_TaskWorkers s) = count)) as [Heq|Hne].
  { by rewrite SetWorkerCount_same. }
  destruct (m_AllowGrowth s) eqn:Hg; cycle 1.
  { by rewrite SetWorkerCount_growth_disabled by (done || lia). }
  destruct (managers s !! m_ThreadManager s) as [tm|] eqn:Hm; cycle 1.
  { by rewrite SetWorkerCount_expired by (done || lia). }
  rewrite SetWorkerCount_grow_trace by (done || lia || by rewrite Hm).
  pose proof (grow_loop_lockfree CreateThread (m_ThreadManager s)
                (count - length (m_TaskWorkers s)) (length (m_TaskWorkers s)) s) as Hfree.
  destruct (grow_loop _ _ _ _ s) as [tr s' r|]; [|done]. cbn in Hfree.
  unfold balanced. cbn.
  change (foldl lock_event [TaskWorkersMutex] ?l) with (held_after [TaskWorkersMutex] l).
  rewrite lock_use_ok_app, held_after_app, lock_use_ok_lockfree,
    (held_after_lockfree _ tr) by done.
  cbn. by rewrite bool_decide_eq_true_2 by set_solver.
Qed.

Lemma WorkerFn_run_locks id acts pc s tr s' pc' :
  WorkerFn_run id acts pc s = Done tr s' pc' →
  lock_use_ok (worker_holds pc) tr = true ∧
  held_after (worker_holds pc) tr = worker_holds pc'.
Proof.
  revert pc s tr. induction acts as [|[|f] acts IH]; intros pc s tr; cbn.
  - unfold ret. by intros [= <- <- <-].
  - unfold bind at 1.
    destruct (WorkerFn_step id pc s) as [tr1 s1 pc1|] eqn:Hstep; [|done].
    destruct (WorkerFn_run id acts pc1 s1) as [tr2 s2 pc2|] eqn:Hrun; [|done].
    intros [= <- <- <-].
    destruct (IH _ _ _ Hrun) as [Hok Hheld].
    destruct (WorkerFn_step_locks _ _ _ _ _ _ Hstep) as [_ Hheld1].
    rewrite lock_use_ok_app, held_after_app, Hheld1. split; [|done].
    rewrite Hok, andb_true_r.
    apply WorkerFn_step_moves in Hstep.
    destruct Hstep as [pc [-> | ->]| | | | | | | |]; try done.
    all: unfold check_trace; by case_bool_decide.
  - unfold bind, modify.
    destruct (WorkerFn_run id acts pc (f s)) as [tr2 s2 pc2|] eqn:Hrun; [|done].
    intros [= <- <- <-]. by apply (IH _ _ _ Hrun).
Qed.

(** X6.  Apart from a [SetWorkerCount] that removes workers, every
    function releases what it locks: [GetWorkerCount], [IsGrowthEnabled],
    [EnableGrowth], [AddTask] on each of its paths, [SetWorkerCount] to
    the current size or above (on success and on each failure), the two
    notification handlers and [CanWorkerContinueWorking] lock no mutex
    that the thread holds, unlock none that it does not hold, and return
    with no mutex held.  So does a worker whose [WorkerFn] has returned,
    whatever the other threads did in between, and a
    [WaitUntilAllTasksFinished] that finds the queue empty. *)
Theorem calls_release_their_mutexes :
  (∀ s, balanced (trace_of (GetWorkerCount s)) = true) ∧
  (∀ s, balanced (trace_of (IsGrowthEnabled s)) = true) ∧
  (∀ enable s, balanced (trace_of (EnableGrowth enable s)) = true) ∧
  (∀ task s, balanced (trace_of (AddTask task s)) = true) ∧
  (∀ count s,
     length (m_TaskWorkers s) ≤ count →
     balanced (trace_of (SetWorkerCount CreateThread join_attempts count s)) = true) ∧
  (∀ newInterface s,
     balanced (trace_of (OnNewManager ThreadManagerUUID newInterface s)) = true) ∧
  (∀ active oldInterface newInterface s,
     balanced (trace_of (OnManagerActivation active oldInterface newInterface s)) = true) ∧
  (∀ id s, balanced (trace_of (CanWorkerContinueWorking id s)) = true) ∧
  (∀ id acts s tr s',
     WorkerFn_run id acts AtLoopHead s = Done tr s' Finished →
     balanced tr = true) ∧
  (∀ s, m_TaskQueue s = [] →
     ∃ tr, bind (WaitUntilAllTasksFinished_step WaitEntry)
             WaitUntilAllTasksFinished_step s = Done tr s WaitReturned ∧
           balanced tr = true).
Proof.
  split_and!; try done.
  - apply AddTask_balanced.
  - apply SetWorkerCount_balanced.
  - intros [iface|] s; [|done]. unfold OnNewManager. run_step.
    by case_bool_decide.
  - intros [|] old [new|] s; try done.
    unfold OnManagerActivation. run_step.
    destruct old as [old|]; [|done].
    destruct (GetLibrary old) as [lib|]; [|done].
    by destruct (GetApplication lib).
  - intros id s. unfold CanWorkerContinueWorking. run_step. by case_bool_decide.
  - intros id acts s tr s' Hrun.
    destruct (WorkerFn_run_locks _ _ _ _ _ _ _ Hrun) as [Hok Hheld].
    unfold balanced. cbn in Hok, Hheld. by rewrite Hok, Hheld.
  - intros s Hq. eexists. unfold bind. cbn. run_step. rewrite Hq. cbn. done.
Qed.

End Balance.

(** ** After a resize that removed workers *)

Section Wedge.

Context {ThreadManager : Type}.
Implicit Types (s : @State ThreadManager) (σ : @Scene ThreadManager).
Variable CreateThread : ThreadManager → ThreadConfig → TResult Thread * ThreadManager.

Lemma take_delete_ge {A} (l : list A) n i : n ≤ i → take n (delete i l) = take n l.
Proof.
  revert n i. induction l as [|x l IH]; intros [|n] [|i] H; cbn; try done; try lia.
  f_equal. apply IH. lia.
Qed.

Lemma removed_done_worker ws0 n σ id pc pc' s' hs ev :
  worker_pcs σ !! id = Some pc →
  (pc = Finished → pc' = Finished) →
  removed_done ws0 n σ →
  removed_done ws0 n
    {| shared := s'; resizer := resizer σ; resizer_holds := hs;
       worker_pcs := <[id := pc']> (worker_pcs σ); events := ev |}.
Proof.
  intros Hid Hfin Hdone i th Hle Hi. cbn.
  specialize (Hdone i th Hle Hi).
  destruct (decide (i = id)) as [->|Hne].
  - rewrite list_lookup_insert_eq by (by eapply lookup_lt_Some).
    f_equal. apply Hfin. congruence.
  - by rewrite list_lookup_insert_ne.
Qed.

Lemma worker_moves_finished id s pc tr s' pc' :
  worker_moves id s pc tr s' pc' → pc = Finished → pc' = Finished.
Proof. destruct 1 as [pc0 [-> | ->]| | | | | | | |]; done. Qed.

Lemma queue_locked_worker id σ σ' :
  queue_locked σ →
  scene_step CreateThread 0 (WorkerThread id) σ = Some σ' →
  queue_locked σ' ∧ m_TaskQueue (shared σ') = m_TaskQueue (shared σ).
Proof.
  intros [Hq Hfree]. unfold scene_step.
  destruct (worker_pcs σ !! id) as [pc|] eqn:Hid; [|by intros [= <-]].
  destruct (WorkerFn_step id pc (shared σ)) as [tr s' pc'|] eqn:Hstep; [|done].
  apply WorkerFn_step_moves in Hstep.
  destruct (may_take _ _) eqn:Hmay; intros [= <-]; [|done].
  assert (TaskQueueMutex ∉ acquired tr) as Hacq.
  { intros Hin. rewrite may_take_spec in Hmay.
    apply (Hmay TaskQueueMutex Resizer); [done|by left|done]. }
  destruct (worker_moves_queue _ _ _ _ _ _ Hstep (Hfree id pc Hid)) as (Hh & _ & Hqueue).
  split; [|done]. split; [done|]. cbn.
  intros j pcj Hj. destruct (decide (j = id)) as [->|Hne].
  - rewrite list_lookup_insert_eq in Hj by (by eapply lookup_lt_Some).
    injection Hj as <-. tauto.
  - rewrite list_lookup_insert_ne in Hj by done. by eapply Hfree.
Qed.

Lemma scene_step_count_irrelevant count id σ :
  scene_step CreateThread count (WorkerThread id) σ
  = scene_step CreateThread 0 (WorkerThread id) σ.
Proof. done. Qed.

Lemma worker_shrinking count ws0 id σ σ' :
  shrinking count ws0 σ →
  scene_step CreateThread count (WorkerThread id) σ = Some σ' →
  shrinking count ws0 σ'.
Proof.
  intros Hinv Hstep.
  assert (queue_locked σ → queue_locked σ') as Hlocked.
  { intros Hl. rewrite scene_step_count_irrelevant in Hstep.
    by destruct (queue_locked_worker id σ σ' Hl Hstep). }
  revert Hstep Hlocked. unfold scene_step.
  destruct (worker_pcs σ !! id) as [pc|] eqn:Hid; [|by intros [= <-]].
  destruct (WorkerFn_step id pc (shared σ)) as [tr s' pc'|] eqn:Hstep; [|done].
  apply WorkerFn_step_moves in Hstep.
  destruct (may_take _ _) eqn:Hmay; intros [= <-] Hlocked; [|done].
  pose proof (worker_moves_pool _ _ _ _ _ _ Hstep) as Hpool.
  pose proof (worker_moves_finished _ _ _ _ _ _ Hstep) as Hfin.
  pose proof (λ n, removed_done_worker ws0 n σ id pc pc' s' (resizer_holds σ)
                     (events σ ++ tr) Hid Hfin) as Hdone.
  unfold shrinking in *. cbn [resizer shared] in *. rewrite Hpool.
  destruct (resizer σ); destruct_and?; split_and?; auto.
  match goal with H : _ ∨ _ |- _ => destruct H as [?|?]; [left|right]; auto end.
Qed.

Lemma resizer_shrinking count ws0 σ σ' :
  shrinking count ws0 σ →
  scene_step CreateThread count Resizer σ = Some σ' →
  shrinking count ws0 σ'.
Proof.
  intros Hinv. unfold scene_step.
  assert (∀ n s' pc' hs ev,
            removed_done ws0 n σ →
            removed_done ws0 n
              {| shared := s'; resizer := pc'; resizer_holds := hs;
                 worker_pcs := worker_pcs σ; events := ev |}) as Hdone by done.
  unfold shrinking in Hinv.
  destruct (resizer σ) as [| | |th sz|sz|sz|r] eqn:Hr.
  - destruct Hinv as [Hws Hlt].
    rewrite SetWorkerCount_step_entry by (rewrite Hws; lia).
    destruct (may_take _ _); intros [= <-]; [|by unfold shrinking; rewrite Hr].
    unfold shrinking. cbn. rewrite Hws.
    split_and!; [by rewrite take_ge|lia| |by left].
    intros i th Hle Hi. apply lookup_lt_Some in Hi. lia.
  - destruct Hinv as (Hws & Hle & Hd & Hcase).
    rewrite SetWorkerCount_step_while.
    destruct (may_take _ _); intros [= <-]; [|by unfold shrinking; rewrite Hr].
    unfold shrinking. cbn. case_bool_decide as Hlt.
    + split_and!; [done|done|by apply Hdone].
    + assert (length (m_TaskWorkers (shared σ)) = count) as Hlen by lia.
      destruct Hcase as [[E ?]|Hl]; [rewrite E in Hlen; lia|].
      rewrite Hlen in Hws, Hd. done.
  - destruct Hinv as (Hws & Hlt & Hd).
    rewrite SetWorkerCount_step_mark.
    destruct (may_take _ _); intros [= <-]; [|by unfold shrinking; rewrite Hr].
    unfold shrinking. cbn. rewrite length_insert.
    set (sz := length (m_TaskWorkers (shared σ))) in *.
    split_and!; [done|done| | |by apply Hdone].
    + rewrite take_insert_ge by lia. rewrite Hws at 1.
      rewrite take_take. f_equal. lia.
    + f_equal. rewrite Hws at 1. rewrite lookup_take_lt by lia. done.
  - destruct Hinv as (Hsz & Hlt & Htake & Hth & Hd).
    destruct th as [t|].
    + rewrite SetWorkerCount_step_join.
      destruct (has_returned σ) eqn:Hret.
      * destruct (may_take _ _); intros [= <-]; [|by unfold shrinking; rewrite Hr].
        unfold shrinking. cbn. split_and!; [done..|].
        intros i th Hle Hi. cbn.
        destruct (decide (i = sz - 1)) as [->|Hne]; [|apply (Hd i th); [lia|done]].
        unfold has_returned in Hret. rewrite Hr in Hret.
        by apply bool_decide_eq_true in Hret.
      * destruct (may_take _ _); intros [= <-]; [|by unfold shrinking; rewrite Hr].
        unfold shrinking. cbn. by split_and!.
    + unfold SetWorkerCount_step, ret. lazy beta iota.
      destruct (may_take _ _); intros [= <-]; [|by unfold shrinking; rewrite Hr].
      unfold shrinking. cbn. split_and!; [done..|].
      intros i th Hle Hi. cbn.
      destruct (decide (i = sz - 1)) as [->|Hne]; [|apply (Hd i th); [lia|done]].
      rewrite Hi in Hth. done.
  - destruct Hinv as (Hsz & Hlt & Htake & Hd).
    change (SetWorkerCount_step CreateThread count (has_returned σ) (AtRelock sz) (shared σ))
      with (Done [EvLock TaskQueueMutex] (shared σ) (AtErase sz)).
    lazy beta iota. destruct (may_take _ _) eqn:Hmay; intros [= <-];
      [|by unfold shrinking; rewrite Hr].
    unfold shrinking. cbn. split_and!; [done..|].
    rewrite may_take_spec in Hmay. split; [cbn; set_solver|]. cbn.
    intros i pci Hi.
    specialize (Hmay TaskQueueMutex (WorkerThread i)). cbn in Hmay.
    rewrite Hi in Hmay. apply Hmay; [set_solver|by eapply worker_in_threads].
  - destruct Hinv as (Hsz & Hlt & Htake & Hd & Hl).
    rewrite SetWorkerCount_step_erase.
    destruct (may_take _ _); intros [= <-]; [|by unfold shrinking; rewrite Hr].
    unfold shrinking. cbn.
    assert (length (delete (sz - 1) (m_TaskWorkers (shared σ))) = sz - 1) as Hlen.
    { rewrite length_delete; [lia|]. apply lookup_lt_is_Some. lia. }
    rewrite Hlen. split_and!; [|lia|done|by right].
    rewrite <-Htake. rewrite <-(take_delete_ge _ (sz - 1) (sz - 1)) by lia.
    rewrite take_ge; [done|lia].
  - destruct Hinv as (-> & Hws & Hd & Hl).
    unfold SetWorkerCount_step, ret. lazy beta iota.
    destruct (may_take _ _); intros [= <-]; [|by unfold shrinking; rewrite Hr].
    unfold shrinking. cbn. done.
Qed.

Lemma scene_run_shrinking count ws0 schedule σ σ' :
  shrinking count ws0 σ →
  scene_run CreateThread count schedule σ = Some σ' →
  shrinking count ws0 σ'.
Proof.
  revert σ. induction schedule as [|t schedule IH]; intros σ Hinv; cbn.
  - by intros [= <-].
  - destruct (scene_step CreateThread count t σ) as [σ1|] eqn:Hstep; [|done].
    apply IH. destruct t; [by eapply resizer_shrinking|by eapply worker_shrinking].
Qed.

Lemma scene_run_returned count r schedule σ σ' :
  resizer σ = Returned r →
  queue_locked σ →
  scene_run CreateThread count schedule σ = Some σ' →
  resizer σ' = Returned r ∧ queue_locked σ' ∧
  m_TaskQueue (shared σ') = m_TaskQueue (shared σ) ∧
  m_TaskWorkers (shared σ') = m_TaskWorkers (shared σ).
Proof.
  revert σ. induction schedule as [|t schedule IH]; intros σ Hr Hl; cbn.
  - by intros [= <-].
  - destruct (scene_step CreateThread count t σ) as [σ1|] eqn:Hstep; [|done].
    intros Hrun.
    assert (resizer σ1 = Returned r ∧ queue_locked σ1 ∧
            m_TaskQueue (shared σ1) = m_TaskQueue (shared σ) ∧
            m_TaskWorkers (shared σ1) = m_TaskWorkers (shared σ)) as (Hr1 & Hl1 & Hq1 & Hw1).
    { destruct t as [|id].
      - revert Hstep. unfold scene_step. rewrite Hr.
        unfold SetWorkerCount_step, ret. lazy beta iota.
        destruct (may_take _ _); intros [= <-]; [|done].
        cbn. rewrite app_nil_r. by destruct σ.
      - rewrite scene_step_count_irrelevant in Hstep.
        destruct (queue_locked_worker id σ σ1 Hl Hstep) as [Hl1 Hq1].
        split_and!; [|done|done|].
        + revert Hstep. unfold scene_step.
          destruct (worker_pcs σ !! id); [|by intros [= <-]].
          destruct (WorkerFn_step _ _ _); [|done].
          by destruct (may_take _ _); intros [= <-].
        + revert Hstep. unfold scene_step.
          destruct (worker_pcs σ !! id) as [pc|]; [|by intros [= <-]].
          destruct (WorkerFn_step _ _ _) as [tr s' pc'|] eqn:Hw; [|done].
          apply WorkerFn_step_moves, worker_moves_pool in Hw.
          by destruct (may_take _ _); intros [= <-]. }
    destruct (IH σ1 Hr1 Hl1 Hrun) as (? & ? & ? & ?).
    split_and!; [done|done|congruence|congruence].
Qed.

(** A submission that is accepted locks the queue mutex (line 112). *)
Lemma AddTask_takes_the_queue_mutex task s :
  any_worker (m_TaskWorkers s) = true → wf s →
  ∃ tr s', AddTask task s = Done tr s' CreateSuccess ∧ TaskQueueMutex ∈ acquired tr.
Proof.
  intros Hany Hwf.
  destruct (AddTask_accepted task s Hany Hwf) as (tr0 & p & pool & evs & Heq & _).
  eexists _, _. split; [exact Heq|].
  apply list_elem_of_omap. exists (EvLock TaskQueueMutex). split; [|done].
  set_solver.
Qed.

(** X7.  A [SetWorkerCount] that has workers to remove, run by one thread
    while the workers run.  Whatever the interleaving, when the call has
    returned it has returned success, the pool is the old pool cut down
    to [count], the function of every worker removed has returned, and
    the calling thread holds the queue mutex (line 81), which no line
    releases: from then on no worker gets hold of the queue mutex, the
    queue stays as it is, with whatever tasks are in it, and a
    submission that finds a worker present has to lock the mutex that is
    held. *)
Theorem a_shrink_keeps_the_queue_mutex count s ps schedule σ r :
  count < length (m_TaskWorkers s) →
  scene_run CreateThread count schedule (scene_start s ps) = Some σ →
  resizer σ = Returned r →
  r = CreateSuccess ∧
  m_TaskWorkers (shared σ) = take count (m_TaskWorkers s) ∧
  (∀ i th, count ≤ i → m_TaskWorkers s !! i = Some (Some th) →
           worker_pcs σ !! i = Some Finished) ∧
  TaskQueueMutex ∈ resizer_holds σ ∧
  (∀ more σ',
     scene_run CreateThread count more σ = Some σ' →
     resizer σ' = Returned r ∧
     TaskQueueMutex ∈ resizer_holds σ' ∧
     (∀ i pc, worker_pcs σ' !! i = Some pc → TaskQueueMutex ∉ worker_holds pc) ∧
     m_TaskQueue (shared σ') = m_TaskQueue (shared σ) ∧
     m_TaskWorkers (shared σ') = m_TaskWorkers (shared σ) ∧
     (∀ task,
        any_worker (m_TaskWorkers (shared σ')) = true → wf (shared σ') →
        ∃ tr s1, AddTask task (shared σ') = Done tr s1 CreateSuccess ∧
                 TaskQueueMutex ∈ acquired tr)).
Proof.
  intros Hlt Hrun Hr.
  assert (shrinking count (m_TaskWorkers s) (scene_start s ps)) as Hstart by done.
  pose proof (scene_run_shrinking _ _ _ _ _ Hstart Hrun) as Hinv.
  unfold shrinking in Hinv. rewrite Hr in Hinv.
  destruct Hinv as (-> & Hws & Hd & Hl).
  split_and!; [done|done|done|by destruct Hl|].
  intros more σ' Hmore.
  destruct (scene_run_returned _ _ _ _ _ Hr Hl Hmore) as (? & [? ?] & ? & ?).
  split_and!; [done..|].
  intros task. apply AddTask_takes_the_queue_mutex.
Qed.

End Wedge.

(** ** The second turn of the loop that removes workers *)

Section Relocking.

Context {ThreadManager : Type}.
Implicit Types (s : @State ThreadManager) (σ : @Scene ThreadManager).

Variable CreateThread : ThreadManager → ThreadConfig → TResult Thread * ThreadManager.

Lemma second_turn_step count n t σ σ' :
  count + 2 ≤ n →
  second_turn n σ →
  scene_step CreateThread count t σ = Some σ' →
  second_turn n σ'.
Proof.
  intros Hn Hinv. destruct t as [|id]; unfold scene_step.
  - unfold second_turn in Hinv.
    destruct (resizer σ) as [| | |th sz|sz|sz|r] eqn:Hr; [..|done].
    + destruct Hinv as [Hsz Hh].
      rewrite SetWorkerCount_step_entry by lia.
      destruct (may_take _ _); intros [= <-]; [|by unfold second_turn; rewrite Hr].
      unfold second_turn. cbn. left. by rewrite Hh.
    + rewrite SetWorkerCount_step_while.
      destruct (may_take _ _); intros [= <-]; [|by unfold second_turn; rewrite Hr].
      unfold second_turn. cbn.
      rewrite bool_decide_eq_true_2 by (destruct Hinv as [[-> _]|[-> _]]; lia).
      by destruct Hinv as [[? ->]|[? ->]]; [left|right].
    + rewrite SetWorkerCount_step_mark.
      destruct (may_take _ _); intros [= <-]; [|by unfold second_turn; rewrite Hr].
      unfold second_turn. cbn. rewrite length_insert. split; [done|].
      by destruct Hinv as [[? ->]|[? ->]]; [left|right].
    + destruct Hinv as [Hsz Hcase]. destruct th as [th|].
      * rewrite SetWorkerCount_step_join.
        destruct (has_returned σ);
          (destruct (may_take _ _); intros [= <-]; [|by unfold second_turn; rewrite Hr]);
          unfold second_turn; cbn; (split; [done|]);
          by destruct Hcase as [[? ->]|[? ->]]; [left|right].
      * unfold SetWorkerCount_step, ret. lazy beta iota.
        destruct (may_take _ _); intros [= <-]; [|by unfold second_turn; rewrite Hr].
        unfold second_turn. cbn. split; [done|].
        by destruct Hcase as [[? ->]|[? ->]]; [left|right].
    + destruct Hinv as [Hsz Hcase].
      change (SetWorkerCount_step CreateThread count (has_returned σ) (AtRelock sz) (shared σ))
        with (Done [EvLock TaskQueueMutex] (shared σ) (AtErase sz)).
      lazy beta iota. destruct (may_take _ _) eqn:Hmay; intros [= <-];
        [|by unfold second_turn; rewrite Hr].
      unfold second_turn. cbn. destruct Hcase as [[? ->]|[_ Hh]]; [done|]. exfalso.
      rewrite may_take_spec in Hmay.
      apply (Hmay TaskQueueMutex Resizer); [cbn; set_solver|by left|].
      cbn. rewrite Hh. set_solver.
    + destruct Hinv as (Hsz & -> & Hh).
      rewrite SetWorkerCount_step_erase.
      destruct (may_take _ _); intros [= <-]; [|by unfold second_turn; rewrite Hr].
      unfold second_turn. cbn. right. rewrite Hh. split; [|done].
      rewrite length_delete; [lia|]. apply lookup_lt_is_Some. lia.
  - destruct (worker_pcs σ !! id) as [pc|]; [|by intros [= <-]].
    destruct (WorkerFn_step id pc (shared σ)) as [tr s' pc'|] eqn:Hw; [|done].
    apply WorkerFn_step_moves, worker_moves_pool in Hw.
    destruct (may_take _ _); intros [= <-]; [|done].
    unfold second_turn in *. cbn. by rewrite Hw.
Qed.

Lemma scene_run_second_turn count n schedule σ σ' :
  count + 2 ≤ n →
  second_turn n σ →
  scene_run CreateThread count schedule σ = Some σ' →
  second_turn n σ'.
Proof.
  intros Hn. revert σ. induction schedule as [|t schedule IH]; intros σ Hinv; cbn.
  - by intros [= <-].
  - destruct (scene_step CreateThread count t σ) as [σ1|] eqn:Hstep; [|done].
    apply IH. by eapply second_turn_step.
Qed.

(** X13.  A [SetWorkerCount] that has two workers or more to remove does
    not return, whatever the workers do and even when their functions
    have returned already: it removes one worker, keeping the queue
    mutex from line 81 on, and its second turn ends at line 81 again,
    where the thread asks for the mutex that it holds itself.  At no time
    has it removed more than one worker. *)
Theorem a_second_removal_does_not_end count s ps schedule σ :
  count + 2 ≤ length (m_TaskWorkers s) →
  scene_run CreateThread count schedule (scene_start s ps) = Some σ →
  (∀ r, resizer σ ≠ Returned r) ∧
  length (m_TaskWorkers s) - 1 ≤ length (m_TaskWorkers (shared σ)) ∧
  (∀ sz, resizer σ = AtRelock sz → TaskQueueMutex ∈ resizer_holds σ →
     ∀ more σ', scene_run CreateThread count more σ = Some σ' →
       resizer σ' = AtRelock sz ∧
       m_TaskWorkers (shared σ') = m_TaskWorkers (shared σ)).
Proof.
  intros Hn Hrun.
  assert (second_turn (length (m_TaskWorkers s)) (scene_start s ps)) as Hstart by done.
  pose proof (scene_run_second_turn _ _ _ _ _ Hn Hstart Hrun) as Hinv.
  split_and!.
  - intros r Hr. unfold second_turn in Hinv. by rewrite Hr in Hinv.
  - unfold second_turn in Hinv.
    destruct (resizer σ); [lia| | | | |lia|done];
      try (destruct Hinv as [[? _]|[? _]]; lia);
      destruct Hinv as [? [[? _]|[? _]]]; lia.
  - intros sz Hr Hheld more. clear Hrun Hinv.
    revert σ Hr Hheld. induction more as [|t more IH]; intros σ Hr Hheld σ'; cbn.
    { by intros [= <-]. }
    destruct (scene_step CreateThread count t σ) as [σ1|] eqn:Hstep; [|done].
    assert (resizer σ1 = AtRelock sz ∧ resizer_holds σ1 = resizer_holds σ ∧
            m_TaskWorkers (shared σ1) = m_TaskWorkers (shared σ)) as (Hr1 & Hh1 & Hw1).
    { revert Hstep. unfold scene_step. destruct t as [|id].
      - rewrite Hr.
        change (SetWorkerCount_step CreateThread count (has_returned σ) (AtRelock sz)
                  (shared σ))
          with (Done [EvLock TaskQueueMutex] (shared σ) (AtErase sz)).
        lazy beta iota. destruct (may_take _ _) eqn:Hmay; intros [= <-]; [|done].
        exfalso. rewrite may_take_spec in Hmay.
        apply (Hmay TaskQueueMutex Resizer); [cbn; set_solver|by left|done].
      - destruct (worker_pcs σ !! id) as [pc|]; [|by intros [= <-]].
        destruct (WorkerFn_step id pc (shared σ)) as [tr s' pc'|] eqn:Hw; [|done].
        apply WorkerFn_step_moves, worker_moves_pool in Hw.
        by destruct (may_take _ _); intros [= <-]. }
    intros Hmore. destruct (IH σ1 Hr1 ltac:(by rewrite Hh1) σ' Hmore) as [? ?].
    split; [done|congruence].
Qed.

End Relocking.

(** ** A submission and the queue mutex *)

Section Submitting.

Context {ThreadManager : Type}.
Implicit Types (s : @State ThreadManager) (σ : @Scene ThreadManager)
  (y : Yard ThreadManager).

Variable CreateThread : ThreadManager → ThreadConfig → TResult Thread * ThreadManager.
Variable join_attempts : Thread → nat.

Lemma AddTask_step_entry task s :
  ∃ tr0,
    AddTask_step task AddEntry s
    = (if any_worker (m_TaskWorkers s)
       then Done (EvLockShared TaskWorkersMutex :: tr0) s AddStorage
       else Done (EvLockShared TaskWorkersMutex :: tr0 ++ [EvUnlockShared TaskWorkersMutex]) s
              (AddReturned NoAvailableWorkers)) ∧
    Forall (λ e, e = EvWorkers Observe) tr0.
Proof.
  destruct (AreThereAnyAvailableWorker_spec s) as (tr0 & Ha & Hobs).
  exists tr0. split; [|done]. cbn [AddTask_step].
  unfold bind at 1. unfold emit at 1. unfold bind at 1. rewrite Ha.
  destruct (any_worker (m_TaskWorkers s)); cbn; unfold ret; by rewrite ?app_nil_r.
Qed.

Lemma AddTask_step_storage task s tr s' pc' :
  AddTask_step task AddStorage s = Done tr s' pc' →
  (∃ p, pc' = AddEnqueue p) ∧
  acquired tr = [FreeTaskPoolMutex] ∧
  m_TaskWorkers s' = m_TaskWorkers s ∧ m_TaskQueue s' = m_TaskQueue s.
Proof.
  cbn [AddTask_step]. unfold AllocT, construct. run_step.
  destruct (back (m_FreeTaskPool s)) as [p|]; cbn.
  - destruct (heap s !! p) as [[t|]|]; cbn; try done.
    all: intros [= <- <- <-]; eauto.
  - rewrite lookup_insert_eq. cbn. intros [= <- <- <-]. eauto.
Qed.

Lemma AddTask_step_enqueue task p s :
  AddTask_step task (AddEnqueue p) s
  = Done [EvLock TaskQueueMutex; EvUnlock TaskQueueMutex; EvNotifyOne;
          EvUnlockShared TaskWorkersMutex]
      (set_TaskQueue (m_TaskQueue s ++ [p]) s) (AddReturned CreateSuccess).
Proof. done. Qed.

(** The three steps in a row are [AddTask]. *)
Lemma AddTask_steps_refines task s :
  AddTask_steps task s
  = match AddTask task s with
    | Done tr s' r => Done tr s' (AddReturned r)
    | Abort msg => Abort msg
    end.
Proof.
  unfold AddTask_steps, AddTask. cbn [AddTask_step].
  unfold AreThereAnyAvailableWorker, AllocT, construct. run_step.
  destruct (m_TaskWorkers s) as [|w ws] eqn:Ews; cbn; [done|].
  rewrite Ews.
  destruct (any_worker (w :: ws)); cbn; [|done].
  destruct (back (m_FreeTaskPool s)) as [p|]; cbn.
  - unfold construct. run_step. by destruct (heap s !! p) as [[t|]|].
  - unfold construct. run_step. by rewrite lookup_insert_eq.
Qed.

Lemma AddTask_step_storage_wf task s :
  wf s →
  ∃ tr s1 p pool,
    AddTask_step task AddStorage s = Done tr s1 (AddEnqueue p) ∧
    acquired tr = [FreeTaskPoolMutex] ∧
    set_TaskQueue (m_TaskQueue s1 ++ [p]) s1 = submitted task p pool s ∧
    storage_for s p pool.
Proof.
  intros (Hnd & Hq & Hp). cbn [AddTask_step].
  destruct (m_FreeTaskPool s) as [|x pool _] eqn:Epool using rev_ind.
  - eexists _, _, (fresh (dom (heap s))), [].
    unfold AllocT, construct. run_step. rewrite Epool. cbn.
    rewrite lookup_insert_eq. cbn. rewrite insert_insert_eq.
    split_and!; [done|done| |].
    + unfold submitted. cbn. rewrite <-Epool. by destruct s.
    + left. split_and!; [done..|]. apply not_elem_of_dom, is_fresh.
  - eexists _, _, x, pool.
    unfold construct. run_step. rewrite Epool, back_snoc, pop_back_snoc. cbn.
    rewrite Forall_app, Forall_singleton in Hp. destruct Hp as [_ Hx].
    rewrite Hx. cbn.
    split_and!; [done|done|done|by right].
Qed.

Lemma acquired_observations tr0 :
  Forall (λ e, e = EvWorkers Observe) tr0 → acquired tr0 = [].
Proof. induction 1 as [|e tr0 -> _ IH]; [done|]. done. Qed.

Lemma own_free pc tr :
  (∀ m, m ∈ acquired tr → m ∉ add_holds pc) →
  forallb (λ m, bool_decide (m ∉ add_holds pc)) (acquired tr) = true.
Proof.
  intros H. apply forallb_forall. intros m Hm. apply bool_decide_eq_true.
  by apply H, list_elem_of_In.
Qed.

Lemma unlocked_may_take σ tr : unlocked σ → may_take σ tr = true.
Proof.
  intros [Hr Hw]. apply may_take_spec. intros m u _ Hu.
  destruct u as [|i]; cbn; [rewrite Hr; set_solver|].
  destruct (worker_pcs σ !! i) as [pc|] eqn:Hi; cbn; [|set_solver].
  rewrite Forall_forall in Hw. rewrite (Hw pc); [set_solver|].
  by eapply list_elem_of_lookup_2.
Qed.

(** A thread of the scene does in the yard what it does in the scene, or
    nothing. *)
Lemma yard_step_scene count task u y y' :
  yard_step CreateThread count task (SceneThread u) y = Some y' →
  submitter y' = submitter y ∧
  (scene y' = scene y ∨ scene_step CreateThread count u (scene y) = Some (scene y')).
Proof.
  unfold yard_step. destruct (forallb _ _); [|intros [= <-]; by split; [|left]].
  destruct (scene_step CreateThread count u (scene y)) as [σ'|]; [|done].
  intros [= <-]. by split; [|right].
Qed.

Lemma wedged_step count task ws queue t y y' :
  any_worker ws = true →
  wedged ws queue y →
  yard_step CreateThread count task t y = Some y' →
  wedged ws queue y'.
Proof.
  intros Hany Hinv Hstep. pose proof Hinv as ([r Hr] & Hl & Hws & Hq & Hsub).
  destruct t as [|u].
  - revert Hstep. unfold yard_step.
    destruct (submitter y) as [| |p|r0] eqn:Hpc; [| | |by destruct (Hsub r0)].
    + destruct (AddTask_step_entry task (shared (scene y))) as (tr0 & -> & _).
      rewrite Hws, Hany.
      destruct (_ && _); intros [= <-]; [|done].
      unfold wedged. cbn. split_and!; [eauto|done|done|done|done].
    + destruct (AddTask_step task AddStorage (shared (scene y))) as [tr s' pc'|] eqn:Hs;
        [|done].
      destruct (AddTask_step_storage _ _ _ _ _ Hs) as ([p ->] & _ & Hws' & Hq').
      destruct (_ && _); intros [= <-]; [|done].
      unfold wedged. cbn. split_and!; [eauto|done|congruence|congruence|done].
    + rewrite AddTask_step_enqueue.
      assert (may_take (scene y)
                [EvLock TaskQueueMutex; EvUnlock TaskQueueMutex; EvNotifyOne;
                 EvUnlockShared TaskWorkersMutex] = false) as ->.
      { apply not_true_is_false. rewrite may_take_spec. intros Hmay.
        apply (Hmay TaskQueueMutex Resizer); [cbn; set_solver|by left|].
        by destruct Hl. }
      cbn. by intros [= <-].
  - destruct (yard_step_scene _ _ _ _ _ Hstep) as [Hsame [E|Hscene]].
    + unfold wedged. rewrite E, Hsame. split_and!; [eauto|done..].
    + assert (scene_run CreateThread count [u] (scene y) = Some (scene y')) as Hrun
        by (cbn; by rewrite Hscene).
      destruct (scene_run_returned CreateThread _ _ _ _ _ Hr Hl Hrun) as (? & ? & ? & ?).
      unfold wedged. rewrite Hsame. split_and!; [eauto|done|congruence|congruence|done].
Qed.

Lemma yard_run_wedged count task ws queue schedule y y' :
  any_worker ws = true →
  wedged ws queue y →
  yard_run CreateThread count task schedule y = Some y' →
  wedged ws queue y'.
Proof.
  intros Hany. revert y. induction schedule as [|t schedule IH]; intros y Hinv; cbn.
  - by intros [= <-].
  - destruct (yard_step CreateThread count task t y) as [y1|] eqn:Hstep; [|done].
    apply IH. by eapply wedged_step.
Qed.

Lemma resizer_keeps_step count ws0 t σ σ' :
  shrinking count ws0 σ →
  resizer_keeps ws0 σ →
  scene_step CreateThread count t σ = Some σ' →
  resizer_keeps ws0 σ'.
Proof.
  intros Hshr Hinv. destruct t as [|id]; unfold scene_step.
  - unfold shrinking in Hshr. unfold resizer_keeps in Hinv.
    destruct (resizer σ) as [| | |th sz|sz|sz|r] eqn:Hr.
    + destruct Hshr as [Hws Hlt].
      rewrite SetWorkerCount_step_entry by (rewrite Hws; lia).
      destruct (may_take _ _); intros [= <-]; [|by unfold resizer_keeps; rewrite Hr].
      unfold resizer_keeps. cbn. left. by rewrite Hinv.
    + destruct Hshr as (_ & Hle & _ & Hcase).
      rewrite SetWorkerCount_step_while.
      destruct (may_take _ _); intros [= <-]; [|by unfold resizer_keeps; rewrite Hr].
      unfold resizer_keeps. cbn. case_bool_decide as Hlt.
      * destruct Hinv as [[? ->]| ->]; [by left|by right].
      * destruct Hinv as [[E Hh]| ->]; [|done]. exfalso.
        destruct Hcase as [[_ ?]|[Hin _]]; [rewrite E in Hlt; lia|].
        rewrite Hh in Hin. set_solver.
    + rewrite SetWorkerCount_step_mark.
      destruct (may_take _ _); intros [= <-]; [|by unfold resizer_keeps; rewrite Hr].
      unfold resizer_keeps. cbn. destruct Hinv as [[_ ->]| ->]; [by left|by right].
    + destruct th as [th|].
      * rewrite SetWorkerCount_step_join.
        destruct (has_returned σ);
          (destruct (may_take _ _); intros [= <-]; [|by unfold resizer_keeps; rewrite Hr]);
          unfold resizer_keeps; cbn; by destruct Hinv as [-> | ->]; [left|right].
      * unfold SetWorkerCount_step, ret. lazy beta iota.
        destruct (may_take _ _); intros [= <-]; [|by unfold resizer_keeps; rewrite Hr].
        unfold resizer_keeps. cbn. by destruct Hinv as [-> | ->]; [left|right].
    + change (SetWorkerCount_step CreateThread count (has_returned σ) (AtRelock sz) (shared σ))
        with (Done [EvLock TaskQueueMutex] (shared σ) (AtErase sz)).
      lazy beta iota. destruct (may_take _ _) eqn:Hmay; intros [= <-];
        [|by unfold resizer_keeps; rewrite Hr].
      unfold resizer_keeps. cbn. destruct Hinv as [-> | Hh]; [done|]. exfalso.
      rewrite may_take_spec in Hmay.
      apply (Hmay TaskQueueMutex Resizer); [cbn; set_solver|by left|].
      cbn. rewrite Hh. set_solver.
    + rewrite SetWorkerCount_step_erase.
      destruct (may_take _ _); intros [= <-]; [|by unfold resizer_keeps; rewrite Hr].
      unfold resizer_keeps. cbn. right. by rewrite Hinv.
    + unfold SetWorkerCount_step, ret. lazy beta iota.
      destruct (may_take _ _); intros [= <-]; [|by unfold resizer_keeps; rewrite Hr].
      unfold resizer_keeps. cbn. by rewrite Hinv.
  - destruct (worker_pcs σ !! id) as [pc|]; [|by intros [= <-]].
    destruct (WorkerFn_step id pc (shared σ)) as [tr s' pc'|] eqn:Hw; [|done].
    apply WorkerFn_step_moves, worker_moves_pool in Hw.
    destruct (may_take _ _); intros [= <-]; [|done].
    unfold resizer_keeps in *. cbn. by rewrite Hw.
Qed.

Lemma scene_run_resizer_keeps count ws0 schedule σ σ' :
  shrinking count ws0 σ →
  resizer_keeps ws0 σ →
  scene_run CreateThread count schedule σ = Some σ' →
  resizer_keeps ws0 σ'.
Proof.
  revert σ. induction schedule as [|t schedule IH]; intros σ Hshr Hinv; cbn.
  - by intros [= <-].
  - destruct (scene_step CreateThread count t σ) as [σ1|] eqn:Hstep; [|done].
    apply IH; [|by eapply resizer_keeps_step].
    apply (scene_run_shrinking CreateThread count ws0 [t] σ σ1 Hshr).
    cbn. by rewrite Hstep.
Qed.

(** C10.  [AddTask] never looks at the provisioning binding: run on a
    scheduler with any other weak reference, registrations and managers
    it does the same and returns the same.  Its three steps, each behind
    a lock, are that computation.  Where no thread holds a mutex, a
    submission that finds a worker present returns success with the task
    at the back of the queue, nothing being asked of the binding.  It is
    the queue mutex that can keep it from returning: once a
    [SetWorkerCount] that had workers to remove has returned, the thread
    that called it holds the queue mutex (line 81) for good, and a
    submission that finds a worker present gets as far as line 112 and
    never returns, the queue staying as it is.  A growing
    [SetWorkerCount] is what needs the manager: with growth allowed and
    the weak reference expired it fails. *)
Theorem AddTask_ignores_binding_but_not_a_shrink task s :
  (∀ mgr act new ms,
     AddTask task (with_binding mgr act new ms s)
     = match AddTask task s with
       | Done tr s' r => Done tr (with_binding mgr act new ms s') r
       | Abort msg => Abort msg
       end) ∧
  AddTask_steps task s
  = match AddTask task s with
    | Done tr s' r => Done tr s' (AddReturned r)
    | Abort msg => Abort msg
    end ∧
  (∀ count σ,
     shared σ = s → unlocked σ →
     (∃ i th, m_TaskWorkers s !! i = Some (Some th)) → wf s →
     ∃ y' p,
       yard_run CreateThread count task [SubmitterThread; SubmitterThread; SubmitterThread]
         (yard_start σ) = Some y' ∧
       submitter y' = AddReturned CreateSuccess ∧
       m_TaskQueue (shared (scene y')) = m_TaskQueue s ++ [p] ∧
       task_at (shared (scene y')) p = Some task ∧
       queued_tasks (shared (scene y')) = queued_tasks s ++ [task]) ∧
  (∀ count ps schedule σ r,
     count < length (m_TaskWorkers s) →
     scene_run CreateThread count schedule (scene_start s ps) = Some σ →
     resizer σ = Returned r →
     (∃ i th, m_TaskWorkers (shared σ) !! i = Some (Some th)) →
     (wf (shared σ) →
      ∃ y1 p,
        yard_run CreateThread count task [SubmitterThread; SubmitterThread] (yard_start σ)
        = Some y1 ∧
        submitter y1 = AddEnqueue p) ∧
     (∀ more y',
        yard_run CreateThread count task more (yard_start σ) = Some y' →
        (∀ r', submitter y' ≠ AddReturned r') ∧
        m_TaskQueue (shared (scene y')) = m_TaskQueue (shared σ))) ∧
  (∀ count,
     length (m_TaskWorkers s) < count → m_AllowGrowth s = true →
     managers s !! m_ThreadManager s = None →
     ∃ tr, SetWorkerCount CreateThread join_attempts count s
           = Done tr s ProvisioningUnavailable).
Proof.
  split_and!.
  - intros mgr act new ms.
    destruct s as [mgr0 act0 new0 name ws queue pool allow h ms0].
    unfold AddTask, AreThereAnyAvailableWorker, AllocT, construct, with_binding.
    run_step.
    destruct ws as [|[th|] ws]; cbn; [done| |destruct (any_worker ws); cbn; [|done]].
    all: destruct (last pool) as [p|]; cbn;
      [by destruct (h !! p)|by rewrite lookup_insert_eq].
  - apply AddTask_steps_refines.
  - intros count σ <- Hfree Hany Hwf. apply any_worker_present in Hany.
    destruct (AddTask_step_entry task (shared σ)) as (tr0 & H1 & Hobs).
    rewrite Hany in H1.
    destruct (AddTask_step_storage_wf task (shared σ) Hwf)
      as (tr2 & s2 & p & pool & H2 & Hacq & Hsub & Hst).
    destruct (wf_submitted task p pool (shared σ) Hwf Hst) as [_ Hq].
    eexists _, p. split.
    + cbn [yard_run yard_step yard_start scene submitter]. rewrite H1.
      rewrite unlocked_may_take, own_free by (done || (cbn; set_solver)).
      cbn [andb scene submitter shared]. rewrite H2.
      rewrite unlocked_may_take, own_free by (done || (rewrite Hacq; cbn; set_solver)).
      cbn [andb scene submitter shared]. rewrite AddTask_step_enqueue.
      rewrite unlocked_may_take, own_free by (done || (cbn; set_solver)).
      cbn [andb]. reflexivity.
    + cbn [submitter scene shared]. rewrite Hsub.
      split_and!; [done|done| |done].
      by rewrite task_at_submitted, decide_True.
  - intros count ps schedule σ r Hlt Hrun Hr Hany. apply any_worker_present in Hany.
    assert (shrinking count (m_TaskWorkers s) (scene_start s ps)) as Hstart by done.
    pose proof (scene_run_shrinking CreateThread _ _ _ _ _ Hstart Hrun) as Hshr.
    assert (resizer_keeps (m_TaskWorkers s) σ) as Hkeep.
    { eapply scene_run_resizer_keeps; [exact Hstart|done|done]. }
    unfold shrinking in Hshr. unfold resizer_keeps in Hkeep. rewrite Hr in Hshr, Hkeep.
    destruct Hshr as (_ & _ & _ & Hl).
    split.
    + intros Hwf.
      destruct (AddTask_step_entry task (shared σ)) as (tr0 & H1 & Hobs).
      rewrite Hany in H1.
      destruct (AddTask_step_storage_wf task (shared σ) Hwf)
        as (tr2 & s2 & p & pool & H2 & Hacq & _).
      assert (∀ s' ev tr, (∀ m, m ∈ acquired tr → m ≠ TaskQueueMutex) →
                may_take {| shared := s'; resizer := resizer σ;
                            resizer_holds := resizer_holds σ;
                            worker_pcs := worker_pcs σ; events := ev |} tr = true) as Hmay.
      { intros s' ev tr Htr. apply may_take_spec. intros m u Hm Hu Hin.
        apply (Htr m Hm). destruct u as [|i]; cbn in Hin.
        - rewrite Hkeep in Hin. set_solver.
        - destruct (worker_pcs σ !! i) as [[]|]; cbn in Hin; set_solver. }
      assert (may_take σ (EvLockShared TaskWorkersMutex :: tr0) = true) as Hmay1.
      { specialize (Hmay (shared σ) (events σ) (EvLockShared TaskWorkersMutex :: tr0)).
        destruct σ. apply Hmay. cbn. rewrite acquired_observations by done. set_solver. }
      eexists _, p. split.
      * cbn [yard_run yard_step yard_start scene submitter]. rewrite H1, Hmay1.
        rewrite own_free by (cbn; set_solver).
        cbn [andb scene submitter shared]. rewrite H2.
        rewrite Hmay, own_free by (rewrite Hacq; cbn; set_solver).
        reflexivity.
      * reflexivity.
    + intros more y' Hmore.
      assert (wedged (m_TaskWorkers (shared σ)) (m_TaskQueue (shared σ)) (yard_start σ))
        as Hw by (unfold wedged; cbn; eauto 10).
      destruct (yard_run_wedged _ _ _ _ _ _ _ Hany Hw Hmore) as (_ & _ & _ & ? & ?).
      done.
  - intros count Hlt Hg Hm. eexists. by apply SetWorkerCount_expired.
Qed.

End Submitting.

(** ** Waiting for the queue to drain *)

Section Waiting.

Context {ThreadManager : Type}.
Implicit Types (s : @State ThreadManager) (σ : Drain ThreadManager).

Lemma free_for_spec holdings tr :
  free_for holdings tr = true ↔
  ∀ m held, m ∈ acquired tr → held ∈ holdings → m ∉ held.
Proof.
  unfold free_for. rewrite forallb_forall. split.
  - intros H m held Hm Hh. apply list_elem_of_In, H in Hm.
    rewrite forallb_forall in Hm. apply list_elem_of_In, Hm in Hh.
    by apply bool_decide_eq_true in Hh.
  - intros H m Hm. apply forallb_forall. intros held Hh.
    apply bool_decide_eq_true. apply H; by apply list_elem_of_In.
Qed.

(** The steps of [WorkerFn_lock_step]. *)
Inductive worker_lock_moves (id : nat) (s : @State ThreadManager)
  : WorkerPoint → list Event → @State ThreadManager → WorkerPoint → Prop :=
| lock_moves_queue pc :
    pc = AtLoopHead ∨ pc = InWait →
    worker_lock_moves id s (At pc) [EvLock TaskQueueMutex] s AtValidation
| lock_moves_validate :
    worker_lock_moves id s AtValidation (check_trace (m_TaskWorkers s) id) s
      (At (AtWaitCondition (is_present (m_TaskWorkers s) id)))
| lock_moves_on pc tr s' pc' :
    pc ≠ AtLoopHead → pc ≠ InWait →
    worker_moves id s pc tr s' pc' →
    worker_lock_moves id s (At pc) tr s' (At pc').

Lemma WorkerFn_lock_step_moves id p s tr s' p' :
  WorkerFn_lock_step id p s = Done tr s' p' → worker_lock_moves id s p tr s' p'.
Proof.
  destruct p as [pc|].
  - destruct (decide (pc = AtLoopHead ∨ pc = InWait)) as [Hpc|Hpc].
    + destruct Hpc as [-> | ->]; cbn; unfold bind, emit, ret; intros [= <- <- <-];
        constructor; auto.
    + assert (WorkerFn_lock_step id (At pc) s
              = bind (WorkerFn_step id pc) (λ pc', ret (At pc')) s) as ->.
      { destruct pc; try done; exfalso; apply Hpc; auto. }
      unfold bind at 1.
      destruct (WorkerFn_step id pc s) as [tr1 s1 pc1|] eqn:Hstep; [|done].
      unfold ret. intros [= <- <- <-]. rewrite app_nil_r.
      apply WorkerFn_step_moves in Hstep.
      constructor; [..|done]; intros ->; apply Hpc; auto.
  - cbn. unfold bind. rewrite CanWorkerContinueWorking_spec. unfold ret.
    intros [= <- <- <-]. rewrite app_nil_r. constructor.
Qed.

(** The two steps at the head of the loop are the one step of
    [WorkerFn_step]. *)
Lemma WorkerFn_lock_step_twice id pc s :
  pc = AtLoopHead ∨ pc = InWait →
  bind (WorkerFn_lock_step id (At pc)) (WorkerFn_lock_step id) s
  = bind (WorkerFn_step id pc) (λ pc', ret (At pc')) s.
Proof.
  intros Hpc. unfold bind at 2. rewrite WorkerFn_step_check by done.
  destruct Hpc as [-> | ->]; cbn; unfold bind, emit, ret;
    rewrite CanWorkerContinueWorking_spec; cbn; by rewrite ?app_nil_r.
Qed.

(** What a step of a worker does to the queue and to its hold of the
    queue mutex. *)
Lemma worker_lock_moves_queue id s p tr s' p' :
  worker_lock_moves id s p tr s' p' →
  (m_TaskQueue s' = m_TaskQueue s ∨
   (∃ task c, p = At (AtStopCheck c) ∧ m_TaskQueue s = task :: m_TaskQueue s')) ∧
  (TaskQueueMutex ∈ worker_point_holds p' →
   TaskQueueMutex ∈ worker_point_holds p ∨ TaskQueueMutex ∈ acquired tr) ∧
  (validated p' → validated p ∨ TaskWorkersMutex ∈ acquired tr) ∧
  (p = AtValidation → TaskWorkersMutex ∈ acquired tr) ∧
  (p' = AtValidation → p ≠ AtValidation).
Proof.
  unfold validated.
  destruct 1 as [pc Hpc| |pc tr s' pc' Hn1 Hn2 Hm].
  - split_and!; [by left|cbn; set_solver| |done|done].
    intros (c & [?|?]); done.
  - split_and!; [by left|cbn; set_solver| | |done].
    + intros _. right. unfold check_trace. cbn. set_solver.
    + intros _. unfold check_trace. cbn. set_solver.
  - split_and!; [| | |done|done].
    + destruct Hm; try (by left). right. eexists _, _. split; [done|].
      cbn. done.
    + cbn. intros Hin. destruct Hm; cbn in *; set_solver.
    + intros (c & [E|E]); injection E as ->; left; inversion Hm; naive_solver.
Qed.

Lemma wait_lock_step_pool s :
  WaitUntilAllTasksFinished_lock_step AtPoolLock s
  = Done [EvLock TaskWorkersMutex] s AtQueueLock.
Proof. done. Qed.

Lemma wait_lock_step_queue p s :
  p = AtQueueLock ∨ p = InSignalWait →
  WaitUntilAllTasksFinished_lock_step p s = Done [EvLock TaskQueueMutex] s AtQueueTest.
Proof. by intros [-> | ->]. Qed.

Lemma wait_lock_step_test s :
  WaitUntilAllTasksFinished_lock_step AtQueueTest s
  = if bool_decide (m_TaskQueue s = [])
    then Done [EvUnlock TaskQueueMutex; EvUnlock TaskWorkersMutex] s WaitOver
    else Done [EvUnlock TaskQueueMutex; EvWait] s InSignalWait.
Proof. cbn. run_step. by case_bool_decide. Qed.

Lemma wait_lock_step_over s :
  WaitUntilAllTasksFinished_lock_step WaitOver s = Done [] s WaitOver.
Proof. done. Qed.

(** The two locks of the entry are the one step of
    [WaitUntilAllTasksFinished_step]. *)
Lemma wait_lock_step_twice s :
  bind (WaitUntilAllTasksFinished_lock_step AtPoolLock)
    WaitUntilAllTasksFinished_lock_step s
  = Done (trace_of (WaitUntilAllTasksFinished_step WaitEntry s)) s AtQueueTest.
Proof. done. Qed.

Lemma worker_holding σ i p m :
  drain_pcs σ !! i = Some p → m ∈ worker_point_holds p →
  ∃ held, held ∈ drain_holdings σ ∧ m ∈ held.
Proof.
  intros Hi Hm. exists (worker_point_holds p). split; [|done].
  unfold drain_holdings. right. apply list_elem_of_fmap. exists p. split; [done|].
  by eapply list_elem_of_lookup_2.
Qed.

Lemma draining_waiter σ σ' :
  draining σ → drain_step Waiter σ = Some σ' → draining σ'.
Proof.
  intros Hinv. unfold drain_step.
  destruct (waiter σ) eqn:Hw.
  - rewrite wait_lock_step_pool.
    destruct (free_for _ _); intros [= <-]; [|done]. by unfold draining.
  - rewrite wait_lock_step_queue by auto.
    destruct (free_for _ _) eqn:Hfree; intros [= <-]; [|done].
    unfold draining. cbn. rewrite free_for_spec in Hfree.
    intros i p Hi Hin. destruct (worker_holding σ i p _ Hi Hin) as (held & Hh & Hm).
    apply (Hfree TaskQueueMutex held); [cbn; set_solver|done|done].
  - rewrite wait_lock_step_test. unfold draining in Hinv. rewrite Hw in Hinv.
    case_bool_decide as Hq.
    + destruct (free_for _ _); intros [= <-]; [|by unfold draining; rewrite Hw].
      by unfold draining.
    + destruct (free_for _ _); intros [= <-]; [|by unfold draining; rewrite Hw].
      unfold draining. cbn. intros i p Hi (c & [-> | ->]); apply (Hinv i _ Hi); cbn; set_solver.
  - rewrite wait_lock_step_queue by auto.
    destruct (free_for _ _) eqn:Hfree; intros [= <-]; [|done].
    unfold draining. cbn. rewrite free_for_spec in Hfree.
    intros i p Hi Hin. destruct (worker_holding σ i p _ Hi Hin) as (held & Hh & Hm).
    apply (Hfree TaskQueueMutex held); [cbn; set_solver|done|done].
  - rewrite wait_lock_step_over.
    destruct (free_for _ _); intros [= <-]; [|done].
    unfold draining in *. cbn. by rewrite Hw in Hinv.
Qed.

Lemma draining_worker id σ σ' :
  draining σ → drain_step (DrainWorker id) σ = Some σ' →
  draining σ' ∧
  (m_TaskQueue (drained σ') = m_TaskQueue (drained σ) ∨
   (waiter σ ≠ AtQueueTest ∧ waiter σ ≠ InSignalWait ∧
    ∃ task, m_TaskQueue (drained σ) = task :: m_TaskQueue (drained σ'))).
Proof.
  intros Hinv. unfold drain_step.
  destruct (drain_pcs σ !! id) as [p|] eqn:Hid; [|intros [= <-]; by split; [|left]].
  destruct (WorkerFn_lock_step id p (drained σ)) as [tr s' p'|] eqn:Hstep; [|done].
  apply WorkerFn_lock_step_moves in Hstep.
  destruct (free_for _ _) eqn:Hfree; intros [= <-]; [|by split; [|left]].
  rewrite free_for_spec in Hfree.
  destruct (worker_lock_moves_queue _ _ _ _ _ _ Hstep) as (Hq & Hheld & Hval & Hv & _).
  assert (∀ m, m ∈ wait_point_holds (waiter σ) → m ∉ acquired tr) as Hwaiter.
  { intros m Hm Hin. apply (Hfree m (wait_point_holds (waiter σ))); [done|by left|done]. }
  assert (∀ P : WorkerPoint → Prop,
            (∀ i q, drain_pcs σ !! i = Some q → P q) → P p' →
            ∀ i q, <[id := p']> (drain_pcs σ) !! i = Some q → P q) as Hupd.
  { intros P Hall Hp' i q Hi. destruct (decide (i = id)) as [->|Hne].
    - rewrite list_lookup_insert_eq in Hi by (by eapply lookup_lt_Some). by injection Hi as <-.
    - rewrite list_lookup_insert_ne in Hi by done. by eapply Hall. }
  unfold draining in *. cbn [waiter drained drain_pcs].
  destruct (waiter σ) eqn:Hw.
  - split; [done|]. destruct Hq as [?|(task & c & _ & ?)]; [by left|right]. eauto.
  - split; [done|]. destruct Hq as [?|(task & c & _ & ?)]; [by left|right]. eauto.
  - assert (TaskQueueMutex ∉ worker_point_holds p') as Hfreeq.
    { intros Hin. destruct (Hheld Hin) as [Hold|Hacq]; [by apply (Hinv id p Hid)|].
      apply (Hwaiter TaskQueueMutex); [cbn; set_solver|done]. }
    split; [by apply (Hupd (λ q, TaskQueueMutex ∉ worker_point_holds q))|].
    left. destruct Hq as [?|(task & c & -> & ?)]; [done|].
    exfalso. apply (Hinv id _ Hid). destruct c; cbn; set_solver.
  - assert (¬ validated p') as Hnv.
    { intros Hv'. destruct (Hval Hv') as [Hold|Hacq]; [by apply (Hinv id p Hid)|].
      apply (Hwaiter TaskWorkersMutex); [cbn; set_solver|done]. }
    split; [by apply (Hupd (λ q, ¬ validated q))|].
    left. destruct Hq as [?|(task & c & -> & ?)]; [done|].
    exfalso. apply (Hinv id _ Hid). exists c. by right.
  - destruct Hq as [E|(task & c & _ & E)]; [split; [congruence|by left]|].
    rewrite Hinv in E. done.
Qed.

Lemma drain_run_draining schedule σ σ' :
  draining σ → drain_run schedule σ = Some σ' → draining σ'.
Proof.
  revert σ. induction schedule as [|t schedule IH]; intros σ Hinv; cbn.
  - by intros [= <-].
  - destruct (drain_step t σ) as [σ1|] eqn:Hstep; [|done].
    apply IH. destruct t as [|id]; [by eapply draining_waiter|].
    by destruct (draining_worker id σ σ1 Hinv Hstep).
Qed.

(** Once the thread has found the queue filled, it finds it so for
    ever. *)
Lemma drain_run_filled schedule σ σ' :
  draining σ →
  waiter σ = AtQueueTest ∨ waiter σ = InSignalWait →
  m_TaskQueue (drained σ) ≠ [] →
  drain_run schedule σ = Some σ' →
  (waiter σ' = AtQueueTest ∨ waiter σ' = InSignalWait) ∧
  m_TaskQueue (drained σ') = m_TaskQueue (drained σ).
Proof.
  revert σ. induction schedule as [|t schedule IH]; intros σ Hinv Hw Hq; cbn.
  - by intros [= <-].
  - destruct (drain_step t σ) as [σ1|] eqn:Hstep; [|done]. intros Hrun.
    assert (draining σ1 ∧ (waiter σ1 = AtQueueTest ∨ waiter σ1 = InSignalWait) ∧
            m_TaskQueue (drained σ1) = m_TaskQueue (drained σ)) as (Hinv1 & Hw1 & Hq1).
    { destruct t as [|id].
      - split; [by eapply draining_waiter|].
        revert Hstep. unfold drain_step. destruct Hw as [Hw|Hw]; rewrite Hw.
        + rewrite wait_lock_step_test, bool_decide_eq_false_2 by done.
          destruct (free_for _ _); intros [= <-]; cbn; auto.
        + rewrite wait_lock_step_queue by auto.
          destruct (free_for _ _); intros [= <-]; cbn; auto.
      - destruct (draining_worker id σ σ1 Hinv Hstep) as [Hinv1 Hcase].
        split; [done|]. split.
        + revert Hstep. unfold drain_step.
          destruct (drain_pcs σ !! id); [|by intros [= <-]].
          destruct (WorkerFn_lock_step _ _ _); [|done].
          by destruct (free_for _ _); intros [= <-].
        + destruct Hcase as [?|(Hn1 & Hn2 & _)]; [done|]. by destruct Hw. }
    destruct (IH σ1 Hinv1 Hw1) as [? ?]; [congruence|done|]. split; [done|congruence].
Qed.

(** The thread waits for the queue mutex, which a worker holds that
    waits for the worker-pool mutex, which the thread holds. *)
Lemma drain_run_embrace schedule i σ σ' :
  waiter σ = AtQueueLock ∨ waiter σ = InSignalWait →
  drain_pcs σ !! i = Some AtValidation →
  drain_run schedule σ = Some σ' →
  waiter σ' = waiter σ ∧ drain_pcs σ' !! i = Some AtValidation.
Proof.
  revert σ. induction schedule as [|t schedule IH]; intros σ Hw Hi; cbn.
  - by intros [= <-].
  - destruct (drain_step t σ) as [σ1|] eqn:Hstep; [|done]. intros Hrun.
    assert (waiter σ1 = waiter σ ∧ drain_pcs σ1 !! i = Some AtValidation) as (Hw1 & Hi1).
    { revert Hstep. unfold drain_step. destruct t as [|id].
      - rewrite wait_lock_step_queue by done.
        destruct (free_for _ _) eqn:Hfree; intros [= <-]; [|done].
        exfalso. rewrite free_for_spec in Hfree.
        destruct (worker_holding σ i AtValidation TaskQueueMutex Hi) as (held & Hh & Hm);
          [cbn; set_solver|].
        apply (Hfree TaskQueueMutex held); [cbn; set_solver|done|done].
      - destruct (drain_pcs σ !! id) as [p|] eqn:Hid; [|by intros [= <-]].
        destruct (WorkerFn_lock_step id p (drained σ)) as [tr s' p'|] eqn:Hstep; [|done].
        apply WorkerFn_lock_step_moves in Hstep.
        destruct (free_for _ _) eqn:Hfree; intros [= <-]; [|done].
        rewrite free_for_spec in Hfree.
        destruct (worker_lock_moves_queue _ _ _ _ _ _ Hstep) as (Hq & Hheld & _ & Hv & Hnv).
        assert (TaskWorkersMutex ∉ acquired tr) as HW.
        { intros Hin. apply (Hfree TaskWorkersMutex (wait_point_holds (waiter σ)));
            [done|by left|]. destruct Hw as [-> | ->]; cbn; set_solver. }
        assert (id ≠ i) as Hne.
        { intros ->. rewrite Hi in Hid. injection Hid as <-. by apply HW, Hv. }
        cbn. split; [done|]. by rewrite list_lookup_insert_ne. }
    destruct (IH σ1) as (? & ?); [by rewrite Hw1|done|done|].
    split; congruence.
Qed.

(** X8.  A thread in [WaitUntilAllTasksFinished] while the workers run
    and nothing is submitted, every lock being a step of its own.  The
    call returns only from an empty queue.  Once it has found the queue
    filled at line 127 it never returns and the queue never changes,
    whatever the interleaving: it keeps the worker-pool mutex while it
    waits, and a worker has to pass [CanWorkerContinueWorking], which
    takes that mutex, before it takes a task (lines 240-258).  When it
    finds the queue empty it returns at once, whatever the workers are
    working on: it does not wait for a task that has been taken from the
    queue to finish.  And when it waits for the queue mutex while a
    worker that holds the queue mutex is about to call
    [CanWorkerContinueWorking], neither of the two moves again, be the
    queue empty or not. *)
Theorem WaitUntilAllTasksFinished_on_a_filled_queue s ps schedule σ :
  drain_run schedule (drain_start s ps) = Some σ →
  (waiter σ = WaitOver → m_TaskQueue (drained σ) = []) ∧
  (waiter σ = AtQueueTest ∨ waiter σ = InSignalWait →
   m_TaskQueue (drained σ) ≠ [] →
   ∀ more σ', drain_run more σ = Some σ' →
     waiter σ' ≠ WaitOver ∧ m_TaskQueue (drained σ') = m_TaskQueue (drained σ)) ∧
  (waiter σ = AtQueueTest → m_TaskQueue (drained σ) = [] →
   ∃ σ1, drain_step Waiter σ = Some σ1 ∧ waiter σ1 = WaitOver ∧
         drain_pcs σ1 = drain_pcs σ ∧ executed (drain_log σ1) = executed (drain_log σ)) ∧
  (∀ i, waiter σ = AtQueueLock ∨ waiter σ = InSignalWait →
        drain_pcs σ !! i = Some AtValidation →
   ∀ more σ', drain_run more σ = Some σ' →
     waiter σ' = waiter σ ∧ drain_pcs σ' !! i = Some AtValidation).
Proof.
  intros Hrun.
  assert (draining σ) as Hinv by (by eapply drain_run_draining; [|done]).
  split_and!.
  - intros Hr. unfold draining in Hinv. by rewrite Hr in Hinv.
  - intros Hw Hq more σ' Hmore.
    destruct (drain_run_filled _ _ _ Hinv Hw Hq Hmore) as [Hw' Hq'].
    split; [|done]. destruct Hw' as [E|E]; by rewrite E.
  - intros Hc Hq.
    unfold drain_step. rewrite Hc, wait_lock_step_test, bool_decide_eq_true_2 by done.
    rewrite (proj2 (free_for_spec _ _)) by (intros m held Hm; cbn in Hm; set_solver).
    eexists. split; [done|]. cbn. split_and!; [done|done|].
    rewrite executed_app. cbn. by rewrite app_nil_r.
  - intros i Hw Hi more σ' Hmore. by eapply drain_run_embrace.
Qed.

End Waiting.

(** The worker has passed [CanWorkerContinueWorking] when the thread
    enters: it takes task 7, the only one, between the two locks of the
    thread, which then finds the queue empty and returns; task 7 has not
    run. *)
Example WaitUntilAllTasksFinished_between_its_locks :
  ∃ σ,
    drain_run [Waiter; DrainWorker 0; DrainWorker 0; Waiter; Waiter]
      (drain_start (Demo.scheduler [Some 100] [5%positive] [] true
                      (<[5%positive := Some 7]> ∅))
         [At (AtWaitCondition true)]) = Some σ ∧
    waiter σ = WaitOver ∧
    drain_pcs σ = [At (AtTaskWork (Some 5%positive))] ∧
    executed (drain_log σ) = [].
Proof. eexists. split; [by vm_compute|done]. Qed.

(** ** Any number of workers *)

Section Many.

Context {ThreadManager : Type}.
Implicit Types (s : @State ThreadManager) (σ : @System ThreadManager).

(** X9.  One thread submits [tasks] while any number of workers run and
    no resize happens, the pool having a worker present.  Whatever the
    interleaving, no step aborts, every submission is accepted, and the
    tasks run so far, those being worked on, those queued and those still
    to be submitted are together, up to order, the tasks queued at the
    start and [tasks]: no task is lost and none is run twice, and once
    nothing is left to do all of them have been run. *)
Theorem every_task_runs_exactly_once s tasks schedule :
  wf s →
  any_worker (m_TaskWorkers s) = true →
  ∃ σ, system_run schedule (system_start s tasks) = Some σ ∧
       accepted σ ++ pending σ = tasks ∧
       executed (log σ) ++ held_tasks (sched σ) (pcs σ) ++ queued_tasks (sched σ)
         ++ pending σ ≡ₚ queued_tasks s ++ tasks ∧
       (NoDup (queued_tasks s ++ tasks) → NoDup (executed (log σ))) ∧
       (quiescent σ → executed (log σ) ≡ₚ queued_tasks s ++ tasks).
Proof.
  intros Hwf Hany.
  destruct (system_start_wf s tasks Hwf) as (Hwf0 & _ & Hc0).
  destruct (system_run_spec schedule (queued_tasks s) _ Hwf0 Hc0)
    as (σ & Hrun & Hwfσ & Hc & _ & _ & Hacc & _).
  cbn in Hacc. specialize (Hacc Hany). unfold conserved in Hc.
  assert (executed (log σ) ++ held_tasks (sched σ) (pcs σ) ++ queued_tasks (sched σ)
            ++ pending σ ≡ₚ queued_tasks s ++ tasks) as Hall.
  { rewrite <-Hacc, !app_assoc. rewrite <-(app_assoc _ _ (queued_tasks (sched σ))).
    by rewrite Hc. }
  exists σ. split_and!; [done|done|done| |].
  - intros Hnd. rewrite <-Hall in Hnd. by apply NoDup_app in Hnd as (? & _).
  - intros (HP & HQ & HH). rewrite <-Hall.
    unfold held_tasks, queued_tasks. rewrite HP, HQ, HH. cbn. by rewrite app_nil_r.
Qed.

Lemma allocated_app tr1 tr2 : allocated (tr1 ++ tr2) = allocated tr1 ++ allocated tr2.
Proof. apply omap_app. Qed.

Lemma freed_app tr1 tr2 : freed (tr1 ++ tr2) = freed tr1 ++ freed tr2.
Proof. apply omap_app. Qed.

Lemma AddTask_frees_nothing task s : freed (trace_of (AddTask task s)) = [].
Proof.
  destruct s as [mgr0 act0 new0 name ws queue pool allow h ms0].
  unfold AddTask, AreThereAnyAvailableWorker, AllocT, construct. run_step.
  destruct ws as [|[th|] ws]; cbn; [done| |destruct (any_worker ws); cbn; [|done]].
  all: destruct (last pool) as [p|]; cbn;
    [destruct (h !! p); by cbn|by rewrite lookup_insert_eq].
Qed.

Lemma worker_moves_storage id s pc tr s' pc' :
  worker_moves id s pc tr s' pc' →
  allocated tr = [] ∧ freed tr = [] ∧
  dom (heap s') = dom (heap s) ∧
  (list_to_set (m_TaskQueue s' ++ m_FreeTaskPool s' ++ held_slot pc') : gset positive)
  = list_to_set (m_TaskQueue s ++ m_FreeTaskPool s ++ held_slot pc) ∧
  (held_slot pc' = held_slot pc → m_TaskQueue s' = m_TaskQueue s ∧
                                   m_FreeTaskPool s' = m_FreeTaskPool s).
Proof.
  destruct 1 as [pc0 [-> | ->]| | | | |task rest Hq|task t Ht| |]; cbn;
    try (split_and!; [try done..]; unfold check_trace; by case_bool_decide).
  - split_and!; [done|done|done| |done]. rewrite Hq. cbn.
    rewrite !list_to_set_app_L. cbn. set_solver.
  - split_and!; [done|done| | |done].
    + rewrite dom_insert_L. apply elem_of_dom_2 in Ht. set_solver.
    + rewrite !list_to_set_app_L. cbn. set_solver.
Qed.

Lemma system_step_accounted D0 a σ σ' :
  system_wf σ → accounted D0 σ →
  system_step a σ = Some σ' → accounted D0 σ'.
Proof.
  intros Hwf (Hown & Hdom & Hnd & Hnew & Hfreed).
  pose proof (system_wf_sched σ Hwf) as Hwfs.
  unfold accounted, owned in *.
  destruct σ as [s ps P A L]. cbn [sched pcs pending accepted log] in *.
  destruct a as [|id]; unfold system_step; cbn [sched pcs pending accepted log].
  - destruct P as [|t P]; [by intros [= <-]|].
    pose proof (AddTask_frees_nothing t s) as Hfr.
    destruct (any_worker (m_TaskWorkers s)) eqn:Hany; cycle 1.
    { destruct (AddTask_rejected t s Hany) as (tr0 & Heq & Hobs).
      rewrite Heq in Hfr |- *. cbn [trace_of] in Hfr. intros [= <-].
      cbn [sched pcs log].
      rewrite freed_app, Hfr, Hfreed, allocated_app.
      change (allocated (?e :: ?l)) with (allocated l).
      rewrite allocated_app, (allocated_observes _ Hobs).
      change (allocated [_]) with (@nil SlimTaskPtr).
      rewrite !app_nil_r. done. }
    destruct (m_FreeTaskPool s) as [|x pool _] eqn:Epool using rev_ind.
    + destruct (AddTask_fresh t s Hany Epool) as (tr & Heq & Hal).
      rewrite Heq in Hfr |- *. cbn [trace_of] in Hfr. intros [= <-].
      cbn [sched pcs log submitted m_TaskQueue m_FreeTaskPool heap set_TaskQueue set_heap
           set_FreeTaskPool].
      rewrite freed_app, Hfr, Hfreed, allocated_app, Hal.
      pose proof (is_fresh (dom (heap s))) as Hfresh.
      set (p0 := fresh (dom (heap s))) in *. clearbody p0.
      split_and!; [| | | |done].
      * rewrite dom_insert_L, Hown. rewrite !list_to_set_app_L. cbn. set_solver.
      * rewrite dom_insert_L, list_to_set_app_L, Hdom at 1. cbn. set_solver.
      * apply NoDup_app. split_and!; [done| |apply NoDup_singleton].
        intros p Hp Hp'. apply list_elem_of_singleton in Hp' as ->.
        apply Hfresh. rewrite Hdom. set_solver.
      * intros p Hp. apply elem_of_app in Hp as [Hp|Hp]; [by apply Hnew|].
        apply list_elem_of_singleton in Hp as ->.
        intros Hin. apply Hfresh. rewrite Hdom. set_solver.
    + assert (heap s !! x = Some None) as Hraw.
      { destruct Hwfs as (_ & _ & Hp). rewrite Epool, Forall_app, Forall_singleton in Hp.
        by destruct Hp. }
      destruct (AddTask_reuse t s pool x _ Hany Epool Hraw) as (tr & Heq & Hal).
      rewrite Heq in Hfr |- *. cbn [trace_of] in Hfr. intros [= <-].
      cbn [sched pcs log submitted m_TaskQueue m_FreeTaskPool heap set_TaskQueue set_heap
           set_FreeTaskPool].
      rewrite freed_app, Hfr, Hfreed, allocated_app, Hal, app_nil_r.
      apply elem_of_dom_2 in Hraw.
      split_and!; [| |done|done|done].
      * rewrite dom_insert_L, Hown. rewrite !list_to_set_app_L. cbn.
        rewrite Hown in Hraw. rewrite !list_to_set_app_L in Hraw. set_solver.
      * rewrite dom_insert_L. set_solver.
  - destruct (ps !! id) as [pc|] eqn:Hpc; [|by intros [= <-]].
    destruct (WorkerFn_step id pc s) as [tr s' pc'|] eqn:Hstep; [|done].
    intros [= <-]. cbn [sched pcs log].
    apply WorkerFn_step_moves in Hstep.
    destruct (worker_moves_storage _ _ _ _ _ _ Hstep) as (Hal & Hfr & Hd & Hset & _).
    destruct (worker_at_split ps id pc Hpc) as (l1 & l2 & -> & Hins).
    rewrite Hins, allocated_app, freed_app, Hal, Hfr, Hfreed, app_nil_r, Hd.
    split_and!; [|done..].
    rewrite Hown. rewrite !held_slots_app, !held_slots_cons.
    rewrite !list_to_set_app_L in Hset |- *. set_solver.
Qed.

Lemma system_run_accounted D0 schedule σ σ' :
  system_wf σ → accounted D0 σ →
  system_run schedule σ = Some σ' → accounted D0 σ'.
Proof.
  revert σ. induction schedule as [|a schedule IH]; intros σ Hwf Hacc; cbn.
  - by intros [= <-].
  - destruct (system_step_spec a σ Hwf) as (σ1 & Hstep & Hwf1 & _).
    rewrite Hstep. apply IH; [done|]. exact (system_step_accounted D0 a σ σ1 Hwf Hacc Hstep).
Qed.

(** X10.  The same threads, on a scheduler whose allocated storage is
    that of its queue and its pool.  Whatever the interleaving, every
    piece of storage allocated is, once, in the queue, in the pool or in
    the hands of a worker; the storage in existence is that of the start
    and what [AddTask] has allocated since, all of it new; nothing is
    given back to the allocator; and once nothing is left to do all
    storage is in the pool, raw, for later submissions to use. *)
Theorem storage_is_kept_and_reused s tasks schedule :
  wf s →
  dom (heap s) = list_to_set (m_TaskQueue s ++ m_FreeTaskPool s) →
  ∃ σ, system_run schedule (system_start s tasks) = Some σ ∧
       NoDup (m_TaskQueue (sched σ) ++ m_FreeTaskPool (sched σ) ++ held_slots (pcs σ)) ∧
       dom (heap (sched σ))
       = list_to_set (m_TaskQueue (sched σ) ++ m_FreeTaskPool (sched σ)
                        ++ held_slots (pcs σ)) ∧
       dom (heap (sched σ)) = dom (heap s) ∪ list_to_set (allocated (log σ)) ∧
       NoDup (allocated (log σ)) ∧
       (∀ p, p ∈ allocated (log σ) → p ∉ dom (heap s)) ∧
       freed (log σ) = [] ∧
       (quiescent σ →
        dom (heap (sched σ)) = list_to_set (m_FreeTaskPool (sched σ)) ∧
        Forall (λ p, heap (sched σ) !! p = Some None) (m_FreeTaskPool (sched σ))).
Proof.
  intros Hwf Hdom.
  destruct (system_start_wf s tasks Hwf) as (Hwf0 & _ & Hc0).
  destruct (system_run_spec schedule (queued_tasks s) _ Hwf0 Hc0)
    as (σ & Hrun & Hwfσ & _).
  assert (accounted (dom (heap s)) (system_start s tasks)) as Hacc0.
  { unfold accounted, owned, system_start. cbn [sched pcs log].
    rewrite held_slots_start, app_nil_r.
    split_and!; [done|cbn; set_solver|constructor|cbn; set_solver|done]. }
  destruct (system_run_accounted _ _ _ _ Hwf0 Hacc0 Hrun) as (Hown & Hd & Hnd & Hnew & Hfr).
  destruct Hwfσ as (Hndσ & _ & Hraw).
  exists σ. split_and!; [done..|].
  intros (_ & HQ & HH). split; [|done].
  unfold owned in Hown. by rewrite Hown, HQ, HH, app_nil_r.
Qed.

End Many.

(** ** A manager that is deactivated *)

Section Deactivation.

Context {ThreadManager : Type}.
Implicit Types (s : @State ThreadManager).
Variable join_attempts : Thread → nat.
Variable CreateThread : ThreadManager → ThreadConfig → TResult Thread * ThreadManager.
Variable ThreadManagerUUID : nat.

Lemma growth_asks_the_manager count s tm :
  length (m_TaskWorkers s) < count →
  m_AllowGrowth s = true →
  managers s !! m_ThreadManager s = Some tm →
  ∃ tr s' r cfg res,
    SetWorkerCount CreateThread join_attempts count s = Done tr s' r ∧
    EvCreateThread cfg res ∈ tr.
Proof.
  intros Hlt Hg Hm.
  destruct (SetWorkerCount_grow join_attempts CreateThread count s tm Hlt Hg Hm)
    as (tr & s' & r & Heq & _ & Hws & _ & Hcase).
  destruct Hcase as [(_ & Hlen & _)|(trp & cfg & msg & -> & _)].
  - rewrite Hws, length_app, length_fmap in Hlen.
    destruct (created_threads tr) as [|th ths] eqn:Hc; [cbn in Hlen; lia|].
    assert (th ∈ created_threads tr) as Hin by (rewrite Hc; left).
    apply list_elem_of_omap in Hin as ([] & Hin & He); try done.
    eexists tr, s', r, _, _. split; [done|]. exact Hin.
  - eexists _, s', r, cfg, (Failure msg). split; [done|]. set_solver.
Qed.

(** X11.  A notification that the manager is no longer active and names
    no replacement (lines 172-183).  With the library and the application
    of the old interface alive, the handler moves its registration from
    the manager to the application and changes nothing else: the weak
    reference still names the old manager.  From then on activation
    notifications do not reach the scheduler, announcements of the
    application that carry no interface or one that is no thread manager
    leave it as it is, the announcement of a thread manager binds it to
    that manager, and in the meantime a growing [SetWorkerCount] still
    asks the old manager for threads as long as it exists.  With the
    library or the application expired, or without an old interface, the
    handler ends the process. *)
Theorem deactivation_waits_for_a_manager old s :
  (∀ lib app,
     GetLibrary old = Some lib → GetApplication lib = Some app →
     ∃ tr s1,
       OnManagerActivation false (Some old) None s = Done tr s1 () ∧
       s1 = with_binding (m_ThreadManager s) [] [OnInterfaceActivationEvent app]
              (managers s) s ∧
       (∀ iface active oldInterface newInterface,
          deliver ThreadManagerUUID
            (ActivationNotice iface active oldInterface newInterface) s1
          = Done [] s1 ()) ∧
       (∀ host newInterface,
          host ≠ app ∨
          (∀ i, newInterface = Some i → GetInterfaceUUID i ≠ ThreadManagerUUID) →
          ∃ tr', deliver ThreadManagerUUID (NewInterfaceNotice host newInterface) s1
                 = Done tr' s1 ()) ∧
       (∀ iface,
          GetInterfaceUUID iface = ThreadManagerUUID →
          ∃ tr',
            deliver ThreadManagerUUID (NewInterfaceNotice app (Some iface)) s1
            = Done tr'
                (with_binding (InterfaceId iface) [ActivationEvent (InterfaceId iface)] []
                   (managers s) s) ()) ∧
       (∀ count tm,
          length (m_TaskWorkers s) < count → m_AllowGrowth s = true →
          managers s !! m_ThreadManager s = Some tm →
          ∃ tr' s' r cfg res,
            SetWorkerCount CreateThread join_attempts count s1 = Done tr' s' r ∧
            EvCreateThread cfg res ∈ tr')) ∧
  (GetLibrary old = None ∨ (∃ lib, GetLibrary old = Some lib ∧ GetApplication lib = None) →
   ∃ msg, OnManagerActivation false (Some old) None s = Abort msg) ∧
  (∃ msg, OnManagerActivation false None None s = Abort msg).
Proof.
  split_and!.
  - intros lib app Hl Ha.
    rewrite (OnManagerActivation_deactivated old lib app s Hl Ha).
    eexists _, _. split; [done|].
    split_and!.
    + unfold with_binding. by destruct s.
    + intros iface active o n. unfold deliver, bind, gets. cbn.
      by rewrite bool_decide_eq_false_2 by set_solver.
    + intros host n Hcase. unfold deliver, bind, gets. cbn.
      case_bool_decide as Hreg; [|by eexists].
      destruct Hcase as [Hne|Hforeign]; [set_solver|].
      rewrite OnNewManager_ignored by done. by eexists.
    + intros iface Hu. unfold deliver, bind, gets. cbn.
      rewrite bool_decide_eq_true_2 by set_solver.
      rewrite OnNewManager_bound by done. by eexists.
    + intros count tm Hlt Hg Hm. by eapply growth_asks_the_manager.
  - intros [Hl|(lib & Hl & Ha)]; unfold OnManagerActivation; run_step;
      rewrite Hl; [|rewrite Ha]; by eexists.
  - by eexists.
Qed.

End Deactivation.

(** ** Removing the only worker *)

Section Joining.

Context {ThreadManager : Type}.
Implicit Types (s : @State ThreadManager) (σ : @Scene ThreadManager).
Variable CreateThread : ThreadManager → ThreadConfig → TResult Thread * ThreadManager.

Lemma scene_run_app count a b σ :
  scene_run CreateThread count (a ++ b) σ
  = scene_run CreateThread count a σ ≫= scene_run CreateThread count b.
Proof.
  revert σ. induction a as [|x a IH]; intros σ; cbn; [done|].
  destruct (scene_step CreateThread count x σ); [apply IH|done].
Qed.

(** The resizing thread takes a step that locks nothing that it or a
    worker holds. *)
Lemma resizer_steps count σ tr s' pc' :
  SetWorkerCount_step CreateThread count (has_returned σ) (resizer σ) (shared σ)
  = Done tr s' pc' →
  (∀ m, m ∈ acquired tr → m ∉ resizer_holds σ) →
  (∀ m i pc, m ∈ acquired tr → worker_pcs σ !! i = Some pc → m ∉ worker_holds pc) →
  scene_step CreateThread count Resizer σ
  = Some {| shared := s'; resizer := pc';
            resizer_holds := held_after (resizer_holds σ) tr;
            worker_pcs := worker_pcs σ; events := events σ ++ tr |}.
Proof.
  intros Hstep Hown Hfree. unfold scene_step. rewrite Hstep.
  rewrite (proj2 (may_take_spec σ tr)); [done|].
  intros m u Hm Hu. unfold threads in Hu.
  apply elem_of_cons in Hu as [->|Hu]; [by apply Hown|].
  apply list_elem_of_fmap in Hu as (i & -> & Hi). cbn.
  destruct (worker_pcs σ !! i) as [pc|] eqn:Hpc; cbn; [by eapply Hfree|set_solver].
Qed.

(** A lone worker whose slot is null, the resizing thread holding no
    mutex, takes a step towards the end of [WorkerFn]. *)
Lemma leaving_step count σ pc :
  worker_pcs σ = [pc] → pc ≠ Finished →
  resizer_holds σ = [] →
  is_present (m_TaskWorkers (shared σ)) 0 = false →
  system_wf (workers_alone σ) →
  ∃ σ' pc',
    scene_step CreateThread count (WorkerThread 0) σ = Some σ' ∧
    worker_pcs σ' = [pc'] ∧ leaving pc' < leaving pc ∧
    resizer σ' = resizer σ ∧ resizer_holds σ' = [] ∧
    m_TaskWorkers (shared σ') = m_TaskWorkers (shared σ) ∧
    system_wf (workers_alone σ').
Proof.
  intros Hpcs Hnf Hheld Habsent Hwf.
  destruct (system_step_spec (Worker 0) _ Hwf) as (σ1 & Hstep1 & Hwf1 & _).
  revert Hstep1. unfold system_step, scene_step, workers_alone.
  cbn [sched pcs pending accepted log]. rewrite Hpcs. cbn [lookup list_lookup].
  destruct (WorkerFn_step 0 pc (shared σ)) as [tr s' pc'|] eqn:Hstep; [|done].
  intros [= <-].
  apply WorkerFn_step_moves in Hstep.
  rewrite (proj2 (may_take_spec σ tr)); cycle 1.
  { intros m u Hm Hu. unfold threads in Hu. rewrite Hpcs in Hu. cbn in Hu.
    apply elem_of_cons in Hu as [->|Hu]; [cbn; rewrite Hheld; set_solver|].
    apply list_elem_of_singleton in Hu as ->. cbn. rewrite Hpcs. cbn.
    by eapply worker_moves_locks. }
  pose proof (worker_moves_pool _ _ _ _ _ _ Hstep) as Hpool.
  eexists _, pc'. split; [done|]. cbn.
  split_and!; [done| |done|done|done|done].
  destruct Hstep as [pc0 [-> | ->]| |c [?| ->]| | | | | |]; cbn; rewrite ?Habsent; cbn;
    try lia; try done.
  destruct c; cbn; lia.
Qed.

Lemma worker_leaves n count σ pc :
  leaving pc ≤ n →
  worker_pcs σ = [pc] →
  resizer_holds σ = [] →
  is_present (m_TaskWorkers (shared σ)) 0 = false →
  system_wf (workers_alone σ) →
  ∃ k σ',
    scene_run CreateThread count (replicate k (WorkerThread 0)) σ = Some σ' ∧
    worker_pcs σ' = [Finished] ∧
    resizer σ' = resizer σ ∧ resizer_holds σ' = [] ∧
    m_TaskWorkers (shared σ') = m_TaskWorkers (shared σ).
Proof.
  revert σ pc. induction n as [|n IH]; intros σ pc Hn Hpcs Hheld Habsent Hwf.
  { exists 0, σ. cbn. split_and!; [done| |done..].
    rewrite Hpcs. f_equal. destruct pc as [|[|]| |[|]|[?|]|]; cbn in Hn; by try lia. }
  destruct (decide (pc = Finished)) as [->|Hnf].
  { exists 0, σ. by split_and!. }
  destruct (leaving_step count σ pc Hpcs Hnf Hheld Habsent Hwf)
    as (σ1 & pc1 & Hstep & Hpcs1 & Hlt & Hr1 & Hheld1 & Hpool1 & Hwf1).
  destruct (IH σ1 pc1) as (k & σ' & Hrun & Hfin & Hr & Hh & Hp);
    [lia|done|done|by rewrite Hpool1|done|].
  exists (S k), σ'. cbn [replicate scene_run]. rewrite Hstep.
  split_and!; [done|done|congruence|done|congruence].
Qed.

(** A scheduler with one worker: the calling thread marks the slot, the
    worker goes on until it finds the slot null and returns, and the
    calling thread joins it and erases the slot. *)
Lemma one_worker_can_be_removed s th pc :
  m_TaskWorkers s = [Some th] →
  system_wf (workers_alone (scene_start s [pc])) →
  ∃ k σ,
    scene_run CreateThread 0
      ([Resizer; Resizer; Resizer] ++ replicate k (WorkerThread 0)
         ++ [Resizer; Resizer; Resizer; Resizer])
      (scene_start s [pc]) = Some σ ∧
    resizer σ = Returned CreateSuccess.
Proof.
  intros Hws Hwf.
  assert (∀ m, m ∈ [TaskWorkersMutex] → ∀ pc0, m ∉ worker_holds pc0) as Hnever.
  { intros m Hm pc0. apply list_elem_of_singleton in Hm as ->.
    destruct pc0; cbn; set_solver. }
  set (s1 := set_TaskWorkers [None] s).
  set (σ3 := {| shared := s1; resizer := AtJoin (Some th) 1; resizer_holds := [];
                worker_pcs := [pc];
                events := [EvLock TaskWorkersMutex; EvWorkers Observe; EvWorkers Observe;
                           EvWorkers Observe; EvWorkers Observe; EvWorkers Observe;
                           EvWorkers Mutate; EvUnlock TaskWorkersMutex] |}).
  assert (scene_run CreateThread 0 [Resizer; Resizer; Resizer] (scene_start s [pc])
          = Some σ3) as Hfirst.
  { cbn [scene_run].
    erewrite resizer_steps; cycle 1.
    { cbn [resizer shared scene_start]. apply SetWorkerCount_step_entry. rewrite Hws. cbn. lia. }
    { intros m Hm. cbn. set_solver. }
    { intros m i pc0 Hm _. by apply Hnever. }
    erewrite resizer_steps; cycle 1.
    { cbn [resizer shared]. apply SetWorkerCount_step_while. }
    { intros m Hm. cbn in Hm. set_solver. }
    { intros m i pc0 Hm _. cbn in Hm. set_solver. }
    cbn [shared]. rewrite Hws. cbn [length]. rewrite bool_decide_eq_true_2 by lia.
    erewrite resizer_steps; cycle 1.
    { cbn [resizer shared]. apply SetWorkerCount_step_mark. }
    { intros m Hm. cbn in Hm. set_solver. }
    { intros m i pc0 Hm _. cbn in Hm. set_solver. }
    cbn. rewrite Hws. cbn. by rewrite decide_True. }
  destruct (worker_leaves (leaving pc) 0 σ3 pc (le_n _)) as (k & σ4 & Hrun & Hfin & Hr & Hh & Hp);
    [done|done|done| |].
  { unfold system_wf, workers_alone in *. cbn [sched pcs shared worker_pcs scene_start] in *.
    unfold task_at in *. by destruct s. }
  cbn in Hr, Hp.
  eexists k, _. rewrite scene_run_app, Hfirst. cbn [mbind option_bind].
  rewrite scene_run_app, Hrun. cbn [mbind option_bind scene_run].
  assert (has_returned σ4 = true) as Hret.
  { unfold has_returned. rewrite Hr, Hfin. done. }
  erewrite resizer_steps; cycle 1.
  { rewrite Hr, Hret. exact (SetWorkerCount_step_join CreateThread 0 true th 1 (shared σ4)). }
  { intros m Hm. cbn in Hm. set_solver. }
  { intros m i pc0 Hm _. cbn in Hm. set_solver. }
  erewrite resizer_steps; cycle 1.
  { cbn [resizer shared]. reflexivity. }
  { intros m Hm. cbn [resizer_holds]. rewrite Hh. cbn. set_solver. }
  { cbn [worker_pcs]. rewrite Hfin. intros m [|i] pc0 Hm [= <-]. cbn. set_solver. }
  erewrite resizer_steps; cycle 1.
  { cbn [resizer shared]. apply SetWorkerCount_step_erase. }
  { intros m Hm. cbn in Hm. set_solver. }
  { intros m i pc0 Hm _. cbn in Hm. set_solver. }
  erewrite resizer_steps; cycle 1.
  { cbn [resizer shared]. apply SetWorkerCount_step_while. }
  { intros m Hm. cbn in Hm. set_solver. }
  { intros m i pc0 Hm _. cbn in Hm. set_solver. }
  split; [reflexivity|]. cbn. rewrite Hp. cbn. done.
Qed.

End Joining.

(** ** [Stop] once the worker is joined *)

Section Teardown.

Context {ThreadManager : Type}.
Implicit Types (s : @State ThreadManager) (σ : @Scene ThreadManager).
Variable CreateThread : ThreadManager → ThreadConfig → TResult Thread * ThreadManager.

Lemma Stop_tail_spec s :
  wf s →
  ∃ tr1 s',
    Stop_tail s = Done (tr1 ++ (EvDealloc <$> m_FreeTaskPool s)) s' () ∧
    executed tr1 = queued_tasks s ∧ freed tr1 = m_TaskQueue s ∧
    m_TaskWorkers s' = m_TaskWorkers s ∧ m_TaskQueue s' = [] ∧
    m_FreeTaskPool s' = m_FreeTaskPool s ∧
    (∀ p, heap s' !! p
          = if decide (p ∈ m_TaskQueue s ++ m_FreeTaskPool s) then None else heap s !! p).
Proof.
  intros (Hnd & Hq & Hp).
  apply NoDup_app in Hnd as (Hndq & Hdis & Hndp).
  destruct (drain_spec (m_TaskQueue s) s) as (tr1 & h1 & H1 & He1 & Hf1 & Hh1); [done|done|].
  destruct (release_spec (m_FreeTaskPool s) (set_TaskQueue [] (set_heap h1 s)))
    as (tr2 & h2 & H2 & -> & Hh2); [done| |].
  { cbn. rewrite Forall_forall in Hp |- *. intros p Hin.
    rewrite Hh1.
    rewrite decide_False by (intros Hin'; by apply (Hdis p)).
    rewrite Hp by done. by eexists. }
  eexists tr1, _. split_and!; [|done|done| | | |].
  - unfold Stop_tail. unfold bind at 1. unfold gets at 1.
    unfold bind at 1. rewrite H1.
    unfold bind at 1. unfold modify at 1.
    unfold bind at 1. unfold gets at 1.
    cbn [m_FreeTaskPool set_TaskQueue set_heap].
    cbn in H2. rewrite H2. cbn. done.
  - done.
  - done.
  - done.
  - intros p. cbn. rewrite Hh2. cbn. rewrite Hh1.
    destruct (decide (p ∈ m_FreeTaskPool s)), (decide (p ∈ m_TaskQueue s)).
    all: try (rewrite decide_True by (apply elem_of_app; auto); done).
    by rewrite decide_False by (rewrite elem_of_app; tauto).
Qed.

(** A step of [SetWorkerCount 0] touches the pool only and runs,
    allocates and frees nothing. *)
Lemma SetWorkerCount_step_quiet joined pc s tr s' pc' :
  SetWorkerCount_step CreateThread 0 joined pc s = Done tr s' pc' →
  s' = set_TaskWorkers (m_TaskWorkers s') s ∧
  executed tr = [] ∧ allocated tr = [] ∧ freed tr = [].
Proof.
  destruct pc as [| | |[t|] sz|sz|sz|r]; cbn; run_step.
  - case_bool_decide; cbn; intros [= <- <- <-]; by destruct s.
  - case_bool_decide; cbn; intros [= <- <- <-]; by destruct s.
  - intros [= <- <- <-]. by destruct s.
  - destruct joined; cbn; intros [= <- <- <-]; by destruct s.
  - unfold ret. intros [= <- <- <-]. by destruct s.
  - intros [= <- <- <-]. by destruct s.
  - intros [= <- <- <-]. by destruct s.
  - unfold ret. intros [= <- <- <-]. by destruct s.
Qed.

Lemma scene_step_alone D0 base t σ σ' :
  length (worker_pcs σ) ≤ 1 →
  system_wf (workers_alone σ) →
  in_order base (workers_alone σ) →
  accounted D0 (workers_alone σ) →
  scene_step CreateThread 0 t σ = Some σ' →
  length (worker_pcs σ') ≤ 1 ∧
  system_wf (workers_alone σ') ∧
  in_order base (workers_alone σ') ∧
  accounted D0 (workers_alone σ').
Proof.
  intros Hone Hwf Hord Hacc. destruct t as [|id]; unfold scene_step.
  - destruct (SetWorkerCount_step _ _ _ _ _) as [tr s' pc'|] eqn:Hstep; [|done].
    apply SetWorkerCount_step_quiet in Hstep as (Hs & He & Ha & Hf).
    destruct (may_take _ _); intros [= <-]; [|done].
    unfold workers_alone, system_wf, in_order, accounted, owned, held_tasks, queued_tasks,
      task_at in *.
    cbn [sched pcs log accepted pending shared worker_pcs events] in *.
    rewrite executed_app, allocated_app, freed_app, He, Ha, Hf, !app_nil_r.
    rewrite Hs. cbn. rewrite app_nil_r in Hord. done.
  - destruct (worker_pcs σ !! id) as [pc|] eqn:Hid; [|by intros [= <-]].
    destruct (WorkerFn_step id pc (shared σ)) as [tr s' pc'|] eqn:Hstep; [|done].
    destruct (may_take _ _); intros [= <-]; [|done].
    assert (system_step (Worker id) (workers_alone σ)
            = Some (workers_alone
                      {| shared := s'; resizer := resizer σ; resizer_holds := resizer_holds σ;
                         worker_pcs := <[id := pc']> (worker_pcs σ);
                         events := events σ ++ tr |})) as Hsys.
    { unfold system_step, workers_alone. cbn [sched pcs pending accepted log].
      by rewrite Hid, Hstep. }
    destruct (system_step_spec (Worker id) _ Hwf) as (σ1 & Hstep1 & Hwf1 & Hm & _ & Hlen & _).
    rewrite Hsys in Hstep1. injection Hstep1 as <-.
    split_and!.
    + cbn. by rewrite length_insert.
    + done.
    + eapply moves_in_order; [| |done|done]; cbn; rewrite ?length_insert; done.
    + exact (system_step_accounted D0 (Worker id) _ _ Hwf Hacc Hsys).
Qed.

Lemma scene_run_alone D0 base schedule σ σ' :
  length (worker_pcs σ) ≤ 1 →
  system_wf (workers_alone σ) →
  in_order base (workers_alone σ) →
  accounted D0 (workers_alone σ) →
  scene_run CreateThread 0 schedule σ = Some σ' →
  length (worker_pcs σ') ≤ 1 ∧
  system_wf (workers_alone σ') ∧
  in_order base (workers_alone σ') ∧
  accounted D0 (workers_alone σ').
Proof.
  revert σ. induction schedule as [|t schedule IH]; intros σ Hone Hwf Hord Hacc; cbn.
  - by intros [= <-].
  - destruct (scene_step CreateThread 0 t σ) as [σ1|] eqn:Hstep; [|done].
    destruct (scene_step_alone D0 base t σ σ1) as (? & ? & ? & ?); [done..|].
    by apply IH.
Qed.

(** X12.  [Stop] on a scheduler with one worker, which runs meanwhile.
    [Stop] is its [SetWorkerCount 0] (line 188) followed by lines
    190-197.  That call can return: it does when the worker is given the
    steps to find its slot null.  When it has returned, the function of
    the worker has returned and the pool is empty.  The rest of [Stop] then runs, on the
    calling thread and head first, the tasks that the worker has left in
    the queue, so that the tasks run by the worker and by [Stop] are, in
    this order, the one the worker was working on and those queued at the
    start.  It gives the storage of each back to the allocator and then
    the pooled storage: the workers have freed nothing, and no storage is
    left allocated.  The list [m_FreeTaskPool] is not cleared and still
    names the storage freed. *)
Theorem Stop_runs_what_the_worker_left s th pc schedule σ r :
  m_TaskWorkers s = [Some th] →
  system_wf (workers_alone (scene_start s [pc])) →
  dom (heap s) = list_to_set (m_TaskQueue s ++ m_FreeTaskPool s ++ held_slot pc) →
  scene_run CreateThread 0 schedule (scene_start s [pc]) = Some σ →
  resizer σ = Returned r →
  worker_pcs σ = [Finished] ∧
  m_TaskWorkers (shared σ) = [] ∧
  (∃ tr s',
     Stop_tail (shared σ) = Done tr s' () ∧
     executed tr = queued_tasks (shared σ) ∧
     executed (events σ) ++ executed tr = held_tasks s [pc] ++ queued_tasks s ∧
     freed (events σ) = [] ∧
     freed tr = m_TaskQueue (shared σ) ++ m_FreeTaskPool (shared σ) ∧
     m_TaskQueue s' = [] ∧
     m_FreeTaskPool s' = m_FreeTaskPool (shared σ) ∧
     heap s' = ∅) ∧
  (∀ join_attempts s0,
     Stop CreateThread join_attempts s0
     = bind (SetWorkerCount CreateThread join_attempts 0) (λ _, Stop_tail) s0) ∧
  (∃ k σ0,
     scene_run CreateThread 0
       ([Resizer; Resizer; Resizer] ++ replicate k (WorkerThread 0)
          ++ [Resizer; Resizer; Resizer; Resizer])
       (scene_start s [pc]) = Some σ0 ∧
     resizer σ0 = Returned CreateSuccess).
Proof.
  intros Hws Hwf Hdom Hrun Hr.
  assert (in_order (held_tasks s [pc] ++ queued_tasks s) (workers_alone (scene_start s [pc])))
    as Hord.
  { unfold in_order, workers_alone.
    cbn [sched pcs log accepted scene_start shared worker_pcs events].
    by rewrite app_nil_r. }
  assert (accounted (dom (heap s)) (workers_alone (scene_start s [pc]))) as Hacc.
  { unfold accounted, owned, workers_alone. cbn [sched pcs log scene_start shared worker_pcs
      events].
    unfold held_slots. cbn [map concat]. rewrite app_nil_r.
    split_and!; [done|cbn; set_solver|constructor|cbn; set_solver|done]. }
  destruct (scene_run_alone _ _ schedule (scene_start s [pc]) σ (le_n 1) Hwf Hord Hacc Hrun)
    as (Hone & Hwfσ & Hordσ & (Hown & _ & _ & _ & Hfreed)).
  assert (shrinking 0 (m_TaskWorkers s) (scene_start s [pc])) as Hstart.
  { unfold shrinking. cbn. rewrite Hws. cbn. split; [done|lia]. }
  pose proof (scene_run_shrinking CreateThread _ _ _ _ _ Hstart Hrun) as Hinv.
  unfold shrinking in Hinv. rewrite Hr in Hinv.
  destruct Hinv as (-> & Hpool & Hd & _).
  assert (worker_pcs σ = [Finished]) as Hpcs.
  { specialize (Hd 0 th (le_n 0)). rewrite Hws in Hd. specialize (Hd eq_refl).
    destruct (worker_pcs σ) as [|pc0 [|pc1 l]]; cbn in *; [done|by simplify_eq|lia]. }
  split_and!; [done|by rewrite Hpool, take_0| |done|by apply (one_worker_can_be_removed CreateThread s th pc)].
  pose proof (system_wf_sched _ Hwfσ) as Hwfs. cbn in Hwfs.
  destruct (Stop_tail_spec (shared σ) Hwfs)
    as (tr1 & s' & Heq & He1 & Hf1 & _ & Hq' & Hp' & Hheap).
  eexists _, s'. split; [exact Heq|].
  unfold in_order, workers_alone, held_tasks in Hordσ.
  cbn [sched pcs log accepted] in Hordσ. rewrite Hpcs in Hordσ.
  unfold held_slots in Hordσ. cbn in Hordσ. rewrite app_nil_r in Hordσ.
  unfold owned, workers_alone in Hown. cbn [sched pcs] in Hown.
  rewrite Hpcs in Hown. unfold held_slots in Hown. cbn [map concat held_slot] in Hown.
  rewrite app_nil_r in Hown.
  split_and!.
  - by rewrite executed_app, executed_Dealloc, app_nil_r.
  - rewrite executed_app, executed_Dealloc, app_nil_r, He1. exact Hordσ.
  - exact Hfreed.
  - by rewrite freed_app, freed_Dealloc, Hf1.
  - done.
  - done.
  - apply map_eq. intros p. rewrite Hheap, lookup_empty.
    case_decide as Hin; [done|].
    apply not_elem_of_dom. rewrite Hown. by rewrite elem_of_list_to_set.
Qed.

End Teardown.

(** * Examples on the concrete process *)

Lemma wf_busy : wf Demo.busy.
Proof.
  unfold wf. cbn. split_and!.
  - by apply (bool_decide_unpack _); vm_compute.
  - repeat constructor; by eexists.
  - by repeat constructor.
Qed.

Lemma wf_idle allow : wf (Demo.idle allow).
Proof. unfold wf. cbn. split_and!; constructor. Qed.

Lemma wf_unbound : wf Demo.unbound.
Proof. unfold wf. cbn. split_and!; constructor. Qed.

(** Three tasks submitted while the worker runs: they are run in the order
    of submission. *)
Lemma tasks_run_in_submission_order_witness :
  ∃ σ, system_run
         [Submitter; Worker 0; Worker 0; Submitter; Worker 0; Worker 0;
          Submitter; Worker 0; Worker 0; Worker 0; Worker 0; Worker 0; Worker 0;
          Worker 0; Worker 0; Worker 0]
         (system_start (Demo.idle true) [1; 2; 3]) = Some σ ∧
       executed (log σ) = [1; 2; 3].
Proof.
  destruct (tasks_run_in_submission_order (Demo.idle true) 100 [1; 2; 3]
              [Submitter; Worker 0; Worker 0; Submitter; Worker 0; Worker 0;
               Submitter; Worker 0; Worker 0; Worker 0; Worker 0; Worker 0; Worker 0;
               Worker 0; Worker 0; Worker 0]
              (wf_idle true) eq_refl) as [(σ & Hrun & _ & _ & _ & Hq) _].
  exists σ. split; [exact Hrun|]. apply Hq.
  vm_compute in Hrun. injection Hrun as <-. by vm_compute.
Defined.

(** Two waiting workers and task 7 queued.  The thread in [Stop] joins
    worker 1 and locks the queue mutex; from then on, whatever the threads
    do, [SetWorkerCount 0] does not return and task 7 stays queued. *)
Lemma Stop_blocks_on_the_second_worker_witness :
  ∃ σ, scene_run (Demo.CreateThread 2) 0 Demo.stop_schedule (scene_start Demo.pair [InWait; InWait])
       = Some σ ∧
       worker_pcs σ = [InWait; Finished] ∧
       resizer_holds σ = [TaskQueueMutex] ∧
       queued_tasks (shared σ) = [7] ∧
       executed (events σ) = [] ∧
       ∀ more σ', scene_run (Demo.CreateThread 2) 0 more σ = Some σ' →
         (∀ r, resizer σ' ≠ Returned r) ∧
         m_TaskQueue (shared σ') = [5%positive].
Proof.
  assert (¬ stopping InWait) as Hns by (by intros [?|[?|?]]).
  destruct (scene_run (Demo.CreateThread 2) 0 Demo.stop_schedule
              (scene_start Demo.pair [InWait; InWait])) as [σ|] eqn:Hrun;
    [|by vm_compute in Hrun].
  destruct (Stop_blocks_on_the_second_worker (Demo.CreateThread 2) 0 0 Demo.pair 100
              [InWait; InWait] InWait Demo.stop_schedule σ
              (le_n 0) eq_refl eq_refl eq_refl Hns Hrun) as (_ & Hlater & _).
  exists σ. split; [done|].
  vm_compute in Hrun. injection Hrun as <-.
  split_and!; [done..|].
  intros more σ' Hmore.
  assert (TaskQueueMutex ∈ [TaskQueueMutex]) as Hheld by set_solver.
  exact (Hlater Hheld more σ' Hmore).
Defined.

(** With one worker the call does return, still holding the queue
    mutex. *)
Example one_worker_is_joined :
  ∃ σ, scene_run (Demo.CreateThread 1) 0
         [Resizer; Resizer; Resizer; Resizer; WorkerThread 0; WorkerThread 0;
          WorkerThread 0; Resizer; Resizer; Resizer; Resizer]
         (scene_start (Demo.idle true) [InWait]) = Some σ ∧
       resizer σ = Returned CreateSuccess ∧
       worker_pcs σ = [Finished] ∧
       m_TaskWorkers (shared σ) = [] ∧
       resizer_holds σ = [TaskQueueMutex].
Proof. eexists. split; [by vm_compute|done]. Qed.

(** One worker, whose join succeeds: [Stop] with tasks 7 and 8 queued
    runs 7, then 8, and frees all storage. *)
Example Stop_on_one_worker :
  wf Demo.busy ∧
  ∃ tr0 tr1 s',
    Stop (Demo.CreateThread 1) Demo.join_attempts Demo.busy
    = Done (tr0 ++ tr1 ++ [EvDealloc 9]) s' () ∧
    executed tr0 = [] ∧ executed tr1 = [7; 8] ∧ freed tr1 = [5; 6]%positive ∧
    m_TaskWorkers s' = [] ∧ m_TaskQueue s' = [].
Proof.
  split; [exact wf_busy|].
  destruct (Stop_runs_the_queue_then_frees Demo.join_attempts (Demo.CreateThread 1)
              Demo.busy wf_busy (le_n 1))
    as [(tr0 & tr1 & s' & _ & HStop & He0 & He1 & Hf1 & Hw & Hq & _) _].
  by exists tr0, tr1, s'.
Qed.

(** The name of a worker thread is made from the scheduler's name as a
    C string: of the five characters [a], [b], NUL, [c], [d] the thread
    of slot 0 gets [ab_0]. *)
Example Format_reads_a_C_string :
  Format ("ab" +:+ String Ascii.zero "cd") 0 = "ab_0" ∧
  worker_config "pool" 12 = {| Name := "pool_12"; ThreadFN := 12 |}.
Proof. by vm_compute. Qed.

(** C3 fails as stated: growth is enabled and the manager has not
    expired, yet the call fails, because the manager creates no thread. *)
Lemma growth_after_enable_can_fail :
  managers (Demo.idle false) !! m_ThreadManager (Demo.idle false) = Some 0 ∧
  result_of (SetWorkerCount (Demo.CreateThread 0) Demo.join_attempts 2 (Demo.idle false))
  = Some GrowthDisabled ∧
  result_of (SetWorkerCount (Demo.CreateThread 0) Demo.join_attempts 2
               (state_of (Demo.idle false) (EnableGrowth true (Demo.idle false))))
  = Some (Failure "The ThreadManager could not create the thread.").
Proof. by vm_compute. Qed.

Lemma growth_gating_witness :
  m_AllowGrowth (Demo.idle false) = false ∧
  length (m_TaskWorkers (Demo.idle false)) < 3 ∧
  SetWorkerCount (Demo.CreateThread 5) Demo.join_attempts 3 (Demo.idle false)
  = Done [EvLock TaskWorkersMutex; EvWorkers Observe; EvWorkers Observe;
          EvUnlock TaskWorkersMutex] (Demo.idle false) GrowthDisabled ∧
  ∃ tr s2, SetWorkerCount (Demo.CreateThread 5) Demo.join_attempts 3
             (set_AllowGrowth true (Demo.idle false)) = Done tr s2 CreateSuccess ∧
           length (m_TaskWorkers s2) = 3.
Proof.
  assert (length (m_TaskWorkers (Demo.idle false)) < 3) as Hlt by (cbn; lia).
  destruct (growth_gating Demo.join_attempts (Demo.CreateThread 5) (Demo.idle false) 3
              eq_refl Hlt) as [Hgate Hgrow].
  split_and!; [reflexivity|exact Hlt|exact Hgate|].
  destruct (Hgrow 0 eq_refl) as (tr1 & s1 & tr2 & s2 & r & HE & HS & _).
  vm_compute in HE. injection HE as <- <-.
  exists tr2, s2. vm_compute in HS. injection HS as <- <- <-. by vm_compute.
Defined.

Lemma AddTask_without_workers_witness :
  Forall (λ w : option nat, w = None) [None; None] ∧
  (∃ tr, AddTask 7 (Demo.scheduler [None; None] [] [] true ∅)
         = Done tr (Demo.scheduler [None; None] [] [] true ∅) NoAvailableWorkers) ∧
  ∃ tr0 s0 tr,
    SetWorkerCount (Demo.CreateThread 1) Demo.join_attempts 0 Demo.busy
    = Done tr0 s0 CreateSuccess ∧
    m_TaskQueue s0 = [5; 6]%positive ∧
    AddTask 9 s0 = Done tr s0 NoAvailableWorkers.
Proof.
  assert (Forall (λ w : option nat, w = None) [None; None]) as H by (by repeat constructor).
  split_and!; [exact H| |].
  - apply (AddTask_without_workers Demo.join_attempts (Demo.CreateThread 1) 7
             (Demo.scheduler [None; None] [] [] true ∅)).
    right. exact H.
  - destruct (SetWorkerCount (Demo.CreateThread 1) Demo.join_attempts 0 Demo.busy)
      as [tr0 s0 r|] eqn:Hrun; [|by vm_compute in Hrun].
    destruct (AddTask_without_workers Demo.join_attempts (Demo.CreateThread 1) 9 Demo.busy)
      as [_ Hafter].
    destruct (Hafter tr0 s0 r Hrun) as (-> & _ & Hq & tr & Hadd).
    by exists tr0, s0, tr.
Defined.

(** C5 fails as stated: the worker loop holds the queue mutex when it
    takes the worker-pool mutex. *)
Lemma worker_takes_queue_mutex_first :
  trace_of (WorkerFn_step 0 AtLoopHead (Demo.idle true))
  = [EvLock TaskQueueMutex; EvLockShared TaskWorkersMutex; EvWorkers Observe;
     EvWorkers Observe; EvUnlockShared TaskWorkersMutex] ∧
  holds_both [] (trace_of (WorkerFn_step 0 AtLoopHead (Demo.idle true))) = true ∧
  workers_mutex_first [] (trace_of (WorkerFn_step 0 AtLoopHead (Demo.idle true))) = false.
Proof. by vm_compute. Qed.

Lemma pool_guarded_outside_shrink_witness :
  length (m_TaskWorkers (Demo.idle true)) ≤ 3 ∧
  pool_guarded []
    (trace_of (SetWorkerCount (Demo.CreateThread 5) Demo.join_attempts 3 (Demo.idle true)))
  = true.
Proof.
  assert (length (m_TaskWorkers (Demo.idle true)) ≤ 3) as Hle by (cbn; lia).
  split; [exact Hle|].
  by apply (pool_guarded_outside_shrink Demo.join_attempts (Demo.CreateThread 5)).
Defined.

(** The shrink path on the concrete process: the pool is erased from
    without its mutex, and the call returns holding the queue mutex. *)
Example shrink_erases_under_the_queue_mutex :
  pool_guarded []
    (trace_of (SetWorkerCount (Demo.CreateThread 5) Demo.join_attempts 0 (Demo.idle true)))
  = false ∧
  held_after []
    (trace_of (SetWorkerCount (Demo.CreateThread 5) Demo.join_attempts 0 (Demo.idle true)))
  = [TaskQueueMutex] ∧
  lock_use_ok []
    (trace_of (SetWorkerCount (Demo.CreateThread 5) Demo.join_attempts 0
                 (Demo.scheduler [Some 100; Some 101] [] [] true ∅)))
  = false.
Proof. by vm_compute. Qed.

(** C6 fails as stated: the worker has validated itself with a task in
    the queue; its slot is then marked absent; it still takes the task and
    runs it. *)
Lemma absent_worker_still_dequeues :
  ∃ s1 tr1 s2 tr2,
    WorkerFn_run 0 [WorkerStep; WorkerStep; Interfere Demo.mark_last_absent]
      AtLoopHead Demo.busy = Done tr1 s1 (AtStopCheck true) ∧
    m_TaskWorkers s1 = [None] ∧ m_TaskQueue s1 = [5; 6]%positive ∧ executed tr1 = [] ∧
    WorkerFn_run 0 [WorkerStep; WorkerStep] (AtStopCheck true) s1
    = Done tr2 s2 AtLoopHead ∧
    m_TaskQueue s2 = [6%positive] ∧ executed tr2 = [7].
Proof. eexists _, _, _, _. split_and!; by vm_compute. Qed.

Lemma worker_validates_and_stops_witness :
  stopping (AtWaitCondition false) ∧
  ∃ tr pc',
    WorkerFn_run 0 [WorkerStep; Interfere Demo.mark_last_absent; WorkerStep; WorkerStep]
      (AtWaitCondition false) Demo.busy
    = Done tr (Demo.mark_last_absent Demo.busy) pc' ∧
    executed tr = [] ∧ stopping pc'.
Proof.
  assert (stopping (AtWaitCondition false)) as H by (by left).
  split; [exact H|].
  destruct (worker_validates_and_stops (ThreadManager := nat) 0) as (_ & _ & _ & _ & Hrun).
  exact (Hrun [WorkerStep; Interfere Demo.mark_last_absent; WorkerStep; WorkerStep]
           (AtWaitCondition false) Demo.busy H).
Defined.

(** C7 fails as stated: inside [OnNewManager] both handlers are
    registered. *)
Lemma both_subscriptions_inside_OnNewManager :
  at_most_one (subscriptions Demo.unbound) = true ∧
  always_at_most_one (subscriptions Demo.unbound)
    (trace_of (deliver Demo.ThreadManagerUUID
                 (NewInterfaceNotice 50 (Some (Demo.manager 2))) Demo.unbound))
  = false ∧
  subscriptions_after (subscriptions Demo.unbound)
    (take 3 (trace_of (deliver Demo.ThreadManagerUUID
                         (NewInterfaceNotice 50 (Some (Demo.manager 2))) Demo.unbound)))
  = ([ActivationEvent 2], [OnInterfaceActivationEvent 50]).
Proof. by vm_compute. Qed.

Lemma subscriptions_one_between_notifications_witness :
  at_most_one (subscriptions Demo.unbound) = true ∧
  ∃ tr s',
    for_each [NewInterfaceNotice 50 (Some (Demo.manager 2));
              ActivationNotice 2 false (Some (Demo.manager 2)) (Some (Demo.manager 3));
              ActivationNotice 3 false (Some (Demo.manager 3)) None]
      (deliver Demo.ThreadManagerUUID) Demo.unbound = Done tr s' () ∧
    at_most_one (subscriptions s') = true.
Proof.
  split; [reflexivity|].
  eexists _, _. split; [by vm_compute|].
  eapply (proj1 (proj2 (subscriptions_one_between_notifications
                           Demo.ThreadManagerUUID (Demo.CreateThread 1) Demo.join_attempts))
            [NewInterfaceNotice 50 (Some (Demo.manager 2));
             ActivationNotice 2 false (Some (Demo.manager 2)) (Some (Demo.manager 3));
             ActivationNotice 3 false (Some (Demo.manager 3)) None]
            Demo.unbound).
  - reflexivity.
  - by vm_compute.
Defined.

Lemma growth_failure_keeps_created_workers_witness :
  ∃ tr s' r,
    SetWorkerCount (Demo.CreateThread 1) Demo.join_attempts 3 (Demo.idle true)
    = Done tr s' r ∧
    EvCreateThread {| Name := "pool_2"; ThreadFN := 2 |}
      (Failure "The ThreadManager could not create the thread.") ∈ tr ∧
    r = Failure "The ThreadManager could not create the thread." ∧
    m_TaskWorkers s' = [Some 100; Some 200] ∧
    length (m_TaskWorkers s') < 3.
Proof.
  eexists _, _, _. split; [by vm_compute|].
  match goal with
  | |- ?Hin ∧ _ => assert Hin as H by (by repeat constructor)
  end.
  split; [exact H|].
  destruct (growth_failure_keeps_created_workers Demo.join_attempts (Demo.CreateThread 1)
              (Demo.idle true) 3 _ _ _ _ _ ltac:(by vm_compute) H)
    as (Hr & _ & Hws & _ & Hlt).
  split_and!; [exact Hr|exact Hws|exact Hlt].
Defined.

Lemma replacement_rebinds_directly_witness :
  m_OnManagerActivation (Demo.idle true) = [ActivationEvent 1] ∧
  m_OnNewManager (Demo.idle true) = [] ∧
  ∃ tr s',
    deliver Demo.ThreadManagerUUID
      (ActivationNotice 1 false (Some (Demo.manager 1)) (Some (Demo.manager 2)))
      (Demo.idle true) = Done tr s' () ∧
    m_ThreadManager s' = 2 ∧
    subscriptions s' = ([ActivationEvent 2], []).
Proof.
  split_and!; [reflexivity|reflexivity|].
  destruct (replacement_rebinds_directly Demo.ThreadManagerUUID (Some (Demo.manager 1))
              (Demo.manager 2) (Demo.idle true)) as [_ H].
  destruct (H 1 eq_refl eq_refl) as (tr & s' & Hd & Hm & Hs & _).
  by exists tr, s'.
Defined.

(** A submission to a scheduler whose manager has expired and which is
    registered with the host only, no mutex being held: it is accepted.
    Two waiting workers and task 7 queued: [SetWorkerCount 1] removes
    worker 1 and returns; worker 0 is present, and the submission of
    task 9 that follows stops at line 112 and never returns. *)
Lemma AddTask_ignores_binding_but_not_a_shrink_witness :
  (managers Demo.unbound !! m_ThreadManager Demo.unbound = None ∧
   ∃ y' p,
     yard_run (Demo.CreateThread 1) 1 9 [SubmitterThread; SubmitterThread; SubmitterThread]
       (yard_start (scene_at_rest Demo.unbound [InWait])) = Some y' ∧
     submitter y' = AddReturned CreateSuccess ∧
     m_TaskQueue (shared (scene y')) = [p] ∧
     task_at (shared (scene y')) p = Some 9) ∧
  ∃ σ,
    scene_run (Demo.CreateThread 2) 1 (Demo.stop_schedule ++ [Resizer; Resizer])
      (scene_start Demo.pair [InWait; InWait]) = Some σ ∧
    resizer σ = Returned CreateSuccess ∧
    m_TaskWorkers (shared σ) = [Some 100] ∧
    worker_pcs σ = [InWait; Finished] ∧
    (∃ y1 p,
       yard_run (Demo.CreateThread 2) 1 9 [SubmitterThread; SubmitterThread] (yard_start σ)
       = Some y1 ∧
       submitter y1 = AddEnqueue p) ∧
    ∀ more y',
      yard_run (Demo.CreateThread 2) 1 9 more (yard_start σ) = Some y' →
      (∀ r', submitter y' ≠ AddReturned r') ∧
      m_TaskQueue (shared (scene y')) = [5%positive].
Proof.
  split.
  - split; [reflexivity|].
    destruct (AddTask_ignores_binding_but_not_a_shrink (Demo.CreateThread 1)
                Demo.join_attempts 9 Demo.unbound) as (_ & _ & Hfree & _).
    destruct (Hfree 1 (scene_at_rest Demo.unbound [InWait]) eq_refl) as (y' & p & H).
    + split; [reflexivity|]. by repeat constructor.
    + by exists 0, 100.
    + exact wf_unbound.
    + destruct H as (Hrun & Hs & Hq & Ht & _). by exists y', p.
  - destruct (scene_run (Demo.CreateThread 2) 1 (Demo.stop_schedule ++ [Resizer; Resizer])
                (scene_start Demo.pair [InWait; InWait])) as [σ|] eqn:Hrun;
      [|by vm_compute in Hrun].
    destruct (AddTask_ignores_binding_but_not_a_shrink (Demo.CreateThread 2)
                Demo.join_attempts 9 Demo.pair) as (_ & _ & _ & Hshrink & _).
    assert (1 < length (m_TaskWorkers Demo.pair)) as Hlt by (cbn; lia).
    assert (resizer σ = Returned CreateSuccess ∧
            shared σ = Demo.scheduler [Some 100] [5%positive] [] true
                         (<[5%positive := Some 7]> ∅) ∧
            worker_pcs σ = [InWait; Finished]) as (Hr & Hs & Hps).
    { vm_compute in Hrun. by injection Hrun as <-. }
    assert (∃ i th, m_TaskWorkers (shared σ) !! i = Some (Some th)) as Hany
      by (rewrite Hs; by exists 0, 100).
    assert (wf (shared σ)) as Hwf.
    { rewrite Hs. unfold wf. cbn. split_and!.
      - by apply (bool_decide_unpack _); vm_compute.
      - repeat constructor; by eexists.
      - by repeat constructor. }
    destruct (Hshrink 1 [InWait; InWait] (Demo.stop_schedule ++ [Resizer; Resizer]) σ
                CreateSuccess Hlt Hrun Hr Hany) as [Hreach Hnever].
    exists σ. split; [reflexivity|].
    split_and!; [exact Hr|by rewrite Hs|exact Hps|exact (Hreach Hwf)|].
    intros more y' Hmore. destruct (Hnever more y' Hmore) as [Hn Hq].
    split; [exact Hn|]. rewrite Hq, Hs. reflexivity.
Defined.

(** A manager that creates one thread only: of the two workers asked
    for, one is added, and the call fails. *)
Lemma SetWorkerCount_success_is_the_count_witness :
  ∃ tr s' r,
    SetWorkerCount (Demo.CreateThread 1) Demo.join_attempts 3 (Demo.idle true)
    = Done tr s' r ∧
    HasFailed r = true ∧
    m_TaskWorkers s' = [Some 100; Some 200] ∧
    [Some 100] `prefix_of` m_TaskWorkers s' ∧
    result_of (GetWorkerCount s') = Some 2.
Proof.
  destruct (SetWorkerCount (Demo.CreateThread 1) Demo.join_attempts 3 (Demo.idle true))
    as [tr s' r|] eqn:Hrun; [|by vm_compute in Hrun].
  destruct (SetWorkerCount_success_is_the_count Demo.join_attempts (Demo.CreateThread 1)
              3 (Demo.idle true) tr s' r Hrun) as (_ & Hfail & _ & _ & Hget).
  exists tr, s', r. split; [reflexivity|].
  vm_compute in Hrun. injection Hrun as <- <- <-.
  destruct (Hfail eq_refl) as [_ Hpre].
  split_and!; [reflexivity|reflexivity|exact Hpre|exact Hget].
Defined.

(** Growth switched off on the idle scheduler: removing its worker goes
    on as before, adding one is refused. *)
Lemma growth_flag_gates_growth_only_witness :
  0 ≤ length (m_TaskWorkers (Demo.idle true)) ∧
  result_of (SetWorkerCount (Demo.CreateThread 5) Demo.join_attempts 0
               (set_AllowGrowth false (Demo.idle true))) = Some CreateSuccess ∧
  ∃ tr s' r,
    SetWorkerCount (Demo.CreateThread 5) Demo.join_attempts 2
      (set_AllowGrowth false (Demo.idle true)) = Done tr s' r ∧
    r = GrowthDisabled ∧ creation_results tr = [].
Proof.
  assert (0 ≤ length (m_TaskWorkers (Demo.idle true))) as Hle by (cbn; lia).
  destruct (growth_flag_gates_growth_only Demo.join_attempts (Demo.CreateThread 5)
              false (Demo.idle true)) as (_ & _ & Hsame & Hoff).
  split_and!; [exact Hle| |].
  - rewrite (Hsame 0 Hle). by vm_compute.
  - destruct (SetWorkerCount (Demo.CreateThread 5) Demo.join_attempts 2
                (set_AllowGrowth false (Demo.idle true))) as [tr s' r|] eqn:Hrun;
      [|by vm_compute in Hrun].
    destruct (Hoff 2 tr s' r ltac:(cbn; lia) Hrun) as (Hr & _ & Hc).
    by exists tr, s', r.
Defined.

(** The second thread asked for when the idle scheduler grows to three
    workers. *)
Lemma workers_are_created_for_their_slots_witness :
  ∃ tr s' r,
    SetWorkerCount (Demo.CreateThread 5) Demo.join_attempts 3 (Demo.idle true)
    = Done tr s' r ∧
    creations tr !! 1 = Some ({| Name := "pool_2"; ThreadFN := 2 |}, Success 201) ∧
    m_TaskWorkers s' !! 2 = Some (Some 201).
Proof.
  destruct (SetWorkerCount (Demo.CreateThread 5) Demo.join_attempts 3 (Demo.idle true))
    as [tr s' r|] eqn:Hrun; [|by vm_compute in Hrun].
  destruct (workers_are_created_for_their_slots Demo.join_attempts (Demo.CreateThread 5)
              3 (Demo.idle true) tr s' r Hrun) as [_ Hslot].
  exists tr, s', r. split; [reflexivity|].
  assert (creations tr !! 1 = Some ({| Name := "pool_2"; ThreadFN := 2 |}, Success 201))
    as Hreq.
  { vm_compute in Hrun. injection Hrun as <- _ _. reflexivity. }
  split; [exact Hreq|].
  destruct (Hslot 1 _ _ Hreq) as (_ & _ & _ & Hkept). exact (Hkept 201 eq_refl).
Defined.

(** Three workers asked for from a manager that creates one. *)
Lemma construction_keeps_what_it_could_create_witness :
  ({[ 1 := 0 ]} : gmap nat nat) !! 1 = Some 0 ∧
  ∃ tr s,
    construction (Demo.CreateThread 1) Demo.join_attempts 1 "pool" 3 false ∅ {[ 1 := 0 ]}
    = Done tr s () ∧
    m_TaskWorkers s = [Some 200] ∧ m_AllowGrowth s = false.
Proof.
  split; [reflexivity|].
  destruct (construction_keeps_what_it_could_create Demo.join_attempts (Demo.CreateThread 1)
              1 "pool" 3 false ∅ {[ 1 := 0 ]}) as [_ Hlive].
  destruct (Hlive 0 eq_refl) as (tr & s & Hrun & _ & _ & Hg & _ & _ & _ & _ & Hws & _).
  exists tr, s. split; [exact Hrun|].
  split; [|exact Hg].
  rewrite Hws. vm_compute in Hrun. injection Hrun as <- _. reflexivity.
Defined.

(** Storage 9 is in the pool: the submission uses it and allocates
    nothing. *)
Lemma AddTask_recycles_storage_witness :
  any_worker (m_TaskWorkers Demo.busy) = true ∧
  m_FreeTaskPool Demo.busy = [] ++ [9%positive] ∧
  ∃ tr s',
    AddTask 1 Demo.busy = Done tr s' CreateSuccess ∧
    allocated tr = [] ∧
    m_TaskQueue s' = [5; 6; 9]%positive ∧ m_FreeTaskPool s' = [].
Proof.
  split_and!; [reflexivity|reflexivity|].
  destruct (AddTask_recycles_storage 1 Demo.busy eq_refl wf_busy) as (_ & Hreuse & _).
  destruct (Hreuse [] 9%positive eq_refl) as (tr & s' & Hrun & Hal & Hq & Hp & _).
  by exists tr, s'.
Defined.

Lemma calls_release_their_mutexes_witness :
  length (m_TaskWorkers (Demo.idle true)) ≤ 3 ∧
  balanced
    (trace_of (SetWorkerCount (Demo.CreateThread 1) Demo.join_attempts 3 (Demo.idle true)))
  = true ∧
  balanced (trace_of (AddTask 1 Demo.busy)) = true.
Proof.
  assert (length (m_TaskWorkers (Demo.idle true)) ≤ 3) as Hle by (cbn; lia).
  destruct (calls_release_their_mutexes Demo.join_attempts (Demo.CreateThread 1)
              Demo.ThreadManagerUUID) as (_ & _ & _ & Hadd & Hset & _).
  split_and!; [exact Hle|exact (Hset 3 (Demo.idle true) Hle)|exact (Hadd 1 Demo.busy)].
Defined.

(** The one worker of the busy scheduler is removed while it waits:
    the call returns, and tasks 7 and 8 stay queued whatever the threads
    do afterwards. *)
Lemma a_shrink_keeps_the_queue_mutex_witness :
  0 < length (m_TaskWorkers Demo.busy) ∧
  ∃ σ,
    scene_run (Demo.CreateThread 1) 0
      [Resizer; Resizer; Resizer; Resizer; WorkerThread 0; WorkerThread 0;
       WorkerThread 0; Resizer; Resizer; Resizer; Resizer]
      (scene_start Demo.busy [InWait]) = Some σ ∧
    resizer σ = Returned CreateSuccess ∧
    m_TaskWorkers (shared σ) = [] ∧
    worker_pcs σ = [Finished] ∧
    TaskQueueMutex ∈ resizer_holds σ ∧
    ∀ more σ', scene_run (Demo.CreateThread 1) 0 more σ = Some σ' →
      m_TaskQueue (shared σ') = [5; 6]%positive.
Proof.
  assert (0 < length (m_TaskWorkers Demo.busy)) as Hlt by (cbn; lia).
  split; [exact Hlt|].
  destruct (scene_run (Demo.CreateThread 1) 0
              [Resizer; Resizer; Resizer; Resizer; WorkerThread 0; WorkerThread 0;
               WorkerThread 0; Resizer; Resizer; Resizer; Resizer]
              (scene_start Demo.busy [InWait])) as [σ|] eqn:Hrun;
    [|by vm_compute in Hrun].
  assert (resizer σ = Returned CreateSuccess) as Hr.
  { vm_compute in Hrun. by injection Hrun as <-. }
  destruct (a_shrink_keeps_the_queue_mutex (Demo.CreateThread 1) 0 Demo.busy [InWait]
              _ σ CreateSuccess Hlt Hrun Hr) as (_ & Hpool & _ & Hheld & Hlater).
  exists σ. split; [reflexivity|].
  split_and!; [exact Hr|exact Hpool| |exact Hheld|].
  - vm_compute in Hrun. by injection Hrun as <-.
  - intros more σ' Hmore. destruct (Hlater more σ' Hmore) as (_ & _ & _ & Hq & _).
    rewrite Hq. vm_compute in Hrun. by injection Hrun as <-.
Defined.

(** Tasks 7 and 8 are queued and the worker waits for the signal: the
    call finds the queue filled and never returns.  With nothing queued
    and task 7 in the hands of the worker, it returns before the task is
    run.  With nothing queued and the worker at the head of its loop, the
    worker takes the queue mutex after the thread has taken the
    worker-pool mutex, and the call never returns. *)
Lemma WaitUntilAllTasksFinished_on_a_filled_queue_witness :
  (∃ σ, drain_run [Waiter; Waiter] (drain_start Demo.busy [At InWait]) = Some σ ∧
        waiter σ = AtQueueTest ∧
        ∀ more σ', drain_run more σ = Some σ' →
          waiter σ' ≠ WaitOver ∧ m_TaskQueue (drained σ') = [5; 6]%positive) ∧
  (∃ σ σ1,
     drain_run [Waiter; Waiter]
       (drain_start (Demo.scheduler [Some 100] [] [] true (<[5%positive := Some 7]> ∅))
          [At (AtTaskWork (Some 5%positive))]) = Some σ ∧
     drain_step Waiter σ = Some σ1 ∧
     waiter σ1 = WaitOver ∧
     drain_pcs σ1 = [At (AtTaskWork (Some 5%positive))] ∧
     executed (drain_log σ1) = []) ∧
  (∃ σ,
     drain_run [Waiter; DrainWorker 0]
       (drain_start (Demo.scheduler [Some 100] [] [] true ∅) [At AtLoopHead]) = Some σ ∧
     m_TaskQueue (drained σ) = [] ∧
     ∀ more σ', drain_run more σ = Some σ' → waiter σ' = AtQueueLock).
Proof.
  split_and!.
  - destruct (drain_run [Waiter; Waiter] (drain_start Demo.busy [At InWait]))
      as [σ|] eqn:Hrun; [|by vm_compute in Hrun].
    destruct (WaitUntilAllTasksFinished_on_a_filled_queue Demo.busy [At InWait]
                [Waiter; Waiter] σ Hrun) as (_ & Hstuck & _).
    exists σ. split; [reflexivity|].
    vm_compute in Hrun. injection Hrun as <-.
    split; [reflexivity|].
    intros more σ' Hmore.
    destruct (Hstuck ltac:(by left) ltac:(done) more σ' Hmore) as (Hw & Hq).
    split; [exact Hw|exact Hq].
  - destruct (drain_run [Waiter; Waiter]
                (drain_start (Demo.scheduler [Some 100] [] [] true
                                (<[5%positive := Some 7]> ∅))
                   [At (AtTaskWork (Some 5%positive))])) as [σ|] eqn:Hrun;
      [|by vm_compute in Hrun].
    destruct (WaitUntilAllTasksFinished_on_a_filled_queue _ _ _ σ Hrun) as (_ & _ & Hret & _).
    assert (waiter σ = AtQueueTest ∧ m_TaskQueue (drained σ) = [] ∧
            drain_pcs σ = [At (AtTaskWork (Some 5%positive))] ∧
            executed (drain_log σ) = []) as (Hc & Hq & Hps & He).
    { vm_compute in Hrun. by injection Hrun as <-. }
    destruct (Hret Hc Hq) as (σ1 & Hstep & Hw & Hpcs & Hex).
    exists σ, σ1. split; [reflexivity|].
    split_and!; [exact Hstep|exact Hw|by rewrite Hpcs|by rewrite Hex].
  - destruct (drain_run [Waiter; DrainWorker 0]
                (drain_start (Demo.scheduler [Some 100] [] [] true ∅) [At AtLoopHead]))
      as [σ|] eqn:Hrun; [|by vm_compute in Hrun].
    destruct (WaitUntilAllTasksFinished_on_a_filled_queue _ _ _ σ Hrun) as (_ & _ & _ & Hlock).
    assert (waiter σ = AtQueueLock ∧ m_TaskQueue (drained σ) = [] ∧
            drain_pcs σ !! 0 = Some AtValidation) as (Hw & Hq & Hi).
    { vm_compute in Hrun. by injection Hrun as <-. }
    exists σ. split; [reflexivity|]. split; [exact Hq|].
    intros more σ' Hmore.
    destruct (Hlock 0 (or_introl Hw) Hi more σ' Hmore) as [Hw' _]. by rewrite Hw'.
Defined.

(** Two workers and two tasks. *)
Lemma every_task_runs_exactly_once_witness :
  wf (Demo.scheduler [Some 100; Some 101] [] [] true ∅) ∧
  ∃ σ,
    system_run
      [Submitter; Submitter; Worker 1; Worker 0; Worker 1; Worker 0; Worker 1; Worker 0;
       Worker 0; Worker 1]
      (system_start (Demo.scheduler [Some 100; Some 101] [] [] true ∅) [1; 2]) = Some σ ∧
    executed (log σ) = [2; 1] ∧
    NoDup (executed (log σ)).
Proof.
  assert (wf (Demo.scheduler [Some 100; Some 101] [] [] true ∅)) as Hwf.
  { unfold wf. cbn. split_and!; constructor. }
  split; [exact Hwf|].
  destruct (every_task_runs_exactly_once
              (Demo.scheduler [Some 100; Some 101] [] [] true ∅) [1; 2]
              [Submitter; Submitter; Worker 1; Worker 0; Worker 1; Worker 0; Worker 1;
               Worker 0; Worker 0; Worker 1] Hwf eq_refl)
    as (σ & Hrun & _ & _ & Hnd & _).
  exists σ. split; [exact Hrun|].
  split.
  - vm_compute in Hrun. injection Hrun as <-. reflexivity.
  - apply Hnd. by apply (bool_decide_unpack _); vm_compute.
Defined.

Lemma storage_is_kept_and_reused_witness :
  wf Demo.busy ∧
  dom (heap Demo.busy) = list_to_set (m_TaskQueue Demo.busy ++ m_FreeTaskPool Demo.busy) ∧
  ∃ σ,
    system_run [Submitter; Submitter; Worker 0; Worker 0; Worker 0]
      (system_start Demo.busy [1; 2]) = Some σ ∧
    allocated (log σ) = [10%positive] ∧
    freed (log σ) = [] ∧
    dom (heap (sched σ)) = dom (heap Demo.busy) ∪ {[10%positive]}.
Proof.
  assert (dom (heap Demo.busy)
          = list_to_set (m_TaskQueue Demo.busy ++ m_FreeTaskPool Demo.busy)) as Hdom.
  { by apply (bool_decide_unpack _); vm_compute. }
  split_and!; [exact wf_busy|exact Hdom|].
  destruct (storage_is_kept_and_reused Demo.busy [1; 2]
              [Submitter; Submitter; Worker 0; Worker 0; Worker 0] wf_busy Hdom)
    as (σ & Hrun & _ & _ & Hd & _ & _ & Hfr & _).
  exists σ. split; [exact Hrun|].
  assert (allocated (log σ) = [10%positive]) as Hal.
  { vm_compute in Hrun. injection Hrun as <-. reflexivity. }
  split_and!; [exact Hal|exact Hfr|].
  rewrite Hd, Hal. cbn. by rewrite union_empty_r_L.
Defined.

(** Manager 1 is deactivated; the host then announces manager 2. *)
Lemma deactivation_waits_for_a_manager_witness :
  GetLibrary (Demo.manager 1) = Some {| GetApplication := Some 50 |} ∧
  ∃ tr s1 tr' s2,
    OnManagerActivation false (Some (Demo.manager 1)) None (Demo.idle true)
    = Done tr s1 () ∧
    subscriptions s1 = ([], [OnInterfaceActivationEvent 50]) ∧
    m_ThreadManager s1 = 1 ∧
    deliver Demo.ThreadManagerUUID (NewInterfaceNotice 50 (Some (Demo.manager 2))) s1
    = Done tr' s2 () ∧
    subscriptions s2 = ([ActivationEvent 2], []) ∧
    m_ThreadManager s2 = 2.
Proof.
  split; [reflexivity|].
  destruct (deactivation_waits_for_a_manager Demo.join_attempts (Demo.CreateThread 1)
              Demo.ThreadManagerUUID (Demo.manager 1) (Demo.idle true)) as [Hlive _].
  destruct (Hlive {| GetApplication := Some 50 |} 50 eq_refl eq_refl)
    as (tr & s1 & Hrun & Hs1 & _ & _ & Hbind & _).
  destruct (Hbind (Demo.manager 2) eq_refl) as (tr' & Hd).
  eexists tr, s1, tr', _. split; [exact Hrun|].
  split_and!; [by rewrite Hs1|by rewrite Hs1|exact Hd|reflexivity|reflexivity].
Defined.

(** The worker of the busy scheduler is joined while it waits; [Stop]
    then runs tasks 7 and 8 itself and frees all storage. *)
Lemma Stop_runs_what_the_worker_left_witness :
  system_wf (workers_alone (scene_start Demo.busy [InWait])) ∧
  ∃ σ tr s',
    scene_run (Demo.CreateThread 1) 0
      [Resizer; Resizer; Resizer; Resizer; WorkerThread 0; WorkerThread 0;
       WorkerThread 0; Resizer; Resizer; Resizer; Resizer]
      (scene_start Demo.busy [InWait]) = Some σ ∧
    Stop_tail (shared σ) = Done tr s' () ∧
    executed (events σ) = [] ∧ executed tr = [7; 8] ∧
    freed tr = [5; 6; 9]%positive ∧
    heap s' = ∅.
Proof.
  assert (system_wf (workers_alone (scene_start Demo.busy [InWait]))) as Hwf.
  { unfold system_wf. cbn. split_and!.
    - by apply (bool_decide_unpack _); vm_compute.
    - repeat constructor; by eexists.
    - by repeat constructor. }
  split; [exact Hwf|].
  destruct (scene_run (Demo.CreateThread 1) 0
              [Resizer; Resizer; Resizer; Resizer; WorkerThread 0; WorkerThread 0;
               WorkerThread 0; Resizer; Resizer; Resizer; Resizer]
              (scene_start Demo.busy [InWait])) as [σ|] eqn:Hrun;
    [|by vm_compute in Hrun].
  assert (resizer σ = Returned CreateSuccess) as Hr.
  { vm_compute in Hrun. by injection Hrun as <-. }
  assert (dom (heap Demo.busy)
          = list_to_set (m_TaskQueue Demo.busy ++ m_FreeTaskPool Demo.busy
                           ++ held_slot InWait)) as Hdom.
  { by apply (bool_decide_unpack _); vm_compute. }
  destruct (Stop_runs_what_the_worker_left (Demo.CreateThread 1) Demo.busy 100 InWait
              _ σ CreateSuccess eq_refl Hwf Hdom Hrun Hr)
    as (_ & _ & (tr & s' & Htail & He & Hall & _ & Hf & _ & _ & Hh) & _ & _).
  exists σ, tr, s'. split; [reflexivity|].
  assert (executed (events σ) = []) as Hev.
  { vm_compute in Hrun. by injection Hrun as <-. }
  split_and!; [exact Htail|exact Hev| | |exact Hh].
  - rewrite Hev in Hall. exact Hall.
  - rewrite Hf. vm_compute in Hrun. by injection Hrun as <-.
Defined.

(** Two workers whose functions have returned: [SetWorkerCount 0] removes
    worker 1 and stops at line 81 in its second turn. *)
Lemma a_second_removal_does_not_end_witness :
  ∃ σ,
    scene_run (Demo.CreateThread 2) 0
      [Resizer; Resizer; Resizer; Resizer; Resizer; Resizer; Resizer; Resizer; Resizer;
       Resizer; Resizer; Resizer]
      (scene_start Demo.pair [Finished; Finished]) = Some σ ∧
    resizer σ = AtRelock 1 ∧
    m_TaskWorkers (shared σ) = [None] ∧
    ∀ more σ',
      scene_run (Demo.CreateThread 2) 0 more σ = Some σ' →
      resizer σ' = AtRelock 1 ∧ m_TaskWorkers (shared σ') = [None].
Proof.
  destruct (scene_run (Demo.CreateThread 2) 0
              [Resizer; Resizer; Resizer; Resizer; Resizer; Resizer; Resizer; Resizer;
               Resizer; Resizer; Resizer; Resizer]
              (scene_start Demo.pair [Finished; Finished])) as [σ|] eqn:Hrun;
    [|by vm_compute in Hrun].
  assert (0 + 2 ≤ length (m_TaskWorkers Demo.pair)) as Hn by (cbn; lia).
  destruct (a_second_removal_does_not_end (Demo.CreateThread 2) 0 Demo.pair
              [Finished; Finished] _ σ Hn Hrun) as (_ & _ & Hstuck).
  assert (resizer σ = AtRelock 1 ∧ m_TaskWorkers (shared σ) = [None] ∧
          TaskQueueMutex ∈ resizer_holds σ) as (Hr & Hw & Hh).
  { vm_compute in Hrun. injection Hrun as <-. split_and!; [done|done|]. cbn. set_solver. }
  exists σ. split; [reflexivity|]. split_and!; [exact Hr|exact Hw|].
  intros more σ' Hmore. destruct (Hstuck 1 Hr Hh more σ' Hmore) as [Hr' Hw'].
  split; [exact Hr'|]. by rewrite Hw'.
Defined.
